(** * Phonics Anki deck generator: identity derivation, curriculum
    validation/normalisation and the alphabet-order sequencer.

  Shallow embedding of [scripts/ids.py], [scripts/curriculum.py] and
  [scripts/alphabet_order.py], followed by the properties stated in the
  design specification.

  Conventions.
  - A Python [str] is represented by a [string] holding its UTF-8 byte
    sequence, so [s.encode("utf-8")] is the list of the bytes of [s] and
    string concatenation is [+:+].
  - A Python [int] is a [Z]; [bytes] is a [list Z] of values in [0, 255].
  - A raised exception is a value of an error type ([inl]) or [None]. *)

From Stdlib Require Import ZArith List String Ascii Lia Bool DecimalString.
From Stdlib Require DecimalPos DecimalZ Sorted.
From stdpp Require Import base option list strings gmap.
Import ListNotations.

Set Warnings "-register-all".

Local Open Scope Z_scope.

(* ===================================================================== *)
(** ** [hashlib]: the two digests the program calls                       *)
(* ===================================================================== *)

(** [hashlib.md5] and [hashlib.sha256] belong to the Python standard
  library.  They are written out here after RFC 1321 and FIPS 180-4 so
  that the identifiers the program derives can be evaluated. *)
Module Hashlib.

Definition mask32 : Z := 0xFFFFFFFF.

Definition add32 (x y : Z) : Z := Z.land (x + y) mask32.

Definition not32 (x : Z) : Z := Z.lxor x mask32.

Definition rotr32 (n x : Z) : Z :=
  Z.lor (Z.shiftr x n) (Z.land (Z.shiftl x (32 - n)) mask32).

Definition rotl32 (n x : Z) : Z :=
  Z.lor (Z.land (Z.shiftl x n) mask32) (Z.shiftr x (32 - n)).

(** [s.encode("utf-8")] *)
Definition encode_utf8 (s : string) : list Z :=
  map (fun c => Z.of_N (N_of_ascii c)) (list_ascii_of_string s).

(** [int.from_bytes(data, "big")] *)
Definition int_from_bytes_big (data : list Z) : Z :=
  fold_left (fun acc b => acc * 256 + b) data 0.

(** [int.from_bytes(data, "little")] *)
Definition int_from_bytes_little (data : list Z) : Z :=
  fold_right (fun b acc => acc * 256 + b) 0 data.

(** [x.to_bytes(n, "little")] on the low [n] bytes of [x] *)
Fixpoint int_to_bytes_little (n : nat) (x : Z) : list Z :=
  match n with
  | O => []
  | S n' => Z.land x 0xFF :: int_to_bytes_little n' (Z.shiftr x 8)
  end.

(** [x.to_bytes(n, "big")] on the low [n] bytes of [x] *)
Definition int_to_bytes_big (n : nat) (x : Z) : list Z :=
  rev (int_to_bytes_little n x).

(** Cut a list into [n] consecutive groups of [k] elements. *)
Fixpoint groups {A} (k n : nat) (l : list A) : list (list A) :=
  match n with
  | O => []
  | S n' => firstn k l :: groups k n' (skipn k l)
  end.

(** Number of zero bytes of padding: the padded length is a multiple of
    64 with the last 8 bytes holding the bit length. *)
Definition pad_zeros (len : Z) : nat := Z.to_nat ((55 - len) mod 64).

(** *** SHA-256 *)

(** Primality by trial division. *)
Definition is_prime (n : Z) : bool :=
  forallb (fun d => negb (n mod Z.of_nat d =? 0)) (seq 2 (Z.to_nat n - 2)).

(** The primes below 312: the first sixty-four. *)
Definition primes : list Z := filter is_prime (map Z.of_nat (seq 2 310)).

(** Integer cube root of a number below [2 ^ 123], bit by bit. *)
Definition icbrt (n : Z) : Z :=
  fold_left
    (fun r b => let c := r + Z.shiftl 1 (Z.of_nat b) in if c * c * c <=? n then c else r)
    (rev (seq 0 41)) 0.

(** The round constants: the first 32 bits of the fractional parts of the
    cube roots of the first sixty-four primes. *)
Definition sha256_K : list Z :=
  Eval vm_compute in map (fun p => icbrt (p * 2 ^ 96) mod 2 ^ 32) primes.

(** The initial hash value: the first 32 bits of the fractional parts of
    the square roots of the first eight primes. *)
Definition sha256_H0 : list Z :=
  Eval vm_compute in map (fun p => Z.sqrt (p * 2 ^ 64) mod 2 ^ 32) (firstn 8 primes).

Definition sha256_pad (msg : list Z) : list Z :=
  let len := Z.of_nat (length msg) in
  msg ++ [0x80] ++ repeat 0 (pad_zeros len) ++ int_to_bytes_big 8 (8 * len).

(** Message schedule: sixteen big-endian words extended to sixty-four. *)
Fixpoint sha256_extend (n : nat) (w : list Z) : list Z :=
  match n with
  | O => w
  | S n' =>
      let t := length w in
      let w15 := nth (t - 15) w 0 in
      let w2 := nth (t - 2) w 0 in
      let s0 := Z.lxor (Z.lxor (rotr32 7 w15) (rotr32 18 w15)) (Z.shiftr w15 3) in
      let s1 := Z.lxor (Z.lxor (rotr32 17 w2) (rotr32 19 w2)) (Z.shiftr w2 10) in
      sha256_extend n'
        (w ++ [add32 (add32 (nth (t - 16) w 0) s0) (add32 (nth (t - 7) w 0) s1)])
  end.

Definition sha256_schedule (block : list Z) : list Z :=
  sha256_extend 48 (map int_from_bytes_big (groups 4 16 block)).

Definition sha256_round (st : list Z) (kw : Z * Z) : list Z :=
  match st with
  | [a; b; c; d; e; f; g; h] =>
      let S1 := Z.lxor (Z.lxor (rotr32 6 e) (rotr32 11 e)) (rotr32 25 e) in
      let ch := Z.lxor (Z.land e f) (Z.land (not32 e) g) in
      let t1 := add32 (add32 (add32 h S1) (add32 ch (fst kw))) (snd kw) in
      let S0 := Z.lxor (Z.lxor (rotr32 2 a) (rotr32 13 a)) (rotr32 22 a) in
      let maj := Z.lxor (Z.lxor (Z.land a b) (Z.land a c)) (Z.land b c) in
      let t2 := add32 S0 maj in
      [add32 t1 t2; a; b; c; add32 d t1; e; f; g]
  | _ => st
  end.

Definition sha256_compress (st block : list Z) : list Z :=
  let st' := fold_left sha256_round (combine sha256_K (sha256_schedule block)) st in
  map (fun p => add32 (fst p) (snd p)) (combine st st').

(** [hashlib.sha256(msg).digest()] *)
Definition sha256 (msg : list Z) : list Z :=
  let padded := sha256_pad msg in
  let blocks := groups 64 (length padded / 64) padded in
  flat_map (int_to_bytes_big 4) (fold_left sha256_compress blocks sha256_H0).

(** *** MD5 *)

Definition md5_K : list Z :=
  [ 0xd76aa478; 0xe8c7b756; 0x242070db; 0xc1bdceee; 0xf57c0faf; 0x4787c62a;
    0xa8304613; 0xfd469501; 0x698098d8; 0x8b44f7af; 0xffff5bb1; 0x895cd7be;
    0x6b901122; 0xfd987193; 0xa679438e; 0x49b40821; 0xf61e2562; 0xc040b340;
    0x265e5a51; 0xe9b6c7aa; 0xd62f105d; 0x02441453; 0xd8a1e681; 0xe7d3fbc8;
    0x21e1cde6; 0xc33707d6; 0xf4d50d87; 0x455a14ed; 0xa9e3e905; 0xfcefa3f8;
    0x676f02d9; 0x8d2a4c8a; 0xfffa3942; 0x8771f681; 0x6d9d6122; 0xfde5380c;
    0xa4beea44; 0x4bdecfa9; 0xf6bb4b60; 0xbebfbc70; 0x289b7ec6; 0xeaa127fa;
    0xd4ef3085; 0x04881d05; 0xd9d4d039; 0xe6db99e5; 0x1fa27cf8; 0xc4ac5665;
    0xf4292244; 0x432aff97; 0xab9423a7; 0xfc93a039; 0x655b59c3; 0x8f0ccc92;
    0xffeff47d; 0x85845dd1; 0x6fa87e4f; 0xfe2ce6e0; 0xa3014314; 0x4e0811a1;
    0xf7537e82; 0xbd3af235; 0x2ad7d2bb; 0xeb86d391 ].

Definition md5_S : list Z :=
  [ 7; 12; 17; 22; 7; 12; 17; 22; 7; 12; 17; 22; 7; 12; 17; 22;
    5; 9; 14; 20; 5; 9; 14; 20; 5; 9; 14; 20; 5; 9; 14; 20;
    4; 11; 16; 23; 4; 11; 16; 23; 4; 11; 16; 23; 4; 11; 16; 23;
    6; 10; 15; 21; 6; 10; 15; 21; 6; 10; 15; 21; 6; 10; 15; 21 ].

Definition md5_A0 : list Z := [ 0x67452301; 0xefcdab89; 0x98badcfe; 0x10325476 ].

Definition md5_pad (msg : list Z) : list Z :=
  let len := Z.of_nat (length msg) in
  msg ++ [0x80] ++ repeat 0 (pad_zeros len) ++ int_to_bytes_little 8 (8 * len).

(** One of the sixty-four operations; [i] is the operation's index and
    [m] the sixteen little-endian words of the block. *)
Definition md5_round (m : list Z) (st : list Z) (i : Z) : list Z :=
  match st with
  | [a; b; c; d] =>
      let '(f, g) :=
        if i <? 16 then (Z.lor (Z.land b c) (Z.land (not32 b) d), i)
        else if i <? 32 then (Z.lor (Z.land d b) (Z.land (not32 d) c), (5 * i + 1) mod 16)
        else if i <? 48 then (Z.lxor (Z.lxor b c) d, (3 * i + 5) mod 16)
        else (Z.lxor c (Z.lor b (not32 d)), (7 * i) mod 16) in
      let x := add32 (add32 a f)
                     (add32 (nth (Z.to_nat i) md5_K 0) (nth (Z.to_nat g) m 0)) in
      [d; add32 b (rotl32 (nth (Z.to_nat i) md5_S 0) x); b; c]
  | _ => st
  end.

Definition md5_compress (st block : list Z) : list Z :=
  let m := map int_from_bytes_little (groups 4 16 block) in
  let st' := fold_left (md5_round m) (map Z.of_nat (seq 0 64)) st in
  map (fun p => add32 (fst p) (snd p)) (combine st st').

(** [hashlib.md5(msg).digest()] *)
Definition md5 (msg : list Z) : list Z :=
  let padded := md5_pad msg in
  let blocks := groups 64 (length padded / 64) padded in
  flat_map (int_to_bytes_little 4) (fold_left md5_compress blocks md5_A0).

(** Hexadecimal rendering of a digest, used to check the two functions
    against the published test vectors. *)
Definition hex_digit (d : Z) : ascii :=
  nth (Z.to_nat d) (list_ascii_of_string "0123456789abcdef") "?"%char.

Definition hexdigest (digest : list Z) : string :=
  string_of_list_ascii
    (flat_map (fun b => [hex_digit (Z.shiftr b 4); hex_digit (Z.land b 0xF)]) digest).

End Hashlib.

(* ===================================================================== *)
(** ** [scripts/ids.py]                                                   *)
(* ===================================================================== *)

Module Ids.
Import Hashlib.

(** [_hash_to_id]: first eight digest bytes, big-endian, sign bit cleared. *)
Definition _hash_to_id (namespace : string) : Z :=
  let h := md5 (encode_utf8 namespace) in
  Z.land (int_from_bytes_big (firstn 8 h)) 0x7FFFFFFFFFFFFFFF.

Definition DECK_ID_PHONICS_ROOT : Z := _hash_to_id "phonics-anki:deck:root".
Definition MODEL_ID_SOUND : Z := _hash_to_id "phonics-anki:model:sound".
Definition MODEL_ID_PATTERN : Z := _hash_to_id "phonics-anki:model:pattern".
Definition MODEL_ID_LETTER_CASE : Z := _hash_to_id "phonics-anki:model:letter_case".
Definition MODEL_ID_VISUAL_CONFUSABLE : Z :=
  _hash_to_id "phonics-anki:model:visual_confusable".
Definition MODEL_ID_ALPHABET_ORDER : Z := _hash_to_id "phonics-anki:model:alphabet_order".
Definition MODEL_ID_MINIMAL_PAIR : Z := _hash_to_id "phonics-anki:model:minimal_pair".

Definition DECK_NAME_SOUNDS : string := "Phonics::1. Sounds (Core)".
Definition DECK_NAME_SPELLINGS : string := "Phonics::2. Spellings (Graphemes)".
Definition DECK_NAME_PATTERNS : string := "Phonics::3. Patterns (Chunks/Rimes)".
Definition DECK_NAME_ALPHABET_CASE : string := "Alphabet::1. Uppercase + Lowercase".
Definition DECK_NAME_ALPHABET_ORDER : string := "Alphabet::2. Order (What Comes Next?)".
Definition DECK_NAME_VISUAL_CONFUSABLES : string :=
  "Advanced::Visual Discrimination (Letters)".
Definition DECK_NAME_MINIMAL_PAIRS : string := "Advanced::Minimal Pairs (Sound)".

(** The subdeck names the program creates decks for. *)
Definition production_deck_names : list string :=
  [ DECK_NAME_SOUNDS; DECK_NAME_SPELLINGS; DECK_NAME_PATTERNS;
    DECK_NAME_ALPHABET_CASE; DECK_NAME_ALPHABET_ORDER;
    DECK_NAME_VISUAL_CONFUSABLES; DECK_NAME_MINIMAL_PAIRS ].

Definition chars : string :=
  "0123456789ABCDEFGHIJKLMNOPQRSTUVWXYZabcdefghijklmnopqrstuvwxyz".

(** [chars[i]] for an index the loop produces. *)
Definition chars_at (i : Z) : ascii :=
  nth (Z.to_nat i) (list_ascii_of_string chars) "0"%char.

Definition base : Z := Z.of_nat (String.length chars).

(** The [while num > 0] loop of [_bytes_to_guid]: [result] collects the
    digits, least significant first.  [fuel] bounds the number of
    iterations; [encode_fuel] gives a bound the loop never reaches. *)
Fixpoint encode_loop (fuel : nat) (num : Z) (result : list ascii) : list ascii :=
  match fuel with
  | O => result
  | S fuel' =>
      if 0 <? num
      then encode_loop fuel' (num / base) (result ++ [chars_at (num mod base)])
      else result
  end.

Definition encode_fuel (num : Z) : nat := S (Z.to_nat (Z.log2 num)).

Definition _bytes_to_guid (data : list Z) : string :=
  let num := int_from_bytes_big data in
  if num =? 0 then String (chars_at 0) EmptyString
  else string_of_list_ascii (rev (encode_loop (encode_fuel num) num [])).

Definition note_guid (model_namespace item_id : string) : string :=
  let combined := "phonics-anki:" +:+ model_namespace +:+ ":" +:+ item_id in
  let h := sha256 (encode_utf8 combined) in
  _bytes_to_guid (firstn 8 h).

Definition deck_id_for_subdeck (subdeck_name : string) : Z :=
  _hash_to_id ("phonics-anki:deck:" +:+ subdeck_name).

End Ids.


(* ===================================================================== *)
(** ** Python values                                                      *)
(* ===================================================================== *)

Module Py.

(** [str(n)] for an [int]. *)
Definition str_int (n : Z) : string := NilZero.string_of_int (Z.to_int n).

(** [str(i)] for a list index. *)
Definition str_nat (i : nat) : string := str_int (Z.of_nat i).

(** A parsed JSON document, as [json.load] returns it: [None], [bool],
    [int], [float], [str], [list], and [dict] with string keys.  A dict
    keeps its entries in insertion order; [json.load] never yields two
    entries with one key.  The payload of a float is its IEEE-754 bit
    pattern; no function of the program inspects it. *)
Inductive json : Type :=
| JNull
| JBool (b : bool)
| JInt (n : Z)
| JFloat (bits : Z)
| JStr (s : string)
| JArr (elems : list json)
| JObj (entries : list (string * json)).

(** [type(x).__name__] *)
Definition type_name (x : json) : string :=
  match x with
  | JNull => "NoneType"
  | JBool _ => "bool"
  | JInt _ => "int"
  | JFloat _ => "float"
  | JStr _ => "str"
  | JArr _ => "list"
  | JObj _ => "dict"
  end.

(** [isinstance(x, int)]: [bool] is a subclass of [int]. *)
Definition isinstance_int (x : json) : bool :=
  match x with JInt _ | JBool _ => true | _ => false end.

(** [isinstance(x, str) and x]: a non-empty string. *)
Definition nonempty_str (x : json) : bool :=
  match x with JStr (String _ _) => true | _ => false end.

Section Dict.
Context {V : Type}.

(** [d.get(k)]: the entry for [k], if any. *)
Fixpoint dict_get (k : string) (d : list (string * V)) : option V :=
  match d with
  | [] => None
  | (k', v) :: d' => if String.eqb k k' then Some v else dict_get k d'
  end.

(** [k in d] *)
Definition dict_in (k : string) (d : list (string * V)) : bool :=
  match dict_get k d with Some _ => true | None => false end.

(** [d[k] = v]: an existing key keeps its place, a new key goes last. *)
Fixpoint dict_set (k : string) (v : V) (d : list (string * V)) : list (string * V) :=
  match d with
  | [] => [(k, v)]
  | (k', v') :: d' =>
      if String.eqb k k' then (k', v) :: d' else (k', v') :: dict_set k v d'
  end.
End Dict.

(** *** Objects and references

    Lists and dicts are mutable objects; a variable or a container slot
    holds a reference to them.  The store is the list of the objects
    allocated so far, and an address is an index into it. *)

Abbreviation addr := nat.

Inductive pyval : Type :=
| VNone
| VBool (b : bool)
| VInt (n : Z)
| VFloat (bits : Z)
| VStr (s : string)
| VRef (a : addr).

Inductive pyobj : Type :=
| PyList (elems : list pyval)
| PyDict (entries : list (string * pyval)).

Abbreviation heap := (list pyobj).

(** A computation reads and updates the store.  [None] stands for a
    raised exception; the operations below are defined on the operands a
    validated document gives them (a reference to a dict or to a list)
    and are [None] on every other operand. *)
Definition M (A : Type) : Type := heap -> option (A * heap).

Definition ret {A} (x : A) : M A := fun h => Some (x, h).

Definition bind {A B} (m : M A) (k : A -> M B) : M B :=
  fun h => match m h with Some (x, h') => k x h' | None => None end.

(** Allocation of a fresh object. *)
Definition new (o : pyobj) : M pyval :=
  fun h => Some (VRef (length h), h ++ [o]).

(** The entries of the dict [v] refers to. *)
Definition entries_of (v : pyval) : M (list (string * pyval)) :=
  fun h =>
    match v with
    | VRef a => match h !! a with Some (PyDict d) => Some (d, h) | _ => None end
    | _ => None
    end.

(** The elements of the list [v] refers to. *)
Definition elems_of (v : pyval) : M (list pyval) :=
  fun h =>
    match v with
    | VRef a => match h !! a with Some (PyList l) => Some (l, h) | _ => None end
    | _ => None
    end.

(** [d[k] = v] on the dict object [d] refers to: an update in place. *)
Definition setitem (d : pyval) (k : string) (v : pyval) : M unit :=
  fun h =>
    match d with
    | VRef a =>
        match h !! a with
        | Some (PyDict es) => Some (tt, <[a := PyDict (dict_set k v es)]> h)
        | _ => None
        end
    | _ => None
    end.

(** [json.load]: every array and object of the document becomes a fresh
    object; the elements are built before the container that holds them. *)
Fixpoint load (t : json) (h : heap) : pyval * heap :=
  match t with
  | JNull => (VNone, h)
  | JBool b => (VBool b, h)
  | JInt n => (VInt n, h)
  | JFloat f => (VFloat f, h)
  | JStr s => (VStr s, h)
  | JArr ts =>
      let '(vs, h') :=
        (fix load_elems (ts : list json) (h : heap) : list pyval * heap :=
           match ts with
           | [] => ([], h)
           | t :: ts' =>
               let '(v, h1) := load t h in
               let '(vs, h2) := load_elems ts' h1 in
               (v :: vs, h2)
           end) ts h in
      (VRef (length h'), h' ++ [PyList vs])
  | JObj kts =>
      let '(kvs, h') :=
        (fix load_entries (kts : list (string * json)) (h : heap)
           : list (string * pyval) * heap :=
           match kts with
           | [] => ([], h)
           | (k, t) :: kts' =>
               let '(v, h1) := load t h in
               let '(kvs, h2) := load_entries kts' h1 in
               ((k, v) :: kvs, h2)
           end) kts h in
      (VRef (length h'), h' ++ [PyDict kvs])
  end.

(** The document a value stands for in a store, read through at most
    [fuel] levels of references. *)
Fixpoint dump (fuel : nat) (h : heap) (v : pyval) : option json :=
  match fuel with
  | O => None
  | S fuel' =>
      match v with
      | VNone => Some JNull
      | VBool b => Some (JBool b)
      | VInt n => Some (JInt n)
      | VFloat f => Some (JFloat f)
      | VStr s => Some (JStr s)
      | VRef a =>
          match h !! a with
          | Some (PyList vs) => JArr <$> mapM (dump fuel' h) vs
          | Some (PyDict kvs) =>
              JObj <$> mapM (fun kv => pair (fst kv) <$> dump fuel' h (snd kv)) kvs
          | None => None
          end
      end
  end.

(** [represents h v t]: in store [h], the value [v] is the document [t]. *)
Definition represents (h : heap) (v : pyval) (t : json) : Prop :=
  exists fuel, dump fuel h v = Some t.

End Py.

(* ===================================================================== *)
(** ** [scripts/curriculum.py]: validation                                *)
(* ===================================================================== *)

Module Curriculum.
Import Py.

(** [CurriculumError(message)].  [InvalidType where_ t] is the error
    whose message is [where_ ++ ": invalid type '" ++ str(t) ++ "'. Must
    be one of: sound, pattern, minimal_pair_sound"]; the offending value
    can be any JSON value and is kept unrendered. *)
Inductive CurriculumError : Type :=
| Error (message : string)
| InvalidType (where_ : string) (item_type : json).

(** Outcome of a validation function: [inl e] when it raises [e],
    [inr tt] when it returns. *)
Definition outcome : Type := CurriculumError + unit.

Definition ok : outcome := inr tt.
Definition raise (message : string) : outcome := inl (Error message).

(** Sequencing: the first exception aborts. *)
Definition andthen (m k : outcome) : outcome :=
  match m with inl e => inl e | inr _ => k end.

Declare Scope outcome_scope.
Delimit Scope outcome_scope with outcome.
Bind Scope outcome_scope with outcome.
Notation "m ;; k" := (andthen m k%outcome)
  (at level 100, k at level 200, right associativity) : outcome_scope.
Local Open Scope outcome_scope.

(** [for field in required_fields: if field not in d: raise ...] *)
Fixpoint require_fields (where_ : string) (required_fields : list string)
    (d : list (string * json)) : outcome :=
  match required_fields with
  | [] => ok
  | field :: rest =>
      if dict_in field d then require_fields where_ rest d
      else raise (where_ +:+ ": missing required field '" +:+ field +:+ "'")
  end.

(** [for i, x in enumerate(xs): f(x, i)], counting from [i]. *)
Fixpoint for_enumerate (f : json -> nat -> outcome) (xs : list json) (i : nat) : outcome :=
  match xs with
  | [] => ok
  | x :: xs' => f x i ;; for_enumerate f xs' (S i)
  end.

(** [f"{path}[{index}]"] *)
Definition indexed (path : string) (index : nat) : string :=
  path +:+ "[" +:+ str_nat index +:+ "]".

Definition _validate_meta (meta : json) (path : string) : outcome :=
  match meta with
  | JObj d => require_fields path ["dialect"; "version"] d
  | _ => raise (path +:+ ": expected object, got " +:+ type_name meta)
  end.

Definition _validate_letter (letter : json) (index : nat) (path : string) : outcome :=
  match letter with
  | JObj d =>
      require_fields (indexed path index) ["id"; "upper"; "lower"; "order"] d ;;
      match dict_get "id" d, dict_get "order" d with
      | Some id, Some order =>
          (if nonempty_str id then ok
           else raise (indexed path index +:+ ".id: must be a non-empty string")) ;;
          (if isinstance_int order then ok
           else raise (indexed path index +:+ ".order: must be an integer"))
      | _, _ => ok
      end
  | _ => raise (indexed path index +:+ ": expected object, got " +:+ type_name letter)
  end.

Definition _validate_confusable (confusable : json) (index : nat) (path : string)
    : outcome :=
  match confusable with
  | JObj d =>
      require_fields (indexed path index) ["id"; "left"; "right"] d ;;
      match dict_get "id" d with
      | Some id =>
          if nonempty_str id then ok
          else raise (indexed path index +:+ ".id: must be a non-empty string")
      | None => ok
      end
  | _ => raise (indexed path index +:+ ": expected object, got " +:+ type_name confusable)
  end.

Definition _validate_alphabet (alphabet : json) (path : string) : outcome :=
  match alphabet with
  | JObj d =>
      match dict_get "letters" d with
      | None => raise (path +:+ ": missing required field 'letters'")
      | Some (JArr letters) =>
          for_enumerate (fun letter i => _validate_letter letter i (path +:+ ".letters"))
            letters 0%nat ;;
          match dict_get "confusables" d with
          | None => ok
          | Some (JArr confusables) =>
              for_enumerate
                (fun confusable i =>
                   _validate_confusable confusable i (path +:+ ".confusables"))
                confusables 0%nat
          | Some other =>
              raise (path +:+ ".confusables: expected array, got " +:+ type_name other)
          end
      | Some other => raise (path +:+ ".letters: expected array, got " +:+ type_name other)
      end
  | _ => raise (path +:+ ": expected object, got " +:+ type_name alphabet)
  end.

Definition _validate_example (example : json) (index : nat) (path : string) : outcome :=
  match example with
  | JObj d =>
      match dict_get "word" d with
      | None => raise (indexed path index +:+ ": missing required field 'word'")
      | Some word =>
          if nonempty_str word then ok
          else raise (indexed path index +:+ ".word: must be a non-empty string")
      end
  | _ => raise (indexed path index +:+ ": expected object, got " +:+ type_name example)
  end.

Definition valid_types : list string := ["sound"; "pattern"; "minimal_pair_sound"].

(** [f"{path}[{index}] (id={item['id']})"] *)
Definition indexed_id (path : string) (index : nat) (id : string) : string :=
  indexed path index +:+ " (id=" +:+ id +:+ ")".

(** The body of [for field in ("left", "right")] in [_validate_item]. *)
Definition validate_side (d : list (string * json)) (where_ : string) (field : string)
    : outcome :=
  match dict_get field d with
  | None => raise (where_ +:+ ": missing required field '" +:+ field +:+ "'")
  | Some (JObj side) =>
      if dict_in "word" side then ok
      else raise (where_ +:+ "." +:+ field +:+ ": missing required field 'word'")
  | Some other =>
      raise (where_ +:+ "." +:+ field +:+ ": expected object, got " +:+ type_name other)
  end.

Definition _validate_item (item : json) (index : nat) (path : string) : outcome :=
  match item with
  | JObj d =>
      match dict_get "id" d with
      | None => raise (indexed path index +:+ ": missing required field 'id'")
      | Some (JStr (String c id') as idv) =>
          let id := String c id' in
          match dict_get "type" d with
          | None =>
              raise (indexed_id path index id +:+ ": missing required field 'type'")
          | Some (JStr item_type) =>
              if negb (existsb (String.eqb item_type) valid_types) then
                inl (InvalidType (indexed_id path index id) (JStr item_type))
              else if String.eqb item_type "sound" || String.eqb item_type "pattern" then
                match dict_get "examples" d with
                | None =>
                    raise (indexed_id path index id
                           +:+ ": missing required field 'examples'")
                | Some (JArr []) =>
                    raise (indexed_id path index id +:+ ": examples list cannot be empty")
                | Some (JArr examples) =>
                    for_enumerate
                      (fun example i =>
                         _validate_example example i (indexed path index +:+ ".examples"))
                      examples 0%nat
                | Some other =>
                    raise (indexed_id path index id +:+ ".examples: expected array, got "
                           +:+ type_name other)
                end
              else if String.eqb item_type "minimal_pair_sound" then
                validate_side d (indexed_id path index id) "left" ;;
                validate_side d (indexed_id path index id) "right"
              else ok
          | Some item_type => inl (InvalidType (indexed_id path index id) item_type)
          end
      | Some _ => raise (indexed path index +:+ ".id: must be a non-empty string")
      end
  | _ => raise (indexed path index +:+ ": expected object, got " +:+ type_name item)
  end.

(** [item["id"]] for an item that passed [_validate_item]. *)
Definition item_id (item : json) : option string :=
  match item with
  | JObj d => match dict_get "id" d with Some (JStr id) => Some id | _ => None end
  | _ => None
  end.

(** The loop of [_validate_items]; [seen_ids] is the set built so far. *)
Fixpoint validate_items_loop (items : list json) (i : nat) (path : string)
    (seen_ids : gset string) : outcome :=
  match items with
  | [] => ok
  | item :: rest =>
      _validate_item item i path ;;
      match item_id item with
      | Some id =>
          if bool_decide (id ∈ seen_ids)
          then raise (indexed path i +:+ ": duplicate id '" +:+ id +:+ "'")
          else validate_items_loop rest (S i) path ({[id]} ∪ seen_ids)
      | None => ok
      end
  end.

Definition _validate_items (items : json) (path : string) : outcome :=
  match items with
  | JArr l => validate_items_loop l 0%nat path ∅
  | _ => raise (path +:+ ": expected array, got " +:+ type_name items)
  end.

(** The checks [load_curriculum] runs on the parsed document [data]
    before it normalises it. *)
Definition validate (data : json) : outcome :=
  match data with
  | JObj d =>
      match dict_get "meta" d, dict_get "alphabet" d, dict_get "items" d with
      | None, _, _ => raise "Missing required section: 'meta'"
      | _, None, _ => raise "Missing required section: 'alphabet'"
      | _, _, None => raise "Missing required section: 'items'"
      | Some meta, Some alphabet, Some items =>
          _validate_meta meta "meta" ;;
          _validate_alphabet alphabet "alphabet" ;;
          _validate_items items "items"
      end
  | _ => raise ("Curriculum root must be an object, got " +:+ type_name data)
  end.

(** *** Normalisation

    The normaliser updates dicts in place, so it is a computation on the
    store.  [load_curriculum] runs it on a document that passed
    [validate]: [data] refers to a dict whose [items] is a list of dicts
    and whose [alphabet] is a dict. *)

Notation "'let*' x ':=' m 'in' k" := (bind m (fun x => k))
  (at level 10, x name, m at level 100, k at level 200).

(** [dict(d)]: a new dict with the entries of [d]; the values are shared. *)
Definition dict_copy (d : pyval) : M pyval :=
  let* es := entries_of d in new (PyDict es).

Definition _normalize_item (item : pyval) : M pyval :=
  let* normalized := dict_copy item in
  let* es := entries_of normalized in
  let* _ :=
    match dict_get "graphemes" es with
    | None =>
        let* l := new (PyList []) in setitem normalized "graphemes" l
    | Some (VStr g) =>
        let* l := new (PyList [VStr g]) in setitem normalized "graphemes" l
    | Some _ => ret tt
    end in
  let* es := entries_of normalized in
  let* _ :=
    if dict_in "notes" es then ret tt else setitem normalized "notes" (VStr "") in
  ret normalized.

(** [[f(x) for x in xs]] *)
Fixpoint for_each (f : pyval -> M pyval) (xs : list pyval) : M (list pyval) :=
  match xs with
  | [] => ret []
  | x :: xs' =>
      let* y := f x in
      let* ys := for_each f xs' in
      ret (y :: ys)
  end.

Definition _normalize_curriculum (data : pyval) : M pyval :=
  let* normalized := dict_copy data in
  let* es := entries_of data in
  let* items :=
    match dict_get "items" es with
    | Some items => elems_of items
    | None => ret []
    end in
  let* items' := for_each _normalize_item items in
  let* l := new (PyList items') in
  let* _ := setitem normalized "items" l in
  let* es := entries_of normalized in
  let* _ :=
    match dict_get "alphabet" es with
    | Some alphabet =>
        let* aes := entries_of alphabet in
        if dict_in "confusables" aes then ret tt
        else let* l := new (PyList []) in setitem alphabet "confusables" l
    | None => ret tt
    end in
  ret normalized.

(** *** Queries *)

(** [item.get("type") == item_type] for a dict [item]. *)
Definition type_is (item_type : string) (item : list (string * json)) : bool :=
  match dict_get "type" item with
  | Some (JStr t) => String.eqb t item_type
  | _ => false
  end.

(** The list comprehension of [get_items_by_type].  [None] is the
    [AttributeError] an element without a [get] method raises. *)
Fixpoint select_by_type (item_type : string) (items : list json) : option (list json) :=
  match items with
  | [] => Some []
  | JObj d :: rest =>
      match select_by_type item_type rest with
      | Some selected =>
          Some (if type_is item_type d then JObj d :: selected else selected)
      | None => None
      end
  | _ :: _ => None
  end.

(** [get_items_by_type].  It only reads [curriculum] and returns a new
    list, so it is written on the value.  [None] is an exception:
    [curriculum] is not a dict, [items] cannot be iterated, or an element
    visited is not a dict; iterating a non-empty string or dict visits
    strings, an empty one visits nothing. *)
Definition get_items_by_type (curriculum : json) (item_type : string) : option (list json) :=
  match curriculum with
  | JObj c =>
      match dict_get "items" c with
      | None => Some []
      | Some (JArr items) => select_by_type item_type items
      | Some (JStr "") | Some (JObj []) => Some []
      | Some _ => None
      end
  | _ => None
  end.

End Curriculum.

(* ===================================================================== *)
(** ** [scripts/alphabet_order.py]                                        *)
(* ===================================================================== *)

Module AlphabetOrder.
Import Py.

(** A letter dict of the curriculum, by the fields the schema gives it.
    A key may be absent, which is what the generator's [.get] calls
    allow for. *)
Record Letter : Type := {
  letter_id : option string;
  upper : option string;
  lower : option string;
  order : option Z
}.

(** The dict the generator yields. *)
Record AlphabetOrderEntry : Type := {
  id : string;
  prompt : string;
  answer : string;
  position : Z
}.

(** [sorted(xs, key=key)]: Python's sort is stable, so the result is the
    one of inserting each element before the first element with a
    greater or equal key among those that followed it. *)
Fixpoint insert_by {A} (key : A -> Z) (x : A) (l : list A) : list A :=
  match l with
  | [] => [x]
  | y :: l' => if key x <=? key y then x :: y :: l' else y :: insert_by key x l'
  end.

Fixpoint sorted {A} (key : A -> Z) (xs : list A) : list A :=
  match xs with
  | [] => []
  | x :: xs' => insert_by key x (sorted key xs')
  end.

(** [range(start, stop)] *)
Definition range (start stop : Z) : list Z :=
  map (fun k => start + Z.of_nat k) (seq 0 (Z.to_nat (stop - start))).

(** A slice bound as Python normalises it: a negative bound counts from
    the end, and the result is clamped to [0, len]. *)
Definition slice_bound (len i : Z) : nat :=
  Z.to_nat (Z.min len (Z.max 0 (if i <? 0 then i + len else i))).

(** [xs[start:stop]] *)
Definition slice {A} (xs : list A) (start stop : Z) : list A :=
  let len := Z.of_nat (length xs) in
  let lo := slice_bound len start in
  let hi := slice_bound len stop in
  firstn (hi - lo) (skipn lo xs).

(** [xs[i]]; [None] is [IndexError]. *)
Definition index {A} (xs : list A) (i : Z) : option A :=
  let len := Z.of_nat (length xs) in
  let j := if i <? 0 then i + len else i in
  if (0 <=? j) && (j <? len) then xs !! Z.to_nat j else None.

(** [sep.join(parts)] *)
Fixpoint join (sep : string) (parts : list string) : string :=
  match parts with
  | [] => ""
  | [p] => p
  | p :: rest => p +:+ sep +:+ join sep rest
  end.

(** The entry the loop body builds at index [i]. *)
Definition entry_at (sorted_letters : list Letter) (window_size i : Z)
    (answer_letter : Letter) : AlphabetOrderEntry :=
  let window := slice sorted_letters (i - window_size) i in
  let prompt_letters := map (fun letter => default "" (upper letter)) window in
  {| id := "alphabet_order_" +:+ str_int (default (i + 1) (order answer_letter));
     prompt := join "  " prompt_letters +:+ "  __";
     answer := default "" (upper answer_letter);
     position := default (i + 1) (order answer_letter) |}.

(** The [for] loop over the indices [is_]: the entries yielded, and
    whether the loop ran to its end ([true]) or stopped at an
    [IndexError] raised by [sorted_letters[i]] ([false]). *)
Fixpoint loop (sorted_letters : list Letter) (window_size : Z) (is_ : list Z)
    : list AlphabetOrderEntry * bool :=
  match is_ with
  | [] => ([], true)
  | i :: rest =>
      match index sorted_letters i with
      | None => ([], false)
      | Some answer_letter =>
          let '(entries, finished) := loop sorted_letters window_size rest in
          (entry_at sorted_letters window_size i answer_letter :: entries, finished)
      end
  end.

Definition generate_alphabet_order_items (letters : list Letter) (window_size : Z)
    : list AlphabetOrderEntry * bool :=
  let sorted_letters := sorted (fun x => default 0 (order x)) letters in
  loop sorted_letters window_size (range window_size (Z.of_nat (length sorted_letters))).

End AlphabetOrder.

(* ===================================================================== *)
(** * Vocabulary of the properties                                        *)
(* ===================================================================== *)

(** ** Tokens *)

Module IdsSpec.
Import Hashlib Ids.

(** Digits, upper-case and lower-case ASCII letters. *)
Definition is_alnum (c : ascii) : bool :=
  let n := N_of_ascii c in
  ((48 <=? n) && (n <=? 57) || (65 <=? n) && (n <=? 90) || (97 <=? n) && (n <=? 122))%N.

(** A string made of such characters only. *)
Definition alphanumeric (s : string) : Prop :=
  Forall (fun c => is_alnum c = true) (list_ascii_of_string s).

(** The digit a character of [chars] stands for: its index in [chars]. *)
Definition char_value (c : ascii) : Z :=
  match find (fun ic => Ascii.eqb c ic.2) (imap pair (list_ascii_of_string chars)) with
  | Some (i, _) => Z.of_nat i
  | None => 0
  end.

(** The number a token denotes in base 62, most significant digit first. *)
Definition decode_guid (s : string) : Z :=
  fold_left (fun acc c => acc * base + char_value c) (list_ascii_of_string s) 0.

(** The number a list of digits denotes, least significant digit first. *)
Definition digits_value (digits : list ascii) : Z :=
  fold_right (fun c acc => acc * base + char_value c) 0 digits.

(** A byte string: every element is in [0, 255]. *)
Definition is_bytes (data : list Z) : Prop := Forall (fun b => 0 <= b < 256) data.

(** The string [note_guid] hashes for a namespace and an item id. *)
Definition guid_key (model_namespace item_id : string) : string :=
  "phonics-anki:" +:+ model_namespace +:+ ":" +:+ item_id.

(** The six values of the [ModelNamespace] literal type. *)
Definition model_namespaces : list string :=
  [ "sound"; "pattern"; "letter_case"; "visual_confusable"; "alphabet_order";
    "minimal_pair" ].

(** No character of the string is a colon. *)
Definition no_colon (s : string) : Prop :=
  Forall (fun c => c <> ":"%char) (list_ascii_of_string s).

(** The identifiers the module computes at import time, and those of the
    production subdecks. *)
Definition fixed_ids : list Z :=
  [ DECK_ID_PHONICS_ROOT; MODEL_ID_SOUND; MODEL_ID_PATTERN; MODEL_ID_LETTER_CASE;
    MODEL_ID_VISUAL_CONFUSABLE; MODEL_ID_ALPHABET_ORDER; MODEL_ID_MINIMAL_PAIR ]
  ++ map deck_id_for_subdeck production_deck_names.

End IdsSpec.

(** ** Sample letters *)

Module AlphabetOrderSpec.
Import Py AlphabetOrder.

(** A letter entry as the curriculum writes it. *)
Definition letter (u l : string) (o : Z) : Letter :=
  {| letter_id := Some ("letter_" +:+ l); upper := Some u; lower := Some l;
     order := Some o |}.

(** The letters A..Z, in order, with [order] 1..26. *)
Definition letters_A_Z : list Letter :=
  [ letter "A" "a" 1; letter "B" "b" 2; letter "C" "c" 3; letter "D" "d" 4;
    letter "E" "e" 5; letter "F" "f" 6; letter "G" "g" 7; letter "H" "h" 8;
    letter "I" "i" 9; letter "J" "j" 10; letter "K" "k" 11; letter "L" "l" 12;
    letter "M" "m" 13; letter "N" "n" 14; letter "O" "o" 15; letter "P" "p" 16;
    letter "Q" "q" 17; letter "R" "r" 18; letter "S" "s" 19; letter "T" "t" 20;
    letter "U" "u" 21; letter "V" "v" 22; letter "W" "w" 23; letter "X" "x" 24;
    letter "Y" "y" 25; letter "Z" "z" 26 ].

(** The letters in the order the generator walks them. *)
Definition by_order (letters : list Letter) : list Letter :=
  sorted (fun x => default 0 (order x)) letters.

(** Every letter declares its [order], as the validator requires. *)
Definition all_ordered (letters : list Letter) : Prop :=
  Forall (fun letter => is_Some (order letter)) letters.

(** The [upper] of each letter, as the prompt shows it. *)
Definition uppers (letters : list Letter) : list string :=
  map (fun letter => default "" (upper letter)) letters.

End AlphabetOrderSpec.

(** ** Sample documents *)

Module ValidatorSpec.
Import Py Curriculum.

(** A document whose [meta] maps both required keys to [null]. *)
Definition null_meta_document : json :=
  JObj [ ("meta", JObj [("dialect", JNull); ("version", JNull)]);
         ("alphabet", JObj [("letters", JArr [])]);
         ("items", JArr []) ].

(** A valid [sound] item with the given id. *)
Definition sound_item (id : string) : json :=
  JObj [ ("id", JStr id); ("type", JStr "sound");
         ("examples", JArr [JObj [("word", JStr "apple")]]) ].

(** A minimal valid curriculum whose alphabet has no [confusables] key. *)
Definition curriculum_without_confusables : json :=
  JObj [ ("meta", JObj [("dialect", JStr "General American"); ("version", JStr "v1")]);
         ("alphabet",
          JObj [("letters",
                 JArr [JObj [("id", JStr "letter_a"); ("upper", JStr "A");
                             ("lower", JStr "a"); ("order", JInt 1)]])]);
         ("items",
          JArr [JObj [("id", JStr "sound_ae"); ("type", JStr "sound");
                      ("examples", JArr [JObj [("word", JStr "apple")]])]]) ].

(** *** What the validator accepts *)

(** A non-empty string. *)
Definition is_nonempty_str (x : json) : Prop := exists s, x = JStr s /\ s <> "".

(** An example: an object whose [word] is a non-empty string. *)
Definition valid_example (example : json) : Prop :=
  exists d word,
    example = JObj d /\ dict_get "word" d = Some word /\ is_nonempty_str word.

(** A side of a minimal pair: an object with a [word] key. *)
Definition valid_side (d : list (string * json)) (field : string) : Prop :=
  exists side, dict_get field d = Some (JObj side) /\ dict_in "word" side = true.

(** An item: an object with a non-empty string [id] and a [type] among the
    three item types; a [sound] or a [pattern] has a non-empty array of
    examples, a [minimal_pair_sound] has a [left] and a [right] side. *)
Definition valid_item (item : json) : Prop :=
  exists d id type,
    item = JObj d
    /\ dict_get "id" d = Some id /\ is_nonempty_str id
    /\ dict_get "type" d = Some (JStr type)
    /\ (((type = "sound" \/ type = "pattern")
         /\ exists examples,
              dict_get "examples" d = Some (JArr examples)
              /\ examples <> [] /\ Forall valid_example examples)
        \/ (type = "minimal_pair_sound" /\ valid_side d "left" /\ valid_side d "right")).

(** A letter: an object with the four required keys, a non-empty string
    [id] and an [order] that is an [int] (which a [bool] is). *)
Definition valid_letter (letter : json) : Prop :=
  exists d id order,
    letter = JObj d
    /\ dict_get "id" d = Some id /\ is_nonempty_str id
    /\ dict_in "upper" d = true /\ dict_in "lower" d = true
    /\ dict_get "order" d = Some order
    /\ ((exists n, order = JInt n) \/ (exists b, order = JBool b)).

(** A confusable: an object with [left], [right] and a non-empty string
    [id]. *)
Definition valid_confusable (confusable : json) : Prop :=
  exists d id,
    confusable = JObj d
    /\ dict_get "id" d = Some id /\ is_nonempty_str id
    /\ dict_in "left" d = true /\ dict_in "right" d = true.

(** An alphabet: an object whose [letters] is an array of letters and
    whose [confusables], if present, is an array of confusables. *)
Definition valid_alphabet (alphabet : json) : Prop :=
  exists d letters,
    alphabet = JObj d
    /\ dict_get "letters" d = Some (JArr letters) /\ Forall valid_letter letters
    /\ (dict_get "confusables" d = None
        \/ exists confusables,
             dict_get "confusables" d = Some (JArr confusables)
             /\ Forall valid_confusable confusables).

(** [prefix] starts the string [s]. *)
Definition starts_with (prefix s : string) : Prop := exists rest, s = prefix +:+ rest.

(** The place an error message starts with. *)
Definition error_location (e : CurriculumError) : string :=
  match e with
  | Error message => message
  | InvalidType where_ _ => where_
  end.

(** [item.get("type") == item_type], for any element. *)
Definition has_type (item_type : string) (item : json) : bool :=
  match item with
  | JObj d => type_is item_type d
  | _ => false
  end.

End ValidatorSpec.

(** ** Documents in the store *)

Module StoreSpec.
Import Py.

(** Two dicts with the same keys in the same order whose values are
    related by [R]. *)
Definition entries_rel {A B} (R : A -> B -> Prop)
    (kas : list (string * A)) (kbs : list (string * B)) : Prop :=
  Forall2 (fun ka kb => ka.1 = kb.1 /\ R ka.2 kb.2) kas kbs.

(** *** The layout [json.load] produces

    [chain P lo hi xs ys]: the address range [lo, hi) is cut into
    consecutive pieces, one for each pair of elements of [xs] and [ys],
    and [P] holds of every pair on its piece. *)
Inductive chain {A B} (P : nat -> nat -> A -> B -> Prop)
  : nat -> nat -> list A -> list B -> Prop :=
| chain_nil lo : chain P lo lo [] []
| chain_cons lo mid hi x y xs ys :
    (lo <= mid)%nat -> P lo mid x y -> chain P mid hi xs ys ->
    chain P lo hi (x :: xs) (y :: ys).

(** [loaded h lo hi v t]: [v] stands for [t] in [h] and the objects of
    [t] are exactly those at the addresses [lo, hi), children before
    parents, siblings side by side. *)
Inductive loaded (h : heap) : nat -> nat -> pyval -> json -> Prop :=
| loaded_null lo : loaded h lo lo VNone JNull
| loaded_bool lo b : loaded h lo lo (VBool b) (JBool b)
| loaded_int lo n : loaded h lo lo (VInt n) (JInt n)
| loaded_float lo f : loaded h lo lo (VFloat f) (JFloat f)
| loaded_str lo s : loaded h lo lo (VStr s) (JStr s)
| loaded_arr lo a vs ts :
    chain (loaded h) lo a vs ts -> h !! a = Some (PyList vs) ->
    loaded h lo (S a) (VRef a) (JArr ts)
| loaded_obj lo a kvs kts :
    chain (fun lo hi kv kt => kv.1 = kt.1 /\ loaded h lo hi kv.2 kt.2) lo a kvs kts ->
    h !! a = Some (PyDict kvs) ->
    loaded h lo (S a) (VRef a) (JObj kts).

(** The inner loop of [load] over the elements of an array ... *)
Definition load_elems : list json -> heap -> list pyval * heap :=
  fix load_elems (ts : list json) (h : heap) : list pyval * heap :=
    match ts with
    | [] => ([], h)
    | t :: ts' =>
        let '(v, h1) := load t h in
        let '(vs, h2) := load_elems ts' h1 in
        (v :: vs, h2)
    end.

(** ... and the one over the entries of an object. *)
Definition load_entries : list (string * json) -> heap -> list (string * pyval) * heap :=
  fix load_entries (kts : list (string * json)) (h : heap) : list (string * pyval) * heap :=
    match kts with
    | [] => ([], h)
    | (k, t) :: kts' =>
        let '(v, h1) := load t h in
        let '(kvs, h2) := load_entries kts' h1 in
        ((k, v) :: kvs, h2)
    end.

(** [v] refers to a dict of the store. *)
Definition dict_ref (h : heap) (v : pyval) : Prop :=
  exists a es, v = VRef a /\ h !! a = Some (PyDict es).

(** [v] refers to a dict of [h] whose values stand, in [g], for those of
    the object [t]. *)
Definition item_in (h g : heap) (v : pyval) (t : json) : Prop :=
  exists a es kts,
    v = VRef a /\ h !! a = Some (PyDict es) /\ t = JObj kts
    /\ entries_rel (represents g) es kts.

(** *** Objects out of reach of an address

    [framed h x v t]: [v] stands for [t] in [h] through objects laid out
    on a range of addresses that does not contain [x]. *)
Definition framed (h : heap) (x : addr) (v : pyval) (t : json) : Prop :=
  exists lo hi, loaded h lo hi v t /\ (hi <= length h)%nat /\ ~ (lo <= x < hi)%nat.

(** [g] keeps every object of [h] except, possibly, the one at [x]. *)
Definition keeps_but (x : addr) (h g : heap) : Prop :=
  forall b o, b <> x -> h !! b = Some o -> g !! b = Some o.

End StoreSpec.

(** ** The normalised document *)

Module NormalizerSpec.
Import Py Curriculum.

(** The entries of an item once [graphemes] has its default. *)
Definition graphemes_defaulted (es : list (string * json)) : list (string * json) :=
  match dict_get "graphemes" es with
  | None => dict_set "graphemes" (JArr []) es
  | Some (JStr g) => dict_set "graphemes" (JArr [JStr g]) es
  | Some _ => es
  end.

(** The item the normaliser returns for [item]: [graphemes] defaulted,
    then [notes] defaulted to the empty string. *)
Definition normalized_item (item : json) : json :=
  match item with
  | JObj es =>
      let es1 := graphemes_defaulted es in
      JObj (if dict_in "notes" es1 then es1 else dict_set "notes" (JStr "") es1)
  | _ => item
  end.

(** The alphabet with [confusables] defaulted to the empty list. *)
Definition with_confusables (alphabet : json) : json :=
  match alphabet with
  | JObj aes =>
      if dict_in "confusables" aes then alphabet
      else JObj (dict_set "confusables" (JArr []) aes)
  | _ => alphabet
  end.

(** The entries of a curriculum whose alphabet, if any, has [confusables]. *)
Definition with_alphabet_confusables (es : list (string * json)) : list (string * json) :=
  match dict_get "alphabet" es with
  | Some alphabet => dict_set "alphabet" (with_confusables alphabet) es
  | None => es
  end.

(** The document the input of [_normalize_curriculum] has become once it
    has run. *)
Definition input_after (data : json) : json :=
  match data with
  | JObj es => JObj (with_alphabet_confusables es)
  | _ => data
  end.

(** The document [_normalize_curriculum] returns for [data], as §4.5 of
    the specification describes it: every item normalised, the alphabet
    with its [confusables]. *)
Definition normalized (data : json) : json :=
  match data with
  | JObj es =>
      let items :=
        match dict_get "items" es with Some (JArr items) => items | _ => [] end in
      JObj (dict_set "items" (JArr (map normalized_item items))
              (with_alphabet_confusables es))
  | _ => data
  end.

Definition is_obj (t : json) : Prop := exists es, t = JObj es.

(** The shape validation guarantees: an object with an [alphabet] object
    and an [items] array of objects. *)
Definition well_shaped (d : json) : Prop :=
  exists kts akts its,
    d = JObj kts
    /\ dict_get "alphabet" kts = Some (JObj akts)
    /\ dict_get "items" kts = Some (JArr its)
    /\ Forall is_obj its.

(** What §4.5 asks of the normalised item [out] for the input [item]:
    the [graphemes] and [notes] defaults. *)
Definition item_defaults (item out : json) : Prop :=
  exists es oes,
    item = JObj es /\ out = JObj oes
    /\ (dict_get "graphemes" es = None -> dict_get "graphemes" oes = Some (JArr []))
    /\ (forall g, dict_get "graphemes" es = Some (JStr g) ->
                  dict_get "graphemes" oes = Some (JArr [JStr g]))
    /\ (dict_get "notes" es = None -> dict_get "notes" oes = Some (JStr "")).

(** The output [out] has the defaults of §4.5 with respect to the input
    [d]: item by item, and for the alphabet. *)
Definition has_defaults (d out : json) : Prop :=
  exists kts akts its okts oakts oits,
    d = JObj kts
    /\ dict_get "alphabet" kts = Some (JObj akts)
    /\ dict_get "items" kts = Some (JArr its)
    /\ out = JObj okts
    /\ dict_get "alphabet" okts = Some (JObj oakts)
    /\ dict_get "items" okts = Some (JArr oits)
    /\ dict_in "confusables" oakts = true
    /\ (dict_in "confusables" akts = false -> dict_get "confusables" oakts = Some (JArr []))
    /\ Forall2 item_defaults its oits.

(** Every key outside [changed] has in [oes] the value it has in [es]. *)
Definition same_outside (changed : list string) (es oes : list (string * json)) : Prop :=
  forall k, k ∉ changed -> dict_get k oes = dict_get k es.

(** Every entry of [es] is an entry of [oes]. *)
Definition entries_kept (es oes : list (string * json)) : Prop :=
  forall k v, dict_get k es = Some v -> dict_get k oes = Some v.

(** What the normalised item [out] keeps of [item]: every field other
    than [graphemes] and [notes], the [notes] it had, and the [graphemes]
    it had unless they were a string. *)
Definition item_kept (item out : json) : Prop :=
  exists es oes,
    item = JObj es /\ out = JObj oes
    /\ same_outside ["graphemes"; "notes"] es oes
    /\ (forall v, dict_get "notes" es = Some v -> dict_get "notes" oes = Some v)
    /\ (forall v, dict_get "graphemes" es = Some v -> (forall g, v <> JStr g) ->
                  dict_get "graphemes" oes = Some v).

(** What the normalised document [out] keeps of [d]: its keys in their
    order, every section other than [items] and [alphabet], every entry of
    the alphabet, and item by item what [item_kept] says. *)
Definition kept (d out : json) : Prop :=
  exists kts akts its okts oakts oits,
    d = JObj kts
    /\ dict_get "alphabet" kts = Some (JObj akts)
    /\ dict_get "items" kts = Some (JArr its)
    /\ out = JObj okts
    /\ dict_get "alphabet" okts = Some (JObj oakts)
    /\ dict_get "items" okts = Some (JArr oits)
    /\ map fst okts = map fst kts
    /\ same_outside ["items"; "alphabet"] kts okts
    /\ entries_kept akts oakts
    /\ same_outside ["confusables"] akts oakts
    /\ Forall2 item_kept its oits.

End NormalizerSpec.

(* ===================================================================== *)
(** * Properties                                                          *)
(* ===================================================================== *)

(** ** Identity derivation *)

Module IdsFacts.
Import Hashlib Ids IdsSpec.

(** The constants of SHA-256, at both ends of the tables. *)
Example sha256_constants :
  length sha256_K = 64%nat
  /\ nth 0 sha256_K 0 = 0x428a2f98 /\ nth 63 sha256_K 0 = 0xc67178f2
  /\ nth 0 sha256_H0 0 = 0x6a09e667 /\ nth 7 sha256_H0 0 = 0x5be0cd19.
Proof. repeat split. Qed.

Example str_int_examples :
  Py.str_int 0 = "0" /\ Py.str_int 26 = "26" /\ Py.str_int (-120) = "-120"
  /\ Py.str_nat 15 = "15".
Proof. repeat split. Qed.

(** The digests agree with the published test vectors. *)
Example sha256_abc :
  hexdigest (sha256 (encode_utf8 "abc"))
  = "ba7816bf8f01cfea414140de5dae2223b00361a396177a9cb410ff61f20015ad".
Proof. vm_compute. reflexivity. Qed.

Example sha256_two_blocks :
  hexdigest (sha256 (encode_utf8
    "abcdbcdecdefdefgefghfghighijhijkijkljklmklmnlmnomnopnopq"))
  = "248d6a61d20638b8e5c026930c3e6039a33ce45964ff2167f6ecedd419db06c1".
Proof. vm_compute. reflexivity. Qed.

Example md5_abc :
  hexdigest (md5 (encode_utf8 "abc")) = "900150983cd24fb0d6963f7d28e17f72".
Proof. vm_compute. reflexivity. Qed.

Example md5_two_blocks :
  hexdigest (md5 (encode_utf8
    "12345678901234567890123456789012345678901234567890123456789012345678901234567890"))
  = "57edf4a22be3c955ac49da2e2107b67a".
Proof. vm_compute. reflexivity. Qed.

(** *** Bytes are non-negative *)

Lemma int_to_bytes_little_nonneg n x : Forall (fun b => 0 <= b) (int_to_bytes_little n x).
Proof.
  revert x. induction n as [|n IH]; intros x; simpl; constructor.
  - apply Z.land_nonneg. right. lia.
  - apply IH.
Qed.

Lemma int_to_bytes_big_nonneg n x : Forall (fun b => 0 <= b) (int_to_bytes_big n x).
Proof.
  unfold int_to_bytes_big. apply Forall_rev, int_to_bytes_little_nonneg.
Qed.

Lemma sha256_bytes_nonneg msg : Forall (fun b => 0 <= b) (sha256 msg).
Proof.
  unfold sha256. generalize (fold_left sha256_compress
    (groups 64 (length (sha256_pad msg) / 64) (sha256_pad msg)) sha256_H0).
  intros st. induction st as [|w st IH]; cbn [flat_map].
  - constructor.
  - apply Forall_app. split; [apply int_to_bytes_big_nonneg | exact IH].
Qed.

Lemma fold_bytes_nonneg data acc :
  0 <= acc -> Forall (fun b => 0 <= b) data ->
  0 <= fold_left (fun acc b => acc * 256 + b) data acc.
Proof.
  revert acc. induction data as [|b data IH]; intros acc Hacc Hdata; simpl.
  - exact Hacc.
  - inversion Hdata; subst. apply IH; [lia | assumption].
Qed.

Lemma int_from_bytes_big_nonneg data :
  Forall (fun b => 0 <= b) data -> 0 <= int_from_bytes_big data.
Proof. intros H. apply fold_bytes_nonneg; [lia | exact H]. Qed.

(** *** The digit loop *)

Lemma chars_at_alnum i : is_alnum (chars_at i) = true.
Proof.
  unfold chars_at. generalize (Z.to_nat i). intros n.
  assert (Hall : forallb is_alnum (list_ascii_of_string chars) = true)
    by (vm_compute; reflexivity).
  destruct (nth_in_or_default n (list_ascii_of_string chars) "0"%char) as [Hin | ->].
  - rewrite forallb_forall in Hall. apply Hall, Hin.
  - reflexivity.
Qed.

Lemma encode_loop_alnum fuel num result :
  Forall (fun c => is_alnum c = true) result ->
  Forall (fun c => is_alnum c = true) (encode_loop fuel num result).
Proof.
  revert num result. induction fuel as [|fuel IH]; intros num result Hres; simpl.
  - exact Hres.
  - destruct (0 <? num); [|exact Hres].
    apply IH, Forall_app. split; [exact Hres|].
    constructor; [apply chars_at_alnum | constructor].
Qed.

Lemma encode_loop_length fuel num result :
  (length result <= length (encode_loop fuel num result))%nat.
Proof.
  revert num result. induction fuel as [|fuel IH]; intros num result; simpl.
  - lia.
  - destruct (0 <? num); [|lia].
    specialize (IH (num / base) (result ++ [chars_at (num mod base)])).
    rewrite length_app in IH. simpl in IH. lia.
Qed.

(** The loop leaves through its guard: with [num < 2 ^ fuel] the digits
    do not depend on how much more fuel is supplied. *)
Lemma encode_loop_enough fuel extra num result :
  num < 2 ^ Z.of_nat fuel ->
  encode_loop (fuel + extra) num result = encode_loop fuel num result.
Proof.
  revert num result. induction fuel as [|fuel IH]; intros num result Hlt.
  - change (2 ^ Z.of_nat 0) with 1 in Hlt.
    destruct extra as [|extra]; simpl; [reflexivity|].
    destruct (Z.ltb_spec 0 num); [lia | reflexivity].
  - simpl. destruct (Z.ltb_spec 0 num) as [Hpos|]; [|reflexivity].
    apply IH. rewrite Nat2Z.inj_succ, Z.pow_succ_r in Hlt by lia.
    change base with 62.
    apply Z.div_lt_upper_bound; lia.
Qed.

Lemma encode_fuel_enough num : 0 < num -> num < 2 ^ Z.of_nat (encode_fuel num).
Proof.
  intros Hpos. unfold encode_fuel.
  rewrite Nat2Z.inj_succ, Z2Nat.id by apply Z.log2_nonneg.
  apply Z.log2_spec, Hpos.
Qed.

Lemma encode_loop_terminates num extra :
  0 < num ->
  encode_loop (encode_fuel num + extra) num [] = encode_loop (encode_fuel num) num [].
Proof. intros Hpos. apply encode_loop_enough, encode_fuel_enough, Hpos. Qed.

Lemma string_of_list_ascii_nonempty l : l <> [] -> string_of_list_ascii l <> "".
Proof. destruct l; [congruence | discriminate]. Qed.

Lemma bytes_to_guid_nonempty data :
  Forall (fun b => 0 <= b) data -> _bytes_to_guid data <> "".
Proof.
  intros Hdata. apply int_from_bytes_big_nonneg in Hdata.
  unfold _bytes_to_guid. destruct (Z.eqb_spec (int_from_bytes_big data) 0) as [|Hne].
  - discriminate.
  - apply string_of_list_ascii_nonempty. intros Hnil.
    apply (f_equal (@length ascii)) in Hnil. rewrite length_rev in Hnil.
    unfold encode_fuel in Hnil. simpl in Hnil.
    destruct (Z.ltb_spec 0 (int_from_bytes_big data)) as [Hpos|Hneg]; [|lia].
    pose proof (encode_loop_length (Z.to_nat (Z.log2 (int_from_bytes_big data)))
      (int_from_bytes_big data / base) [chars_at (int_from_bytes_big data mod base)]) as Hlen.
    simpl in Hlen, Hnil. lia.
Qed.

Lemma bytes_to_guid_alphanumeric data : alphanumeric (_bytes_to_guid data).
Proof.
  unfold alphanumeric, _bytes_to_guid.
  destruct (int_from_bytes_big data =? 0).
  - constructor; [apply chars_at_alnum | constructor].
  - rewrite list_ascii_of_string_of_list_ascii.
    apply Forall_rev, encode_loop_alnum. constructor.
Qed.

(** C7. For every namespace and item id, [note_guid] returns a non-empty
    string made only of the characters 0-9, A-Z and a-z; eight zero
    digest bytes give the one-character string "0", the first character
    of the alphabet, not the empty string. *)
Theorem note_guid_nonempty_alphanumeric :
  (forall model_namespace item_id : string,
      note_guid model_namespace item_id <> ""
      /\ alphanumeric (note_guid model_namespace item_id))
  /\ _bytes_to_guid [0; 0; 0; 0; 0; 0; 0; 0] = "0"
  /\ String.get 0 chars = Some "0"%char.
Proof.
  split; [|split; reflexivity].
  intros model_namespace item_id. unfold note_guid. split.
  - apply bytes_to_guid_nonempty, Forall_take, sha256_bytes_nonneg.
  - apply bytes_to_guid_alphanumeric.
Qed.

(** C1. [note_guid] is deterministic: the token is a function of the
    namespace and the item id alone, so two calls on equal arguments
    return equal tokens; and the two regression values hold. *)
Theorem note_guid_deterministic :
  (forall n1 s1 n2 s2 : string,
      n1 = n2 -> s1 = s2 -> note_guid n1 s1 = note_guid n2 s2)
  /\ (forall n s : string,
        note_guid n s
        = _bytes_to_guid
            (firstn 8 (sha256 (encode_utf8 ("phonics-anki:" +:+ n +:+ ":" +:+ s)))))
  /\ note_guid "sound" "sound_ae" = "CGeQgyusBST"
  /\ note_guid "pattern" "pattern_th_voiceless" = "EmnACxldShN".
Proof.
  split; [|split; [|split]].
  - intros n1 s1 n2 s2 -> ->. reflexivity.
  - intros n s. reflexivity.
  - vm_compute. reflexivity.
  - vm_compute. reflexivity.
Qed.

Lemma note_guid_deterministic_witness :
  "sound" = "sound" /\ "sound_ae" = "sound_ae"
  /\ note_guid "sound" "sound_ae" = note_guid "sound" "sound_ae".
Proof.
  split; [reflexivity | split; [reflexivity |]].
  apply (proj1 note_guid_deterministic "sound" "sound_ae" "sound" "sound_ae");
    reflexivity.
Defined.

(** *** Deck identifiers *)

Lemma hash_to_id_range namespace : 0 <= _hash_to_id namespace <= 2 ^ 63 - 1.
Proof.
  unfold _hash_to_id.
  set (x := int_from_bytes_big _).
  change 0x7FFFFFFFFFFFFFFF with (Z.ones 63).
  rewrite Z.land_ones by lia.
  pose proof (Z.mod_pos_bound x (2 ^ 63)). lia.
Qed.

Lemma deck_id_for_subdeck_eq subdeck_name :
  deck_id_for_subdeck subdeck_name = _hash_to_id ("phonics-anki:deck:" +:+ subdeck_name).
Proof. reflexivity. Qed.

Lemma deck_id_for_subdeck_range subdeck_name :
  0 <= deck_id_for_subdeck subdeck_name <= 2 ^ 63 - 1.
Proof. apply hash_to_id_range. Qed.

(** The ids of the seven production subdecks: positive and pairwise
    distinct. *)
Lemma production_deck_ids :
  map deck_id_for_subdeck production_deck_names
  = [ 6276336853314308029; 1058973553650621111; 4868054902620273821;
      1688392590741615969; 3048373379577648042; 585011610551849610;
      1091293465117040559 ].
Proof. vm_compute. reflexivity. Qed.

Lemma production_deck_ids_positive :
  Forall (fun name => 0 < deck_id_for_subdeck name) production_deck_names.
Proof. unfold production_deck_names. repeat constructor. Qed.

Lemma production_deck_ids_distinct :
  NoDup (map deck_id_for_subdeck production_deck_names).
Proof.
  rewrite production_deck_ids. apply (bool_decide_unpack _). vm_compute. exact I.
Qed.

Lemma production_deck_names_distinct_ids name1 name2 :
  name1 ∈ production_deck_names -> name2 ∈ production_deck_names ->
  name1 <> name2 -> deck_id_for_subdeck name1 <> deck_id_for_subdeck name2.
Proof.
  intros H1 H2 Hne Heq. apply Hne.
  apply list_elem_of_lookup in H1 as [i Hi]. apply list_elem_of_lookup in H2 as [j Hj].
  assert (i = j) as ->.
  { eapply NoDup_lookup; [apply production_deck_ids_distinct | |].
    - rewrite list_lookup_fmap, Hi. reflexivity.
    - rewrite list_lookup_fmap, Hj. simpl. congruence. }
  congruence.
Qed.

End IdsFacts.

(** ** The alphabet-order generator *)

Module AlphabetOrderFacts.
Import Py AlphabetOrder AlphabetOrderSpec.

Lemma insert_by_length {A} (key : A -> Z) x l :
  length (insert_by key x l) = S (length l).
Proof.
  induction l as [|y l IH]; simpl; [reflexivity|].
  destruct (key x <=? key y); simpl; [reflexivity | now rewrite IH].
Qed.

Lemma sorted_length {A} (key : A -> Z) xs : length (sorted key xs) = length xs.
Proof.
  induction xs as [|x xs IH]; simpl; [reflexivity|].
  now rewrite insert_by_length, IH.
Qed.

Lemma range_empty start stop : stop <= start -> range start stop = [].
Proof.
  intros Hle. unfold range. replace (Z.to_nat (stop - start)) with 0%nat by lia.
  reflexivity.
Qed.

Lemma range_lookup start stop k i : range start stop !! k = Some i -> i = start + Z.of_nat k.
Proof.
  unfold range. intros H. change (map ?f ?l) with (f <$> l) in H.
  rewrite list_lookup_fmap in H.
  destruct (seq 0 (Z.to_nat (stop - start)) !! k) as [n|] eqn:Hk; [|discriminate].
  apply lookup_seq in Hk as [-> _]. simpl in H. congruence.
Qed.

(** Every entry the loop yields is the one its body builds at the index
    it was yielded for. *)
Lemma loop_lookup sorted_letters window_size is_ k e :
  (loop sorted_letters window_size is_).1 !! k = Some e ->
  exists i answer_letter,
    is_ !! k = Some i
    /\ index sorted_letters i = Some answer_letter
    /\ e = entry_at sorted_letters window_size i answer_letter.
Proof.
  revert k. induction is_ as [|i rest IH]; intros k; simpl.
  - intros H. rewrite lookup_nil in H. discriminate.
  - destruct (index sorted_letters i) as [answer_letter|] eqn:Hidx.
    + destruct (loop sorted_letters window_size rest) as [entries finished].
      simpl in *. destruct k as [|k]; simpl.
      * intros [= <-]. eauto.
      * intros H. apply IH in H. exact H.
    + simpl. intros H. rewrite lookup_nil in H. discriminate.
Qed.

(** C4. Alphabet-order windowing: on A..Z with orders 1..26 and window
    size 4 the first entry has prompt "A  B  C  D  __", answer "E" and
    position 5, and exactly 22 entries are yielded; a letter list with at
    most [window_size] letters yields no entry. *)
Theorem alphabet_order_windowing :
  (exists first rest,
      generate_alphabet_order_items letters_A_Z 4 = (first :: rest, true)
      /\ prompt first = "A  B  C  D  __"
      /\ answer first = "E"
      /\ position first = 5
      /\ length (first :: rest) = 22%nat)
  /\ (forall (letters : list Letter) (window_size : Z),
        Z.of_nat (length letters) <= window_size ->
        generate_alphabet_order_items letters window_size = ([], true)).
Proof.
  split.
  - eexists _, _. split; [vm_compute; reflexivity|].
    repeat split.
  - intros letters window_size Hle. unfold generate_alphabet_order_items.
    rewrite range_empty; [reflexivity|].
    rewrite sorted_length. exact Hle.
Qed.

Lemma alphabet_order_windowing_witness :
  Z.of_nat (length (firstn 4 letters_A_Z)) <= 4
  /\ generate_alphabet_order_items (firstn 4 letters_A_Z) 4 = ([], true).
Proof.
  split; [simpl; lia|].
  apply (proj2 alphabet_order_windowing (firstn 4 letters_A_Z) 4). simpl. lia.
Defined.

(** C10. For every letter list and window size, every entry the generator
    yields has [id = "alphabet_order_" + str(position)], and its position
    is the declared [order] of the answer letter (the letter at the
    loop index [i] of the sorted list) when it has one, else [i + 1]. *)
Theorem entry_id_position (letters : list Letter) (window_size : Z)
    (k : nat) (e : AlphabetOrderEntry) :
  (generate_alphabet_order_items letters window_size).1 !! k = Some e ->
  id e = "alphabet_order_" +:+ str_int (position e)
  /\ exists answer_letter,
       index (sorted (fun x => default 0 (order x)) letters) (window_size + Z.of_nat k)
       = Some answer_letter
       /\ position e
          = match order answer_letter with
            | Some declared => declared
            | None => (window_size + Z.of_nat k) + 1
            end.
Proof.
  unfold generate_alphabet_order_items. intros H.
  apply loop_lookup in H as (i & answer_letter & Hi & Hidx & ->).
  apply range_lookup in Hi as ->.
  split; [reflexivity|].
  exists answer_letter. split; [exact Hidx|].
  simpl. destruct (order answer_letter); reflexivity.
Qed.

Lemma entry_id_position_witness :
  exists e,
    (generate_alphabet_order_items letters_A_Z 4).1 !! 1%nat = Some e
    /\ id e = "alphabet_order_" +:+ str_int (position e)
    /\ id e = "alphabet_order_6".
Proof.
  eexists. split; [vm_compute; reflexivity|].
  split; [|reflexivity].
  eapply (entry_id_position letters_A_Z 4 1). vm_compute. reflexivity.
Defined.

End AlphabetOrderFacts.

(** ** The curriculum validator *)

Module ValidatorFacts.
Import Py Curriculum ValidatorSpec.
Local Open Scope outcome_scope.

(** The validator accepts [null_meta_document]: a [null] value for
    [dialect] and [version] passes the presence test of
    [_validate_meta]. *)
Lemma null_meta_accepted :
  (exists d meta,
      null_meta_document = JObj d
      /\ dict_get "meta" d = Some (JObj meta)
      /\ dict_get "dialect" meta = Some JNull
      /\ dict_get "version" meta = Some JNull)
  /\ validate null_meta_document = inr tt.
Proof.
  split; [|reflexivity].
  eexists _, _. repeat split.
Qed.

Lemma require_fields_ok where_ fields d :
  require_fields where_ fields d = ok <-> Forall (fun f => dict_in f d = true) fields.
Proof.
  induction fields as [|f fields IH]; simpl.
  - split; [constructor | reflexivity].
  - destruct (dict_in f d) eqn:Hf.
    + rewrite IH. split; [intros H; constructor; assumption | intros H; inversion H; assumption].
    + split; [discriminate | intros H; inversion H; congruence].
Qed.

Lemma validate_meta_ok meta path :
  _validate_meta (JObj meta) path = ok
  <-> dict_in "dialect" meta = true /\ dict_in "version" meta = true.
Proof.
  unfold _validate_meta. rewrite require_fields_ok.
  split.
  - intros H. inversion H as [|? ? H1 H2]; subst. inversion H2; subst. tauto.
  - intros [H1 H2]. repeat constructor; assumption.
Qed.

(** C3 (amended). The validator requires the keys [dialect] and [version]
    of [meta] to be present, a [null] value counting as present: every
    input tree whose [meta] is an object lacking one of the two keys is
    rejected with an error. *)
Theorem validate_requires_meta_keys (d meta : list (string * json)) :
  dict_get "meta" d = Some (JObj meta) ->
  dict_in "dialect" meta = false \/ dict_in "version" meta = false ->
  exists e, validate (JObj d) = inl e.
Proof.
  intros Hmeta Hmissing. unfold validate. rewrite Hmeta.
  destruct (dict_get "alphabet" d) as [alphabet|]; [|eexists; reflexivity].
  destruct (dict_get "items" d) as [items|]; [|eexists; reflexivity].
  destruct (_validate_meta (JObj meta) "meta") as [e|[]] eqn:Hv.
  - exists e. reflexivity.
  - apply validate_meta_ok in Hv as [H1 H2]. destruct Hmissing; congruence.
Qed.

Lemma validate_requires_meta_keys_witness :
  exists e,
    validate (JObj [ ("meta", JObj [("dialect", JStr "General American")]);
                     ("alphabet", JObj [("letters", JArr [])]);
                     ("items", JArr []) ]) = inl e.
Proof.
  apply (validate_requires_meta_keys _ [("dialect", JStr "General American")]).
  - reflexivity.
  - right. reflexivity.
Defined.

(** *** Duplicate ids *)

Lemma append_assoc (a b c : string) : (a +:+ b) +:+ c = a +:+ (b +:+ c).
Proof.
  induction a as [|x a IH]; [reflexivity|].
  change (String x ((a +:+ b) +:+ c) = String x (a +:+ (b +:+ c))).
  f_equal. exact IH.
Qed.

Lemma validate_item_has_id item index path :
  _validate_item item index path = ok -> exists id, item_id item = Some id.
Proof.
  unfold _validate_item, item_id. intros H.
  destruct item as [| | | | |?|d]; try discriminate.
  destruct (dict_get "id" d) as [[| | | |s| |]|]; try discriminate.
  eauto.
Qed.

(** The loop reaches the first repeated id and raises there: [pre] holds
    the items before it, all valid, with ids that are pairwise distinct
    and new with respect to [seen_ids]. *)
Lemma validate_items_loop_duplicate path pre :
  forall (start : nat) (seen_ids : gset string) item id post,
    (forall k x, pre !! k = Some x -> _validate_item x (start + k) path = ok) ->
    (forall k x idk, pre !! k = Some x -> item_id x = Some idk ->
        (idk ∉ seen_ids)
        /\ forall k' x', (k' < k)%nat -> pre !! k' = Some x' -> item_id x' <> Some idk) ->
    _validate_item item (start + length pre) path = ok ->
    item_id item = Some id ->
    (id ∈ seen_ids \/ exists k x, pre !! k = Some x /\ item_id x = Some id) ->
    validate_items_loop (pre ++ item :: post) start path seen_ids
    = raise (indexed path (start + length pre) +:+ ": duplicate id '" +:+ id +:+ "'").
Proof.
  induction pre as [|x pre IH]; intros start seen_ids item id post Hvalid Hfresh Hitem Hid Hdup.
  - simpl in *. rewrite Nat.add_0_r in *. rewrite Hitem. simpl. rewrite Hid.
    destruct Hdup as [Hin | (k & y & Hk & _)]; [|rewrite lookup_nil in Hk; discriminate].
    rewrite bool_decide_eq_true_2 by exact Hin. reflexivity.
  - simpl. pose proof (Hvalid 0%nat x eq_refl) as Hx. rewrite Nat.add_0_r in Hx.
    rewrite Hx. simpl.
    destruct (validate_item_has_id _ _ _ Hx) as [idx Hidx]. rewrite Hidx.
    destruct (Hfresh 0%nat x idx eq_refl Hidx) as [Hnotin _].
    rewrite bool_decide_eq_false_2 by exact Hnotin.
    replace (start + S (length pre))%nat with (S start + length pre)%nat by lia.
    apply IH.
    + intros k y Hk. replace (S start + k)%nat with (start + S k)%nat by lia.
      apply Hvalid. exact Hk.
    + intros k y idk Hk Hidk.
      destruct (Hfresh (S k) y idk Hk Hidk) as [Hnot Hearlier]. split.
      * intros [Heq%elem_of_singleton | Hin]%elem_of_union; [|contradiction].
        subst idk. apply (Hearlier 0%nat x); [lia | reflexivity | exact Hidx].
      * intros k' y' Hlt Hk'. apply (Hearlier (S k') y'); [lia | exact Hk'].
    + replace (S start + length pre)%nat with (start + S (length pre))%nat by lia.
      exact Hitem.
    + exact Hid.
    + destruct Hdup as [Hin | (k & y & Hk & Hy)].
      * left. apply elem_of_union. right. exact Hin.
      * destruct k as [|k].
        -- simpl in Hk. injection Hk as <-. left. apply elem_of_union. left.
           apply elem_of_singleton. congruence.
        -- right. exists k, y. split; assumption.
Qed.

(** C5. In an items array with a repeated id, let [i] be the smallest
    index whose id already occurs at an earlier index.  If the items up
    to and including [i] are individually valid, validation raises the
    duplicate-id error, whose message names the index [i] and the id. *)
Theorem validate_items_first_duplicate
    (items : list json) (path : string) (i : nat) (item : json) (id : string) :
  items !! i = Some item ->
  item_id item = Some id ->
  (exists j other, (j < i)%nat /\ items !! j = Some other /\ item_id other = Some id) ->
  (forall i' j' a b, (j' < i')%nat -> (i' < i)%nat ->
      items !! i' = Some a -> items !! j' = Some b -> item_id a <> item_id b) ->
  (forall k x, (k <= i)%nat -> items !! k = Some x -> _validate_item x k path = ok) ->
  _validate_items (JArr items) path
  = inl (Error (path +:+ "[" +:+ str_nat i +:+ "]: duplicate id '" +:+ id +:+ "'")).
Proof.
  intros Hi Hid (j & other & Hj & Hother & Hoid) Hfirst Hvalid.
  pose proof (lookup_lt_Some _ _ _ Hi) as Hlen.
  unfold _validate_items.
  rewrite <- (take_drop_middle items i item Hi).
  assert (Hlt : length (take i items) = i) by (rewrite length_take; lia).
  rewrite (validate_items_loop_duplicate path (take i items) 0%nat ∅ item id).
  - rewrite Hlt. unfold raise, indexed. rewrite !append_assoc. reflexivity.
  - intros k x Hk. apply lookup_take_Some in Hk as [Hk Hki].
    apply Hvalid; [lia | exact Hk].
  - intros k x idk Hk Hidk. apply lookup_take_Some in Hk as [Hk Hki].
    split; [apply not_elem_of_empty|].
    intros k' x' Hlt' Hk' Heq. apply lookup_take_Some in Hk' as [Hk' _].
    apply (Hfirst k k' x x'); [lia | lia | exact Hk | exact Hk' | congruence].
  - rewrite Hlt. apply Hvalid; [lia | exact Hi].
  - exact Hid.
  - right. exists j, other. split; [|exact Hoid].
    apply lookup_take_Some. split; [exact Hother | exact Hj].
Qed.

Lemma validate_items_first_duplicate_witness :
  _validate_items
    (JArr [sound_item "sound_ae"; sound_item "sound_b"; sound_item "sound_ae";
           sound_item "sound_b"]) "items"
  = inl (Error "items[2]: duplicate id 'sound_ae'").
Proof.
  apply (validate_items_first_duplicate _ "items" 2 (sound_item "sound_ae") "sound_ae").
  - reflexivity.
  - reflexivity.
  - exists 0%nat, (sound_item "sound_ae"). split; [lia | split; reflexivity].
  - intros i' j' a b Hj Hi Ha Hb.
    destruct i' as [|[|i']]; [lia | | lia].
    destruct j' as [|j']; [|lia].
    simpl in Ha, Hb. injection Ha as <-. injection Hb as <-. discriminate.
  - intros k x Hk Hx.
    destruct k as [|[|[|k]]]; [| | |lia]; simpl in Hx; injection Hx as <-; reflexivity.
Defined.

End ValidatorFacts.

(** ** Documents in the store *)

Module StoreFacts.
Import Py StoreSpec.

(** Induction on documents, with the hypothesis available for every
    element of an array and every value of an object. *)
Lemma json_ind_nested (P : json -> Prop) :
  P JNull -> (forall b, P (JBool b)) -> (forall n, P (JInt n)) ->
  (forall f, P (JFloat f)) -> (forall s, P (JStr s)) ->
  (forall ts, Forall P ts -> P (JArr ts)) ->
  (forall kts, Forall (fun kt => P kt.2) kts -> P (JObj kts)) ->
  forall t, P t.
Proof.
  intros Hnull Hbool Hint Hfloat Hstr Harr Hobj.
  fix IH 1. intros [| b | n | f | s | ts | kts].
  - exact Hnull.
  - apply Hbool.
  - apply Hint.
  - apply Hfloat.
  - apply Hstr.
  - apply Harr. induction ts as [|t ts IHts]; constructor; [apply IH | exact IHts].
  - apply Hobj. induction kts as [|[k t] kts IHkts]; constructor; [apply IH | exact IHkts].
Qed.

(** *** Dict entries *)

Section DictFacts.
Context {V : Type}.
Implicit Types (d : list (string * V)) (k : string) (v : V).

Lemma dict_get_set_eq k v d : dict_get k (dict_set k v d) = Some v.
Proof.
  induction d as [|[k' v'] d IH]; simpl.
  - rewrite String.eqb_refl. reflexivity.
  - destruct (String.eqb k k') eqn:E; simpl; rewrite E; [reflexivity | exact IH].
Qed.

Lemma dict_get_set_ne k k' v d : k <> k' -> dict_get k' (dict_set k v d) = dict_get k' d.
Proof.
  intros Hne. induction d as [|[k2 v2] d IH]; simpl.
  - destruct (String.eqb_spec k' k); [congruence | reflexivity].
  - destruct (String.eqb_spec k k2) as [->|]; simpl.
    + destruct (String.eqb_spec k' k2); [congruence | reflexivity].
    + destruct (String.eqb k' k2); [reflexivity | exact IH].
Qed.

Lemma dict_set_same k v d : dict_get k d = Some v -> dict_set k v d = d.
Proof.
  induction d as [|[k' v'] d IH]; simpl; [discriminate|].
  destruct (String.eqb k k').
  - intros [= ->]. reflexivity.
  - intros H. rewrite IH by exact H. reflexivity.
Qed.

Lemma dict_in_set_eq k v d : dict_in k (dict_set k v d) = true.
Proof. unfold dict_in. rewrite dict_get_set_eq. reflexivity. Qed.

Lemma dict_in_set_ne k k' v d : k <> k' -> dict_in k' (dict_set k v d) = dict_in k' d.
Proof. intros H. unfold dict_in. rewrite dict_get_set_ne by exact H. reflexivity. Qed.
End DictFacts.

Lemma entries_rel_get {A B} (R : A -> B -> Prop) kas kbs k :
  entries_rel R kas kbs ->
  match dict_get k kas, dict_get k kbs with
  | Some a, Some b => R a b
  | None, None => True
  | _, _ => False
  end.
Proof.
  induction 1 as [|[k1 a] [k2 b] kas kbs [Hk Hab] _ IH]; simpl in *; [exact I|].
  subst k2. destruct (String.eqb k k1); [exact Hab | exact IH].
Qed.

Lemma entries_rel_set {A B} (R : A -> B -> Prop) kas kbs k a b :
  entries_rel R kas kbs -> R a b -> entries_rel R (dict_set k a kas) (dict_set k b kbs).
Proof.
  intros Hrel Hab.
  induction Hrel as [|[k1 a1] [k2 b1] kas kbs [Hk Hab1] Hrest IH]; simpl in *.
  - constructor; [split; [reflexivity | exact Hab] | constructor].
  - subst k2. destruct (String.eqb k k1).
    + constructor; [split; [reflexivity | exact Hab] | exact Hrest].
    + constructor; [split; [reflexivity | exact Hab1] | exact IH].
Qed.

Lemma entries_rel_impl {A B} (R R' : A -> B -> Prop) kas kbs :
  entries_rel R kas kbs -> (forall a b, R a b -> R' a b) -> entries_rel R' kas kbs.
Proof.
  intros Hrel Himpl. eapply Forall2_impl; [exact Hrel|].
  intros ka kb [Hk Hab]. split; [exact Hk | apply Himpl, Hab].
Qed.

(** *** Reading a document back *)

Lemma dump_entries_Some fuel h kvs kts :
  mapM (fun kv => pair kv.1 <$> dump fuel h kv.2) kvs = Some kts
  <-> entries_rel (fun v t => dump fuel h v = Some t) kvs kts.
Proof.
  rewrite mapM_Some. unfold entries_rel. split; intros H.
  - eapply Forall2_impl; [exact H|]. intros [k v] [k' t]; simpl.
    destruct (dump fuel h v); simpl; [|discriminate]. intros [= -> ->]. tauto.
  - eapply Forall2_impl; [exact H|]. intros [k v] [k' t]; simpl.
    intros [-> ->]. reflexivity.
Qed.

Lemma dump_mono fuel : forall fuel' h v t,
  (fuel <= fuel')%nat -> dump fuel h v = Some t -> dump fuel' h v = Some t.
Proof.
  induction fuel as [|fuel IH]; intros fuel' h v t Hle; [discriminate|].
  destruct fuel' as [|fuel']; [lia|].
  simpl. destruct v as [| | | | |a]; try (intros H; exact H).
  destruct (h !! a) as [[vs|kvs]|]; [| |discriminate].
  - destruct (mapM (dump fuel h) vs) as [ts|] eqn:Hts; [|discriminate].
    intros [= <-]. apply mapM_Some in Hts.
    assert (Hts' : mapM (dump fuel' h) vs = Some ts).
    { apply mapM_Some. eapply Forall2_impl; [exact Hts|].
      intros v t. apply IH. lia. }
    rewrite Hts'. reflexivity.
  - destruct (mapM _ kvs) as [kts|] eqn:Hkts; [|discriminate].
    intros [= <-]. apply dump_entries_Some in Hkts.
    assert (Hkts' : mapM (fun kv => pair kv.1 <$> dump fuel' h kv.2) kvs = Some kts).
    { apply dump_entries_Some. eapply entries_rel_impl; [exact Hkts|].
      intros v t. apply IH. lia. }
    rewrite Hkts'. reflexivity.
Qed.

Lemma represents_functional h v t t' : represents h v t -> represents h v t' -> t = t'.
Proof.
  intros [n Hn] [m Hm].
  apply (dump_mono n (n + m)) in Hn; [|lia].
  apply (dump_mono m (n + m)) in Hm; [|lia].
  congruence.
Qed.

(** A common amount of fuel for the elements of a list. *)
Lemma represents_Forall2 h vs ts :
  Forall2 (represents h) vs ts ->
  exists fuel, Forall2 (fun v t => dump fuel h v = Some t) vs ts.
Proof.
  induction 1 as [|v t vs ts [n Hn] _ [m Hm]].
  - exists 0%nat. constructor.
  - exists (n + m)%nat. constructor.
    + eapply dump_mono; [|exact Hn]. lia.
    + eapply Forall2_impl; [exact Hm|]. intros v' t'. apply dump_mono. lia.
Qed.

Lemma represents_entries h kvs kts :
  entries_rel (represents h) kvs kts ->
  exists fuel, entries_rel (fun v t => dump fuel h v = Some t) kvs kts.
Proof.
  induction 1 as [|[k v] [k' t] kvs kts [Hk [n Hn]] _ [m Hm]].
  - exists 0%nat. constructor.
  - exists (n + m)%nat. constructor.
    + split; [exact Hk|]. eapply dump_mono; [|exact Hn]. lia.
    + apply (entries_rel_impl (fun v t => dump m h v = Some t)
               (fun v t => dump (n + m) h v = Some t)); [exact Hm|].
      intros v' t'. apply dump_mono. lia.
Qed.

Lemma represents_list h a vs ts :
  h !! a = Some (PyList vs) -> Forall2 (represents h) vs ts ->
  represents h (VRef a) (JArr ts).
Proof.
  intros Ha [n Hn]%represents_Forall2. exists (S n). simpl. rewrite Ha.
  apply mapM_Some in Hn. rewrite Hn. reflexivity.
Qed.

Lemma represents_dict h a kvs kts :
  h !! a = Some (PyDict kvs) -> entries_rel (represents h) kvs kts ->
  represents h (VRef a) (JObj kts).
Proof.
  intros Ha [n Hn]%represents_entries. exists (S n). simpl. rewrite Ha.
  apply dump_entries_Some in Hn. rewrite Hn. reflexivity.
Qed.

Lemma represents_dict_inv h a kts :
  represents h (VRef a) (JObj kts) ->
  exists kvs, h !! a = Some (PyDict kvs) /\ entries_rel (represents h) kvs kts.
Proof.
  intros [[|n] Hn]; [discriminate|]. simpl in Hn.
  destruct (h !! a) as [[vs|kvs]|]; [| |discriminate].
  - destruct (mapM _ vs); discriminate.
  - destruct (mapM _ kvs) as [kts'|] eqn:Hk; [|discriminate].
    injection Hn as <-. apply dump_entries_Some in Hk.
    exists kvs. split; [reflexivity|].
    eapply entries_rel_impl; [exact Hk|]. intros v t Hv. exists n. exact Hv.
Qed.

Lemma represents_list_inv h a ts :
  represents h (VRef a) (JArr ts) ->
  exists vs, h !! a = Some (PyList vs) /\ Forall2 (represents h) vs ts.
Proof.
  intros [[|n] Hn]; [discriminate|]. simpl in Hn.
  destruct (h !! a) as [[vs|kvs]|]; [| |discriminate].
  - destruct (mapM _ vs) as [ts'|] eqn:Hv; [|discriminate].
    injection Hn as <-. apply mapM_Some in Hv.
    exists vs. split; [reflexivity|].
    eapply Forall2_impl; [exact Hv|]. intros v t Hd. exists n. exact Hd.
  - destruct (mapM _ kvs); discriminate.
Qed.

(** A value that stands for an array or an object is a reference. *)
Lemma represents_obj_ref h v kts : represents h v (JObj kts) -> exists a, v = VRef a.
Proof. intros [[|n] Hn]; [discriminate|]. destruct v; try discriminate. eauto. Qed.

Lemma represents_arr_ref h v ts : represents h v (JArr ts) -> exists a, v = VRef a.
Proof. intros [[|n] Hn]; [discriminate|]. destruct v; try discriminate. eauto. Qed.

(** Reading a document only looks at the objects it reaches: a store
    that keeps all allocated objects represents the same documents. *)
Lemma dump_ext fuel : forall h g v t,
  (forall a o, h !! a = Some o -> g !! a = Some o) ->
  dump fuel h v = Some t -> dump fuel g v = Some t.
Proof.
  induction fuel as [|fuel IH]; intros h g v t Hext; [discriminate|].
  cbn [dump]. destruct v as [| | | | |a]; try (intros H; exact H).
  destruct (h !! a) as [o|] eqn:Ha; [|discriminate].
  rewrite (Hext a o Ha). destruct o as [vs|kvs].
  - destruct (mapM (dump fuel h) vs) as [ts|] eqn:Hts; [|discriminate].
    intros [= <-]. apply mapM_Some in Hts.
    assert (Hts' : mapM (dump fuel g) vs = Some ts).
    { apply mapM_Some. eapply Forall2_impl; [exact Hts|].
      intros v t. apply IH, Hext. }
    rewrite Hts'. reflexivity.
  - destruct (mapM _ kvs) as [kts|] eqn:Hkts; [|discriminate].
    intros [= <-]. apply dump_entries_Some in Hkts.
    assert (Hkts' : mapM (fun kv => pair kv.1 <$> dump fuel g kv.2) kvs = Some kts).
    { apply dump_entries_Some. eapply entries_rel_impl; [exact Hkts|].
      intros v t. apply IH, Hext. }
    rewrite Hkts'. reflexivity.
Qed.

Lemma represents_app h news v t : represents h v t -> represents (h ++ news) v t.
Proof.
  intros [n Hn]. exists n. eapply dump_ext; [|exact Hn].
  intros a o Ha. apply lookup_app_l_Some, Ha.
Qed.

Lemma chain_le {A B} (P : nat -> nat -> A -> B -> Prop) lo hi xs ys :
  chain P lo hi xs ys -> (forall lo hi x y, P lo hi x y -> (lo <= hi)%nat) -> (lo <= hi)%nat.
Proof.
  intros Hc HP. induction Hc as [|lo mid hi x y xs ys Hle Hxy _ IH]; lia.
Qed.

(** Transport along a chain, for the elements of [ys] and within the
    bounds of the chain. *)
Lemma chain_impl {A B} (P Q : nat -> nat -> A -> B -> Prop) lo hi xs ys :
  chain P lo hi xs ys ->
  (forall lo hi x y, P lo hi x y -> (lo <= hi)%nat) ->
  (forall lo' hi' x y, y ∈ ys -> (lo <= lo')%nat -> (hi' <= hi)%nat ->
      P lo' hi' x y -> Q lo' hi' x y) ->
  chain Q lo hi xs ys.
Proof.
  intros Hc Hle. induction Hc as [|lo mid hi x y xs ys Hlm Hxy Hrest IH]; intros HPQ.
  - constructor.
  - pose proof (chain_le _ _ _ _ _ Hrest Hle) as Hmh.
    econstructor; [exact Hlm | |].
    + apply HPQ; [left | lia | lia | exact Hxy].
    + apply IH. intros lo' hi' x' y' Hin Hlo Hhi. apply HPQ; [right; exact Hin | lia | lia].
Qed.

Lemma chain_Forall2 {A B} (P : nat -> nat -> A -> B -> Prop) lo hi xs ys :
  chain P lo hi xs ys ->
  (forall lo hi x y, P lo hi x y -> (lo <= hi)%nat) ->
  Forall2 (fun x y => exists lo' hi', (lo <= lo')%nat /\ (hi' <= hi)%nat /\ P lo' hi' x y) xs ys.
Proof.
  intros Hc Hle. induction Hc as [|lo mid hi x y xs ys Hlm Hxy Hrest IH].
  - constructor.
  - pose proof (chain_le _ _ _ _ _ Hrest Hle) as Hmh.
    constructor.
    + exists lo, mid. split; [lia | split; [lia | exact Hxy]].
    + eapply Forall2_impl; [exact IH|].
      intros x' y' (lo' & hi' & Hlo & Hhi & Hp). exists lo', hi'.
      split; [lia | split; [lia | exact Hp]].
Qed.

(** A chain over [xs1 ++ x :: xs2] splits at [x]. *)
Lemma chain_app_inv {A B} (P : nat -> nat -> A -> B -> Prop) lo hi xs1 x xs2 ys :
  chain P lo hi (xs1 ++ x :: xs2) ys ->
  (forall lo hi x y, P lo hi x y -> (lo <= hi)%nat) ->
  exists ys1 y ys2 mid1 mid2,
    ys = ys1 ++ y :: ys2
    /\ chain P lo mid1 xs1 ys1 /\ P mid1 mid2 x y /\ chain P mid2 hi xs2 ys2
    /\ (lo <= mid1)%nat /\ (mid2 <= hi)%nat.
Proof.
  intros Hc Hle. revert lo ys Hc. induction xs1 as [|x1 xs1 IH]; intros lo ys Hc.
  - simpl in Hc. inversion Hc as [|? mid ? ? y ? ys' Hlm Hxy Hrest]; subst.
    exists [], y, ys', lo, mid. split; [reflexivity|].
    split; [constructor|]. split; [exact Hxy|]. split; [exact Hrest|].
    split; [lia|]. apply (chain_le _ _ _ _ _ Hrest Hle).
  - simpl in Hc. inversion Hc as [|? mid ? ? y1 ? ys' Hlm Hxy Hrest]; subst.
    destruct (IH _ _ Hrest) as (ys1 & y & ys2 & mid1 & mid2 & -> & H1 & Hx & H2 & Hl & Hh).
    exists (y1 :: ys1), y, ys2, mid1, mid2. split; [reflexivity|].
    split; [econstructor; eassumption|]. split; [exact Hx|]. split; [exact H2|].
    split; lia.
Qed.

Lemma loaded_le h lo hi v t : loaded h lo hi v t -> (lo <= hi)%nat.
Proof.
  intros H. inversion H as [| | | | |? a vs ts Hc _|? a kvs kts Hc _]; subst; try lia.
  - enough (lo <= a)%nat by lia. clear H.
    induction Hc as [|lo mid hi x y xs ys Hlm Hxy Hrest IH]; lia.
  - enough (lo <= a)%nat by lia. clear H.
    induction Hc as [|lo mid hi x y xs ys Hlm Hxy Hrest IH]; lia.
Qed.

Lemma loaded_entry_le h lo hi (kv : string * pyval) (kt : string * json) :
  kv.1 = kt.1 /\ loaded h lo hi kv.2 kt.2 -> (lo <= hi)%nat.
Proof. intros [_ H]. eapply loaded_le, H. Qed.

(** The layout only depends on the objects in its range. *)
Lemma loaded_agree t : forall h g lo hi v,
  loaded h lo hi v t ->
  (forall a, (lo <= a < hi)%nat -> g !! a = h !! a) ->
  loaded g lo hi v t.
Proof.
  induction t as [| | | | |ts IH|kts IH] using json_ind_nested;
    intros h g lo hi v Hl Hag; inversion Hl as [| | | | |? a vs ? Hc Ha|? a kvs ? Hc Ha];
    subst; try econstructor.
  - eapply chain_impl; [exact Hc | apply loaded_le |].
    intros lo' hi' x y Hin Hlo Hhi Hxy. rewrite Forall_forall in IH.
    eapply IH; [exact Hin | exact Hxy |]. intros b Hb. apply Hag. lia.
  - pose proof (chain_le _ _ _ _ _ Hc (loaded_le h)).
    rewrite Hag by lia. exact Ha.
  - eapply chain_impl; [exact Hc | apply loaded_entry_le |].
    intros lo' hi' x y Hin Hlo Hhi [Hk Hxy]. split; [exact Hk|].
    rewrite Forall_forall in IH.
    eapply IH; [exact Hin | exact Hxy |]. intros b Hb. apply Hag. lia.
  - pose proof (chain_le _ _ _ _ _ Hc (loaded_entry_le h)).
    rewrite Hag by lia. exact Ha.
Qed.

Lemma loaded_represents t : forall h lo hi v, loaded h lo hi v t -> represents h v t.
Proof.
  induction t as [| | | | |ts IH|kts IH] using json_ind_nested;
    intros h lo hi v Hl; inversion Hl as [| | | | |? a vs ? Hc Ha|? a kvs ? Hc Ha];
    subst; try (exists 1%nat; reflexivity).
  - apply (represents_list _ _ vs); [exact Ha|].
    apply chain_Forall2 in Hc; [|apply loaded_le].
    rewrite Forall_forall in IH.
    apply Forall2_same_length_lookup. split; [eapply Forall2_length, Hc|].
    intros i x y Hx Hy. destruct (Forall2_lookup_lr _ _ _ _ _ _ Hc Hx Hy) as (lo' & hi' & _ & _ & Hxy).
    eapply IH; [eapply list_elem_of_lookup_2, Hy | exact Hxy].
  - apply (represents_dict _ _ kvs); [exact Ha|].
    apply chain_Forall2 in Hc; [|apply loaded_entry_le].
    rewrite Forall_forall in IH.
    apply Forall2_same_length_lookup. split; [eapply Forall2_length, Hc|].
    intros i x y Hx Hy.
    destruct (Forall2_lookup_lr _ _ _ _ _ _ Hc Hx Hy) as (lo' & hi' & _ & _ & Hk & Hxy).
    split; [exact Hk|].
    eapply IH; [eapply list_elem_of_lookup_2, Hy | exact Hxy].
Qed.

Lemma load_arr ts h :
  load (JArr ts) h
  = let '(vs, h') := load_elems ts h in (VRef (length h'), h' ++ [PyList vs]).
Proof. reflexivity. Qed.

Lemma load_obj kts h :
  load (JObj kts) h
  = let '(kvs, h') := load_entries kts h in (VRef (length h'), h' ++ [PyDict kvs]).
Proof. reflexivity. Qed.

Lemma loaded_app h news lo hi v t :
  loaded h lo hi v t -> (hi <= length h)%nat -> loaded (h ++ news) lo hi v t.
Proof.
  intros Hl Hhi. eapply loaded_agree; [exact Hl|].
  intros a Ha. apply lookup_app_l. lia.
Qed.

(** [json.load] extends the store with the objects of the document, laid
    out as [loaded] describes. *)
Lemma load_loaded t : forall h0 v h,
  load t h0 = (v, h) ->
  exists news, h = h0 ++ news /\ loaded h (length h0) (length h) v t.
Proof.
  induction t as [| | | | |ts IH|kts IH] using json_ind_nested; intros h0 v h;
    try (intros [= <- <-]; exists []; rewrite app_nil_r; split; [reflexivity | constructor]).
  - rewrite load_arr. destruct (load_elems ts h0) as [vs h2] eqn:Hload. intros [= <- <-].
    assert (Hc : exists news, h2 = h0 ++ news
                              /\ chain (loaded h2) (length h0) (length h2) vs ts).
    { clear -IH Hload. revert h0 vs h2 Hload.
      induction IH as [|t ts Ht _ IHts]; intros h0 vs h2; simpl.
      - intros [= <- <-]. exists []. rewrite app_nil_r. split; [reflexivity | constructor].
      - destruct (load t h0) as [v h1] eqn:Hv.
        destruct (load_elems ts h1) as [vs' h2'] eqn:Hvs. intros [= <- <-].
        destruct (Ht _ _ _ Hv) as (n1 & -> & Hl1).
        destruct (IHts _ _ _ Hvs) as (n2 & -> & Hc2).
        exists (n1 ++ n2). split; [apply eq_sym, app_assoc|].
        econstructor; [| |exact Hc2].
        + rewrite length_app. lia.
        + apply loaded_app; [exact Hl1 | lia]. }
    destruct Hc as (news & -> & Hc).
    exists (news ++ [PyList vs]). split; [apply eq_sym, app_assoc|].
    replace (length ((h0 ++ news) ++ [PyList vs])) with (S (length (h0 ++ news)))
      by (rewrite (length_app (h0 ++ news)); simpl; lia).
    econstructor.
    + eapply chain_impl; [exact Hc | apply loaded_le |].
      intros lo' hi' x y _ _ Hhi Hxy. apply loaded_app; [exact Hxy | exact Hhi].
    + apply list_lookup_middle. reflexivity.
  - rewrite load_obj. destruct (load_entries kts h0) as [kvs h2] eqn:Hload. intros [= <- <-].
    assert (Hc : exists news, h2 = h0 ++ news
               /\ chain (fun lo hi kv kt => kv.1 = kt.1 /\ loaded h2 lo hi kv.2 kt.2)
                    (length h0) (length h2) kvs kts).
    { clear -IH Hload. revert h0 kvs h2 Hload.
      induction IH as [|[k t] kts Ht _ IHkts]; intros h0 kvs h2; simpl.
      - intros [= <- <-]. exists []. rewrite app_nil_r. split; [reflexivity | constructor].
      - destruct (load t h0) as [v h1] eqn:Hv.
        destruct (load_entries kts h1) as [kvs' h2'] eqn:Hvs. intros [= <- <-].
        destruct (Ht _ _ _ Hv) as (n1 & -> & Hl1).
        destruct (IHkts _ _ _ Hvs) as (n2 & -> & Hc2).
        exists (n1 ++ n2). split; [apply eq_sym, app_assoc|].
        econstructor; [| |exact Hc2].
        + rewrite length_app. lia.
        + split; [reflexivity|]. apply loaded_app; [exact Hl1 | lia]. }
    destruct Hc as (news & -> & Hc).
    exists (news ++ [PyDict kvs]). split; [apply eq_sym, app_assoc|].
    replace (length ((h0 ++ news) ++ [PyDict kvs])) with (S (length (h0 ++ news)))
      by (rewrite (length_app (h0 ++ news)); simpl; lia).
    econstructor.
    + eapply chain_impl; [exact Hc | apply loaded_entry_le |].
      intros lo' hi' x y _ _ Hhi [Hk Hxy]. split; [exact Hk|].
      apply loaded_app; [exact Hxy | exact Hhi].
    + apply list_lookup_middle. reflexivity.
Qed.

Lemma load_represents t h0 v h : load t h0 = (v, h) -> represents h v t.
Proof.
  intros Hload. destruct (load_loaded _ _ _ _ Hload) as (news & _ & Hl).
  eapply loaded_represents, Hl.
Qed.

End StoreFacts.

(** ** The curriculum normaliser *)

Module NormalizerFacts.
Import Py Curriculum ValidatorSpec StoreSpec NormalizerSpec StoreFacts.

(** *** Steps of a computation *)

Lemma bind_Some {A B} (m : M A) (k : A -> M B) h x h' :
  m h = Some (x, h') -> bind m k h = k x h'.
Proof. unfold bind. intros ->. reflexivity. Qed.

Lemma entries_of_ref (h : heap) a es :
  h !! a = Some (PyDict es) -> entries_of (VRef a) h = Some (es, h).
Proof. unfold entries_of. intros ->. reflexivity. Qed.

Lemma elems_of_ref (h : heap) a vs :
  h !! a = Some (PyList vs) -> elems_of (VRef a) h = Some (vs, h).
Proof. unfold elems_of. intros ->. reflexivity. Qed.

Lemma setitem_ref (h : heap) a es k v :
  h !! a = Some (PyDict es) ->
  setitem (VRef a) k v h = Some (tt, <[a := PyDict (dict_set k v es)]> h).
Proof. unfold setitem. intros ->. reflexivity. Qed.

Lemma insert_fresh (h : heap) o o' rest :
  <[length h := o']> (h ++ o :: rest) = h ++ o' :: rest.
Proof.
  rewrite insert_app_r_alt by lia. rewrite Nat.sub_diag. reflexivity.
Qed.

Lemma lookup_fresh (h : heap) o rest : (h ++ o :: rest) !! length h = Some o.
Proof. apply list_lookup_middle. reflexivity. Qed.

(** *** Scalars in the store *)

Lemma represents_str h s : represents h (VStr s) (JStr s).
Proof. exists 1%nat. reflexivity. Qed.

Lemma represents_str_inv h s t : represents h (VStr s) t -> t = JStr s.
Proof. intros [[|n] Hn]; [discriminate|]. simpl in Hn. congruence. Qed.

Lemma represents_is_str h v s : represents h v (JStr s) -> v = VStr s.
Proof.
  intros [[|n] Hn]; [discriminate|]. cbn [dump] in Hn.
  destruct v as [| | | | |a]; try congruence.
  destruct (h !! a) as [[vs|kvs]|]; [| |discriminate].
  - destruct (mapM _ vs); discriminate.
  - destruct (mapM _ kvs); discriminate.
Qed.

Lemma entries_rel_in {A B} (R : A -> B -> Prop) kas kbs k :
  entries_rel R kas kbs -> dict_in k kas = dict_in k kbs.
Proof.
  intros H. apply (entries_rel_get R _ _ k) in H. unfold dict_in.
  destruct (dict_get k kas), (dict_get k kbs); tauto.
Qed.

(** *** [_normalize_item] *)

Ltac step H := rewrite (bind_Some _ _ _ _ _ H).

(** The [graphemes] statement of [_normalize_item], run on the fresh copy
    at address [length h]. *)
Lemma normalize_item_graphemes (h : heap) es :
  exists es1 extra,
    match dict_get "graphemes" es with
    | Some (VStr g) =>
        let* l := new (PyList [VStr g]) in setitem (VRef (length h)) "graphemes" l
    | None => let* l := new (PyList []) in setitem (VRef (length h)) "graphemes" l
    | _ => ret ()
    end (h ++ [PyDict es]) = Some (tt, h ++ PyDict es1 :: extra)
    /\ forall (g : heap) kts,
         (forall i o, extra !! i = Some o -> g !! (length h + S i)%nat = Some o) ->
         entries_rel (represents g) es kts ->
         entries_rel (represents g) es1 (graphemes_defaulted kts).
Proof.
  assert (Hnew : forall l, exists es1 extra,
    (let* l := new (PyList l) in setitem (VRef (length h)) "graphemes" l)
      (h ++ [PyDict es])
    = Some (tt, h ++ PyDict es1 :: extra)
    /\ forall (g : heap) kts t,
         (forall i o, extra !! i = Some o -> g !! (length h + S i)%nat = Some o) ->
         entries_rel (represents g) es kts ->
         Forall2 (represents g) l t ->
         entries_rel (represents g) es1 (dict_set "graphemes" (JArr t) kts)).
  { intros l. exists (dict_set "graphemes" (VRef (S (length h))) es), [PyList l]. split.
    - unfold new. erewrite bind_Some; [|reflexivity].
      rewrite <- app_assoc. change ([PyDict es] ++ [PyList l]) with [PyDict es; PyList l].
      rewrite (setitem_ref _ _ es) by apply lookup_fresh.
      rewrite insert_fresh. rewrite length_app. cbn [length].
      replace (length h + 1)%nat with (S (length h)) by lia. reflexivity.
    - intros g kts t Hg Hes Hl. apply entries_rel_set; [exact Hes|].
      apply (represents_list _ _ l); [|exact Hl].
      specialize (Hg 0%nat (PyList l) eq_refl).
      replace (length h + 1)%nat with (S (length h)) in Hg by lia. exact Hg. }
  unfold graphemes_defaulted.
  destruct (dict_get "graphemes" es) as [v|] eqn:Hget.
  - assert (Hother : (forall s, v <> VStr s) ->
      exists es1 extra,
        ret tt (h ++ [PyDict es]) = Some (tt, h ++ PyDict es1 :: extra)
        /\ forall (g : heap) kts,
             (forall i o, extra !! i = Some o -> g !! (length h + S i)%nat = Some o) ->
             entries_rel (represents g) es kts ->
             entries_rel (represents g) es1
               match dict_get "graphemes" kts with
               | Some (JStr g0) => dict_set "graphemes" (JArr [JStr g0]) kts
               | Some _ => kts
               | None => dict_set "graphemes" (JArr []) kts
               end).
    { intros Hv. exists es, []. split; [reflexivity|].
      intros g kts _ Hes. pose proof (entries_rel_get _ _ _ "graphemes" Hes) as Hrel.
      rewrite Hget in Hrel. destruct (dict_get "graphemes" kts) as [t|]; [|contradiction].
      destruct t; try exact Hes.
      apply represents_is_str in Hrel. exfalso. eapply Hv, Hrel. }
    destruct v as [| | | |s|]; try (apply Hother; discriminate).
    destruct (Hnew [VStr s]) as (es1 & extra & Hrun & Hpost).
    exists es1, extra. split; [exact Hrun|].
    intros g kts Hg Hes. pose proof (entries_rel_get _ _ _ "graphemes" Hes) as Hrel.
    rewrite Hget in Hrel. destruct (dict_get "graphemes" kts) as [t|]; [|contradiction].
    apply represents_str_inv in Hrel as ->.
    apply Hpost; [exact Hg | exact Hes|].
    constructor; [apply represents_str | constructor].
  - destruct (Hnew []) as (es1 & extra & Hrun & Hpost).
    exists es1, extra. split; [exact Hrun|].
    intros g kts Hg Hes. pose proof (entries_rel_get _ _ _ "graphemes" Hes) as Hrel.
    rewrite Hget in Hrel. destruct (dict_get "graphemes" kts) as [t|]; [contradiction|].
    apply Hpost; [exact Hg | exact Hes | constructor].
Qed.

Lemma normalize_item_spec (h : heap) a es :
  h !! a = Some (PyDict es) ->
  exists news,
    _normalize_item (VRef a) h = Some (VRef (length h), h ++ news)
    /\ forall (g : heap) kts,
         (forall i o, news !! i = Some o -> g !! (length h + i)%nat = Some o) ->
         entries_rel (represents g) es kts ->
         represents g (VRef (length h)) (normalized_item (JObj kts)).
Proof.
  intros Ha. unfold _normalize_item, dict_copy.
  rewrite (bind_Some _ _ h (VRef (length h)) (h ++ [PyDict es]));
    [|step (entries_of_ref _ _ _ Ha); reflexivity].
  step (entries_of_ref _ _ _ (lookup_fresh h (PyDict es) [])).
  destruct (normalize_item_graphemes h es) as (es1 & extra & Hrun & Hpost).
  step Hrun.
  step (entries_of_ref _ _ _ (lookup_fresh h (PyDict es1) extra)).
  change (normalized_item ?x) with (normalized_item x). cbn [normalized_item].
  fold graphemes_defaulted.
  destruct (dict_in "notes" es1) eqn:Hnotes.
  - exists (PyDict es1 :: extra). split; [reflexivity|].
    intros g kts Hg Hes.
    assert (Hes1 : entries_rel (represents g) es1 (graphemes_defaulted kts)).
    { apply Hpost; [|exact Hes]. intros i o Hi.
      apply (Hg (S i)). exact Hi. }
    fold (graphemes_defaulted kts).
    rewrite <- (entries_rel_in _ _ _ "notes" Hes1), Hnotes.
    apply (represents_dict _ _ es1); [|exact Hes1].
    specialize (Hg 0%nat _ eq_refl). rewrite Nat.add_0_r in Hg. exact Hg.
  - exists (PyDict (dict_set "notes" (VStr "") es1) :: extra). split.
    + step (setitem_ref _ _ _ "notes" (VStr "") (lookup_fresh h (PyDict es1) extra)).
      rewrite insert_fresh. reflexivity.
    + intros g kts Hg Hes.
      assert (Hes1 : entries_rel (represents g) es1 (graphemes_defaulted kts)).
      { apply Hpost; [|exact Hes]. intros i o Hi.
        apply (Hg (S i)). exact Hi. }
      fold (graphemes_defaulted kts).
      rewrite <- (entries_rel_in _ _ _ "notes" Hes1), Hnotes.
      apply (represents_dict _ _ (dict_set "notes" (VStr "") es1)).
      * specialize (Hg 0%nat _ eq_refl). rewrite Nat.add_0_r in Hg. exact Hg.
      * apply entries_rel_set; [exact Hes1 | apply represents_str].
Qed.

(** *** The list comprehension *)

Lemma for_each_normalize_spec items : forall (h : heap),
  Forall (dict_ref h) items ->
  exists vs news,
    for_each _normalize_item items h = Some (vs, h ++ news)
    /\ forall (g : heap) ts,
         (forall i o, news !! i = Some o -> g !! (length h + i)%nat = Some o) ->
         Forall2 (item_in h g) items ts ->
         Forall2 (represents g) vs (map normalized_item ts).
Proof.
  induction items as [|v items IH]; intros h Hitems.
  - exists [], []. split; [simpl; unfold ret; rewrite app_nil_r; reflexivity|].
    intros g ts _ Hts. inversion Hts; subst. constructor.
  - inversion Hitems as [|? ? (a & es & -> & Ha) Hrest]; subst.
    destruct (normalize_item_spec h a es Ha) as (news1 & Hrun1 & Hpost1).
    destruct (IH (h ++ news1)) as (vs & news2 & Hrun2 & Hpost2).
    { eapply Forall_impl; [exact Hrest|].
      intros v (a' & es' & -> & Ha'). exists a', es'. split; [reflexivity|].
      apply lookup_app_l_Some, Ha'. }
    exists (VRef (length h) :: vs), (news1 ++ news2). split.
    + cbn [for_each]. step Hrun1. step Hrun2. unfold ret. rewrite app_assoc. reflexivity.
    + intros g ts Hg Hts.
      inversion Hts as [|? t ? ts' (a' & es' & kts & Hv & Ha' & -> & Hes) Hts']; subst.
      injection Hv as <-. rewrite Ha in Ha'. injection Ha' as <-.
      cbn [map]. constructor.
      * apply Hpost1; [|exact Hes]. intros i o Hi. apply Hg, lookup_app_l_Some, Hi.
      * apply Hpost2.
        -- intros i o Hi. rewrite length_app, <- Nat.add_assoc. apply Hg.
           rewrite lookup_app_r by lia.
           replace (length news1 + i - length news1)%nat with i by lia. exact Hi.
        -- eapply Forall2_impl; [exact Hts'|].
           intros v t (a' & es' & kts' & -> & Ha' & -> & Hes').
           exists a', es', kts'. split; [reflexivity|].
           split; [apply lookup_app_l_Some, Ha'|]. split; [reflexivity | exact Hes'].
Qed.

(** *** [_normalize_curriculum], step by step

    [data] refers to a dict with an [items] list of dicts and an
    [alphabet] dict.  The new objects are appended to the store; the one
    object of the input that may change is the [alphabet] dict. *)
Lemma normalize_curriculum_run (h : heap) r es ai items aa aes :
  h !! r = Some (PyDict es) ->
  dict_get "items" es = Some (VRef ai) ->
  h !! ai = Some (PyList items) ->
  Forall (dict_ref h) items ->
  dict_get "alphabet" es = Some (VRef aa) ->
  h !! aa = Some (PyDict aes) ->
  exists vs news,
    let tail :=
      PyDict (dict_set "items" (VRef (S (length h + length news))) es)
      :: news ++ [PyList vs] in
    _normalize_curriculum (VRef r) h
    = Some (VRef (length h),
            if dict_in "confusables" aes then h ++ tail
            else <[aa := PyDict (dict_set "confusables"
                                   (VRef (length h + length tail)) aes)]> h
                 ++ tail ++ [PyList []])
    /\ forall (g : heap) ts,
         (forall i o, news !! i = Some o -> g !! (S (length h) + i)%nat = Some o) ->
         Forall2 (item_in h g) items ts ->
         Forall2 (represents g) vs (map normalized_item ts).
Proof.
  intros Hr Hitems Hai Hdicts Halpha Haa.
  pose proof (lookup_lt_Some _ _ _ Haa) as Hlt.
  destruct (for_each_normalize_spec items (h ++ [PyDict es])) as (vs & news & Hrun & Hpost).
  { eapply Forall_impl; [exact Hdicts|].
    intros v (a' & es' & -> & Ha'). exists a', es'. split; [reflexivity|].
    apply lookup_app_l_Some, Ha'. }
  exists vs, news. cbn zeta. split.
  - unfold _normalize_curriculum, dict_copy.
    rewrite (bind_Some _ _ h (VRef (length h)) (h ++ [PyDict es]));
      [|step (entries_of_ref _ _ _ Hr); reflexivity].
    step (entries_of_ref _ _ es (lookup_app_l_Some _ [PyDict es] _ _ Hr)).
    rewrite Hitems.
    step (elems_of_ref _ _ items (lookup_app_l_Some _ [PyDict es] _ _ Hai)).
    step Hrun.
    unfold new at 1. erewrite bind_Some; [|reflexivity].
    rewrite <- !app_assoc. cbn [app].
    step (setitem_ref _ _ es "items"
            (VRef (length (h ++ PyDict es :: news)))
            (lookup_fresh h (PyDict es) (news ++ [PyList vs]))).
    rewrite insert_fresh.
    rewrite length_app. cbn [length]. rewrite Nat.add_succ_r.
    step (entries_of_ref _ _ _
            (lookup_fresh h (PyDict (dict_set "items" (VRef (S (length h + length news))) es))
               (news ++ [PyList vs]))).
    rewrite dict_get_set_ne by discriminate. rewrite Halpha.
    destruct (dict_in "confusables" aes) eqn:Hconf.
    + erewrite bind_Some; [reflexivity|].
      erewrite bind_Some; [|apply entries_of_ref, lookup_app_l_Some, Haa].
      rewrite Hconf. reflexivity.
    + erewrite bind_Some; [reflexivity|].
      erewrite bind_Some; [|apply entries_of_ref, lookup_app_l_Some, Haa].
      rewrite Hconf. unfold new at 1. erewrite bind_Some; [|reflexivity].
      erewrite setitem_ref; [|apply lookup_app_l_Some, lookup_app_l_Some, Haa].
      rewrite <- app_assoc.
      rewrite insert_app_l by exact Hlt.
      rewrite (length_app h). reflexivity.
  - intros g ts Hg Hts. apply Hpost.
    + intros i o Hi. rewrite length_app. cbn [length].
      replace (length h + 1 + i)%nat with (S (length h) + i)%nat by lia.
      apply Hg, Hi.
    + eapply Forall2_impl; [exact Hts|].
      intros v t (a' & es' & kts' & -> & Ha' & -> & Hes').
      exists a', es', kts'. split; [reflexivity|].
      split; [apply lookup_app_l_Some, Ha'|]. split; [reflexivity | exact Hes'].
Qed.

(** *** Assembling the result *)

Lemma normalized_assembly (h g : heap) es kts its vs l :
  g !! length h = Some (PyDict (dict_set "items" (VRef l) es)) ->
  g !! l = Some (PyList vs) ->
  Forall2 (represents g) vs (map normalized_item its) ->
  entries_rel (represents g) es kts ->
  represents g (VRef (length h))
    (JObj (dict_set "items" (JArr (map normalized_item its)) kts)).
Proof.
  intros Hn Hl Hvs Hes. eapply represents_dict; [exact Hn|].
  apply entries_rel_set; [exact Hes|].
  eapply represents_list; [exact Hl | exact Hvs].
Qed.

Lemma tail_lookup (h : heap) o news o' :
  (h ++ o :: news ++ [o']) !! S (length h + length news) = Some o'.
Proof.
  rewrite lookup_app_r by lia.
  replace (S (length h + length news) - length h)%nat with (S (length news)) by lia.
  cbn [lookup list_lookup]. apply list_lookup_middle. reflexivity.
Qed.

Lemma tail_news_lookup (h : heap) o news rest i x :
  news !! i = Some x -> (h ++ o :: news ++ rest) !! (S (length h) + i)%nat = Some x.
Proof.
  intros Hi. rewrite lookup_app_r by lia.
  replace (S (length h) + i - length h)%nat with (S i) by lia.
  cbn [lookup list_lookup]. apply lookup_app_l_Some, Hi.
Qed.

Lemma framed_represents h g x v t : framed h x v t -> keeps_but x h g -> represents g v t.
Proof.
  intros (lo & hi & Hl & Hhi & Hx) Hkeep.
  eapply loaded_represents, loaded_agree; [exact Hl|].
  intros a Ha. destruct (lookup_lt_is_Some_2 h a) as [o Ho]; [lia|].
  rewrite Ho. apply Hkeep; [lia | exact Ho].
Qed.

Lemma chain_entries_framed h x lo hi es kts :
  chain (fun lo hi kv kt => kv.1 = kt.1 /\ loaded h lo hi kv.2 kt.2) lo hi es kts ->
  (hi <= length h)%nat -> ~ (lo <= x < hi)%nat ->
  entries_rel (framed h x) es kts.
Proof.
  intros Hc Hhi Hx. apply chain_Forall2 in Hc; [|apply loaded_entry_le].
  eapply Forall2_impl; [exact Hc|].
  intros kv kt (lo' & hi' & Hlo & Hhi' & Hk & Hl). split; [exact Hk|].
  exists lo', hi'. split; [exact Hl|]. pose proof (loaded_le _ _ _ _ _ Hl). lia.
Qed.

Lemma chain_elems_framed h x lo hi vs ts :
  chain (loaded h) lo hi vs ts ->
  (hi <= length h)%nat -> ~ (lo <= x < hi)%nat ->
  Forall2 (framed h x) vs ts.
Proof.
  intros Hc Hhi Hx. apply chain_Forall2 in Hc; [|apply loaded_le].
  eapply Forall2_impl; [exact Hc|].
  intros v t (lo' & hi' & Hlo & Hhi' & Hl).
  exists lo', hi'. split; [exact Hl|]. pose proof (loaded_le _ _ _ _ _ Hl). lia.
Qed.

Lemma framed_obj h x v kts :
  framed h x v (JObj kts) ->
  exists a es, v = VRef a /\ h !! a = Some (PyDict es) /\ entries_rel (framed h x) es kts.
Proof.
  intros (lo & hi & Hl & Hhi & Hx). inversion Hl as [| | | | | |? a es ? Hc Ha]; subst.
  exists a, es. split; [reflexivity|]. split; [exact Ha|].
  pose proof (chain_le _ _ _ _ _ Hc (loaded_entry_le h)).
  apply (chain_entries_framed _ _ lo a); [exact Hc | lia | lia].
Qed.

Lemma framed_arr h x v ts :
  framed h x v (JArr ts) ->
  exists a vs, v = VRef a /\ h !! a = Some (PyList vs) /\ Forall2 (framed h x) vs ts.
Proof.
  intros (lo & hi & Hl & Hhi & Hx). inversion Hl as [| | | | |? a vs ? Hc Ha|]; subst.
  exists a, vs. split; [reflexivity|]. split; [exact Ha|].
  pose proof (chain_le _ _ _ _ _ Hc (loaded_le h)).
  apply (chain_elems_framed _ _ lo a); [exact Hc | lia | lia].
Qed.

(** *** Splitting a dict at a key *)

Lemma dict_get_split {V} k (v : V) es :
  dict_get k es = Some v ->
  exists pre post, es = pre ++ (k, v) :: post /\ dict_get k pre = None.
Proof.
  induction es as [|[k' v'] es IH]; simpl; [discriminate|].
  destruct (String.eqb_spec k k') as [<-|Hne].
  - intros [= ->]. exists [], es. split; reflexivity.
  - intros H. destruct (IH H) as (pre & post & -> & Hpre).
    exists ((k', v') :: pre), post. split; [reflexivity|].
    simpl. destruct (String.eqb_spec k k'); [contradiction | exact Hpre].
Qed.

Lemma dict_get_app {V} k (v : V) pre post :
  dict_get k pre = None -> dict_get k (pre ++ (k, v) :: post) = Some v.
Proof.
  induction pre as [|[k' v'] pre IH]; simpl.
  - rewrite String.eqb_refl. reflexivity.
  - destruct (String.eqb k k'); [discriminate | exact IH].
Qed.

Lemma dict_set_app {V} k (v v' : V) pre post :
  dict_get k pre = None ->
  dict_set k v' (pre ++ (k, v) :: post) = pre ++ (k, v') :: post.
Proof.
  induction pre as [|[k1 v1] pre IH]; simpl.
  - rewrite String.eqb_refl. reflexivity.
  - destruct (String.eqb k k1); [discriminate|]. intros H. rewrite IH by exact H. reflexivity.
Qed.

Lemma entries_rel_get_None {A B} (R : A -> B -> Prop) kas kbs k :
  entries_rel R kas kbs -> dict_get k kas = None -> dict_get k kbs = None.
Proof.
  intros H Hk. apply (entries_rel_get R _ _ k) in H. rewrite Hk in H.
  destruct (dict_get k kbs); [contradiction | reflexivity].
Qed.

Lemma chain_entries_keys h lo hi es kts :
  chain (fun lo hi kv kt => kv.1 = kt.1 /\ loaded h lo hi kv.2 kt.2) lo hi es kts ->
  entries_rel (fun _ _ => True) es kts.
Proof.
  intros Hc. apply chain_Forall2 in Hc; [|apply loaded_entry_le].
  eapply Forall2_impl; [exact Hc|]. intros kv kt (? & ? & _ & _ & Hk & _).
  split; [exact Hk | exact I].
Qed.

(** *** The run on a freshly loaded document that lacks [confusables] *)

Lemma normalize_loaded_mutates (h : heap) lo hi r kts akts its :
  loaded h lo hi r (JObj kts) -> (hi <= length h)%nat ->
  dict_get "alphabet" kts = Some (JObj akts) ->
  dict_get "items" kts = Some (JArr its) ->
  Forall is_obj its ->
  dict_in "confusables" akts = false ->
  exists h',
    _normalize_curriculum r h = Some (VRef (length h), h')
    /\ represents h' (VRef (length h)) (normalized (JObj kts))
    /\ represents h' r (input_after (JObj kts)).
Proof.
  intros Hl Hhi Halpha Hitems Hobjs Hconf.
  inversion Hl as [| | | | | |? ar es ? Hc Har]; subst.
  (* the alphabet entry and its neighbours *)
  pose proof (chain_entries_keys _ _ _ _ _ Hc) as Hrel0.
  pose proof (entries_rel_get _ _ _ "alphabet" Hrel0) as Hget. rewrite Halpha in Hget.
  destruct (dict_get "alphabet" es) as [va|] eqn:Hva; [clear Hget|contradiction].
  destruct (dict_get_split _ _ _ Hva) as (pre & post & -> & Hpre).
  destruct (chain_app_inv _ _ _ _ _ _ _ Hc (loaded_entry_le h))
    as (pre' & [ky A] & post' & m1 & m2 & -> & Hcpre & [Hky HlA] & Hcpost & Hm1 & Hm2).
  simpl in Hky, HlA. subst ky.
  pose proof (chain_le _ _ _ _ _ Hcpre (loaded_entry_le h)) as Hle1.
  pose proof (chain_le _ _ _ _ _ Hcpost (loaded_entry_le h)) as Hle2.
  assert (Hpre' : dict_get "alphabet" pre' = None).
  { eapply entries_rel_get_None; [|exact Hpre].
    eapply chain_entries_keys, Hcpre. }
  rewrite (dict_get_app _ _ _ _ Hpre') in Halpha. injection Halpha as ->.
  inversion HlA as [| | | | | |? aa aes ? Hca Haa]; subst.
  pose proof (chain_le _ _ _ _ _ Hca (loaded_entry_le h)) as Hle3.
  assert (Hfpre : entries_rel (framed h aa) pre pre')
    by (apply (chain_entries_framed _ _ lo m1); [exact Hcpre | lia | lia]).
  assert (Hfpost : entries_rel (framed h aa) post post')
    by (apply (chain_entries_framed _ _ (S aa) ar); [exact Hcpost | lia | lia]).
  assert (Hfalpha : entries_rel (framed h aa) aes akts)
    by (apply (chain_entries_framed _ _ m1 aa); [exact Hca | lia | lia]).
  (* the items *)
  assert (Hrel1 : entries_rel (fun v t => framed h aa v t \/ t = JObj akts)
                    (pre ++ ("alphabet", VRef aa) :: post)
                    (pre' ++ ("alphabet", JObj akts) :: post')).
  { apply Forall2_app; [|constructor].
    - apply (entries_rel_impl (framed h aa) (fun v t => framed h aa v t \/ t = JObj akts));
        [exact Hfpre|]. tauto.
    - split; [reflexivity|]. right. reflexivity.
    - apply (entries_rel_impl (framed h aa) (fun v t => framed h aa v t \/ t = JObj akts));
        [exact Hfpost|]. tauto. }
  pose proof (entries_rel_get _ _ _ "items" Hrel1) as Hgi. rewrite Hitems in Hgi.
  destruct (dict_get "items" (pre ++ ("alphabet", VRef aa) :: post)) as [vi|] eqn:Hvi;
    [|contradiction].
  destruct Hgi as [Hfi | ?]; [|discriminate].
  destruct (framed_arr _ _ _ _ Hfi) as (ai & items & -> & Hai & Hfitems).
  assert (Hitems_in : forall g, keeps_but aa h g -> Forall2 (item_in h g) items its).
  { intros g Hkeep. rewrite Forall_forall in Hobjs.
    apply Forall2_same_length_lookup. split; [eapply Forall2_length, Hfitems|].
    intros i v t Hv Ht.
    destruct (Hobjs t) as [kts' ->]; [eapply list_elem_of_lookup_2, Ht|].
    pose proof (Forall2_lookup_lr _ _ _ _ _ _ Hfitems Hv Ht) as Hf.
    destruct (framed_obj _ _ _ _ Hf) as (a & es' & -> & Ha & Hes').
    exists a, es', kts'. split; [reflexivity|]. split; [exact Ha|]. split; [reflexivity|].
    eapply entries_rel_impl; [exact Hes'|].
    intros v t Hvt. eapply framed_represents; [exact Hvt | exact Hkeep]. }
  assert (Hdicts : Forall (dict_ref h) items).
  { apply Forall_lookup. intros i v Hv.
    destruct (Forall2_lookup_l _ _ _ _ _ (Hitems_in h (fun b o _ H => H)) Hv)
      as (t & _ & a & es' & _ & -> & Ha & _).
    exists a, es'. split; [reflexivity | exact Ha]. }
  (* the run *)
  destruct (normalize_curriculum_run h ar _ ai items aa aes Har Hvi Hai Hdicts Hva Haa)
    as (vs & news & Hrun & Hpost).
  cbn zeta in Hrun.
  rewrite (entries_rel_in _ _ _ "confusables" Hfalpha), Hconf in Hrun.
  set (es := pre ++ ("alphabet", VRef aa) :: post) in *.
  set (tail := PyDict (dict_set "items" (VRef (S (length h + length news))) es)
               :: news ++ [PyList vs]) in *.
  set (aes' := dict_set "confusables" (VRef (length h + length tail)) aes) in *.
  set (g := <[aa := PyDict aes']> h ++ tail ++ [PyList []]) in *.
  exists g. split; [exact Hrun|].
  assert (Hlen : length (<[aa := PyDict aes']> h) = length h) by apply length_insert.
  assert (Hkeep : keeps_but aa h g).
  { intros b o Hb Ho. unfold g. apply lookup_app_l_Some.
    rewrite list_lookup_insert_ne by congruence. exact Ho. }
  assert (Hgaa : g !! aa = Some (PyDict aes')).
  { unfold g. apply lookup_app_l_Some, list_lookup_insert_eq. lia. }
  assert (Hgtail : forall i o, tail !! i = Some o -> g !! (length h + i)%nat = Some o).
  { intros i o Hi. unfold g. rewrite lookup_app_r by lia.
    rewrite Hlen. replace (length h + i - length h)%nat with i by lia.
    apply lookup_app_l_Some, Hi. }
  assert (Hgnew : g !! (length h + length tail)%nat = Some (PyList [])).
  { unfold g. rewrite lookup_app_r by lia.
    rewrite Hlen. replace (length h + length tail - length h)%nat with (length tail) by lia.
    apply list_lookup_middle. reflexivity. }
  (* the entries of the input dict, read in the final store *)
  assert (Hroot : entries_rel (represents g) es
            (with_alphabet_confusables (pre' ++ ("alphabet", JObj akts) :: post'))).
  { unfold with_alphabet_confusables. rewrite (dict_get_app _ _ _ _ Hpre').
    cbn [with_confusables]. rewrite Hconf. rewrite (dict_set_app _ _ _ _ _ Hpre').
    apply Forall2_app; [|constructor].
    - apply (entries_rel_impl (framed h aa) (represents g)); [exact Hfpre|].
      intros v t Hvt. eapply framed_represents; [exact Hvt | exact Hkeep].
    - split; [reflexivity|]. cbn [snd].
      apply (represents_dict _ _ aes'); [exact Hgaa|].
      apply entries_rel_set.
      + apply (entries_rel_impl (framed h aa) (represents g)); [exact Hfalpha|].
        intros v t Hvt. eapply framed_represents; [exact Hvt | exact Hkeep].
      + apply (represents_list _ _ []); [exact Hgnew | constructor].
    - apply (entries_rel_impl (framed h aa) (represents g)); [exact Hfpost|].
      intros v t Hvt. eapply framed_represents; [exact Hvt | exact Hkeep]. }
  split.
  - cbn [normalized]. rewrite Hitems.
    apply (normalized_assembly h g es _ its vs (S (length h + length news))).
    + specialize (Hgtail 0%nat _ eq_refl). rewrite Nat.add_0_r in Hgtail. exact Hgtail.
    + replace (S (length h + length news)) with (length h + S (length news))%nat by lia.
      apply Hgtail. unfold tail. cbn [lookup list_lookup].
      apply list_lookup_middle. reflexivity.
    + apply Hpost; [|apply Hitems_in, Hkeep].
      intros i o Hi. replace (S (length h) + i)%nat with (length h + S i)%nat by lia.
      apply Hgtail. unfold tail. cbn [lookup list_lookup]. apply lookup_app_l_Some, Hi.
    + exact Hroot.
  - cbn [input_after]. apply (represents_dict _ _ es); [|exact Hroot].
    apply Hkeep; [lia | exact Har].
Qed.

(** *** The run on a document that already has [confusables]

    Nothing of the input is updated: the store only grows. *)
Lemma normalize_stable (h : heap) r kts akts its :
  represents h r (JObj kts) ->
  dict_get "alphabet" kts = Some (JObj akts) ->
  dict_get "items" kts = Some (JArr its) ->
  Forall is_obj its ->
  dict_in "confusables" akts = true ->
  exists tail,
    _normalize_curriculum r h = Some (VRef (length h), h ++ tail)
    /\ represents (h ++ tail) (VRef (length h)) (normalized (JObj kts)).
Proof.
  intros Hr Halpha Hitems Hobjs Hconf.
  destruct (represents_obj_ref _ _ _ Hr) as [ar ->].
  destruct (represents_dict_inv _ _ _ Hr) as (es & Har & Hes).
  pose proof (entries_rel_get _ _ _ "alphabet" Hes) as Hga. rewrite Halpha in Hga.
  destruct (dict_get "alphabet" es) as [va|] eqn:Hva; [|contradiction].
  destruct (represents_obj_ref _ _ _ Hga) as [aa ->].
  destruct (represents_dict_inv _ _ _ Hga) as (aes & Haa & Haes).
  pose proof (entries_rel_get _ _ _ "items" Hes) as Hgi. rewrite Hitems in Hgi.
  destruct (dict_get "items" es) as [vi|] eqn:Hvi; [|contradiction].
  destruct (represents_arr_ref _ _ _ Hgi) as [ai ->].
  destruct (represents_list_inv _ _ _ Hgi) as (items & Hai & Hits).
  assert (Hitems_in : forall news, Forall2 (item_in h (h ++ news)) items its).
  { intros news. rewrite Forall_forall in Hobjs.
    apply Forall2_same_length_lookup. split; [eapply Forall2_length, Hits|].
    intros i v t Hv Ht.
    destruct (Hobjs t) as [kts' ->]; [eapply list_elem_of_lookup_2, Ht|].
    pose proof (Forall2_lookup_lr _ _ _ _ _ _ Hits Hv Ht) as Hvt.
    destruct (represents_obj_ref _ _ _ Hvt) as [a ->].
    destruct (represents_dict_inv _ _ _ Hvt) as (es' & Ha & Hes').
    exists a, es', kts'. split; [reflexivity|]. split; [exact Ha|]. split; [reflexivity|].
    apply (entries_rel_impl (represents h) (represents (h ++ news))); [exact Hes'|].
    intros v t. apply represents_app. }
  assert (Hdicts : Forall (dict_ref h) items).
  { apply Forall_lookup. intros i v Hv.
    destruct (Forall2_lookup_l _ _ _ _ _ (Hitems_in []) Hv)
      as (t & _ & a & es' & _ & -> & Ha & _).
    exists a, es'. split; [reflexivity | exact Ha]. }
  destruct (normalize_curriculum_run h ar es ai items aa aes Har Hvi Hai Hdicts Hva Haa)
    as (vs & news & Hrun & Hpost).
  cbn zeta in Hrun.
  rewrite (entries_rel_in _ _ _ "confusables" Haes), Hconf in Hrun.
  eexists. split; [exact Hrun|].
  cbn [normalized]. rewrite Hitems.
  replace (with_alphabet_confusables kts) with kts.
  2:{ unfold with_alphabet_confusables. rewrite Halpha. cbn [with_confusables].
      rewrite Hconf. symmetry. apply dict_set_same, Halpha. }
  apply (normalized_assembly h _ es kts its vs (S (length h + length news))).
  - apply lookup_fresh.
  - apply tail_lookup.
  - apply Hpost; [|apply Hitems_in].
    intros i o Hi. apply tail_news_lookup, Hi.
  - apply (entries_rel_impl (represents h)); [exact Hes|].
    intros v t. apply represents_app.
Qed.

(** *** Documents that passed validation *)

Lemma andthen_ok (m k : outcome) : andthen m k = ok -> m = ok /\ k = ok.
Proof. destruct m as [e|[]]; simpl; [discriminate | tauto]. Qed.

Lemma validate_items_loop_objs items : forall i path seen_ids,
  validate_items_loop items i path seen_ids = ok -> Forall is_obj items.
Proof.
  induction items as [|item items IH]; intros i path seen_ids; [constructor|].
  cbn [validate_items_loop]. intros [Hitem Hrest]%andthen_ok.
  destruct (ValidatorFacts.validate_item_has_id _ _ _ Hitem) as [id Hid].
  rewrite Hid in Hrest. destruct (bool_decide (id ∈ seen_ids)); [discriminate|].
  constructor; [|eapply IH, Hrest].
  destruct item; try discriminate. eexists. reflexivity.
Qed.

Lemma validate_well_shaped d : validate d = inr tt -> well_shaped d.
Proof.
  unfold validate. destruct d as [| | | | | |kts]; try discriminate.
  destruct (dict_get "meta" kts) as [meta|]; [|discriminate].
  destruct (dict_get "alphabet" kts) as [alphabet|] eqn:Halpha; [|discriminate].
  destruct (dict_get "items" kts) as [items|] eqn:Hitems; [|discriminate].
  intros [_ [Ha Hi]%andthen_ok]%andthen_ok.
  destruct alphabet as [| | | | | |akts]; try discriminate.
  destruct items as [| | | | |its|]; try discriminate.
  exists kts, akts, its. split; [reflexivity|]. split; [exact Halpha|].
  split; [exact Hitems|]. eapply validate_items_loop_objs, Hi.
Qed.

(** *** The run on a loaded, validated document *)

Lemma normalize_loaded d (h0 : heap) r h :
  well_shaped d -> load d h0 = (r, h) ->
  exists h',
    _normalize_curriculum r h = Some (VRef (length h), h')
    /\ represents h' (VRef (length h)) (normalized d)
    /\ represents h' r (input_after d).
Proof.
  intros (kts & akts & its & -> & Halpha & Hitems & Hobjs) Hload.
  destruct (load_loaded _ _ _ _ Hload) as (news & _ & Hl).
  destruct (dict_in "confusables" akts) eqn:Hconf.
  - destruct (normalize_stable h r kts akts its) as (tail & Hrun & Hrep);
      [eapply loaded_represents, Hl | assumption..|].
    exists (h ++ tail). split; [exact Hrun|]. split; [exact Hrep|].
    cbn [input_after]. unfold with_alphabet_confusables. rewrite Halpha.
    cbn [with_confusables]. rewrite Hconf. rewrite dict_set_same by exact Halpha.
    apply represents_app. eapply loaded_represents, Hl.
  - eapply normalize_loaded_mutates; [exact Hl | lia | eassumption..].
Qed.

(** *** Normalised documents *)

Lemma graphemes_defaulted_get es :
  exists x, dict_get "graphemes" (graphemes_defaulted es) = Some x /\ forall s, x <> JStr s.
Proof.
  unfold graphemes_defaulted. destruct (dict_get "graphemes" es) as [x|] eqn:Hget.
  - destruct x; try (eexists; split; [exact Hget | discriminate]).
    eexists. split; [apply dict_get_set_eq | discriminate].
  - eexists. split; [apply dict_get_set_eq | discriminate].
Qed.

Lemma graphemes_defaulted_fixed es x :
  dict_get "graphemes" es = Some x -> (forall s, x <> JStr s) -> graphemes_defaulted es = es.
Proof.
  intros Hget Hx. unfold graphemes_defaulted. rewrite Hget.
  destruct x; try reflexivity. exfalso. eapply Hx. reflexivity.
Qed.

Lemma normalized_item_obj es :
  normalized_item (JObj es)
  = JObj (if dict_in "notes" (graphemes_defaulted es) then graphemes_defaulted es
          else dict_set "notes" (JStr "") (graphemes_defaulted es)).
Proof. reflexivity. Qed.

Lemma normalized_item_idem item :
  is_obj item -> normalized_item (normalized_item item) = normalized_item item.
Proof.
  intros [es ->]. rewrite normalized_item_obj.
  destruct (graphemes_defaulted_get es) as (x & Hx & Hnostr).
  set (es1 := graphemes_defaulted es) in *.
  destruct (dict_in "notes" es1) eqn:Hnotes.
  - rewrite normalized_item_obj.
    rewrite (graphemes_defaulted_fixed es1 x Hx Hnostr), Hnotes. reflexivity.
  - rewrite normalized_item_obj.
    rewrite (graphemes_defaulted_fixed _ x); [|rewrite dict_get_set_ne by discriminate;
                                                 exact Hx | exact Hnostr].
    rewrite dict_in_set_eq. reflexivity.
Qed.

Lemma normalized_item_is_obj item : is_obj item -> is_obj (normalized_item item).
Proof. intros [es ->]. rewrite normalized_item_obj. eexists. reflexivity. Qed.

Lemma with_confusables_obj akts :
  exists akts',
    with_confusables (JObj akts) = JObj akts'
    /\ dict_in "confusables" akts' = true
    /\ (dict_in "confusables" akts = false ->
        dict_get "confusables" akts' = Some (JArr [])).
Proof.
  cbn [with_confusables]. destruct (dict_in "confusables" akts) eqn:Hconf.
  - exists akts. split; [reflexivity|]. split; [exact Hconf | discriminate].
  - eexists. split; [reflexivity|]. split; [apply dict_in_set_eq|].
    intros _. apply dict_get_set_eq.
Qed.

(** The entries of a normalised document. *)
Lemma normalized_entries kts akts its :
  dict_get "alphabet" kts = Some (JObj akts) ->
  dict_get "items" kts = Some (JArr its) ->
  exists okts,
    normalized (JObj kts) = JObj okts
    /\ dict_get "alphabet" okts = Some (with_confusables (JObj akts))
    /\ dict_get "items" okts = Some (JArr (map normalized_item its)).
Proof.
  intros Halpha Hitems. eexists. split; [reflexivity|]. rewrite Hitems.
  unfold with_alphabet_confusables. rewrite Halpha. split.
  - rewrite dict_get_set_ne by discriminate. apply dict_get_set_eq.
  - apply dict_get_set_eq.
Qed.

Lemma normalized_idem d : well_shaped d -> normalized (normalized d) = normalized d.
Proof.
  intros (kts & akts & its & -> & Halpha & Hitems & Hobjs).
  destruct (normalized_entries kts akts its Halpha Hitems) as (okts & Hn & Hoa & Hoi).
  rewrite Hn. cbn [normalized]. rewrite Hoi.
  destruct (with_confusables_obj akts) as (akts' & Hwc & Hconf' & _).
  unfold with_alphabet_confusables. rewrite Hoa, Hwc.
  cbn [with_confusables]. rewrite Hconf'.
  rewrite (dict_set_same "alphabet") by (rewrite Hoa, Hwc; reflexivity).
  rewrite dict_set_same; [reflexivity|]. rewrite Hoi. do 2 f_equal.
  rewrite map_map. apply map_ext_Forall.
  eapply Forall_impl; [exact Hobjs|]. intros item Hitem.
  symmetry. apply normalized_item_idem, Hitem.
Qed.

Lemma normalized_item_defaults es : item_defaults (JObj es) (normalized_item (JObj es)).
Proof.
  eexists es, _. split; [reflexivity|]. split; [apply normalized_item_obj|].
  assert (Hnotes : forall es1 k, k <> "notes" ->
    dict_get k (if dict_in "notes" es1 then es1 else dict_set "notes" (JStr "") es1)
    = dict_get k es1).
  { intros es1 k Hk. destruct (dict_in "notes" es1); [reflexivity|].
    apply dict_get_set_ne. congruence. }
  split; [|split].
  - intros Hnone. rewrite Hnotes by discriminate.
    unfold graphemes_defaulted. rewrite Hnone. apply dict_get_set_eq.
  - intros g Hg. rewrite Hnotes by discriminate.
    unfold graphemes_defaulted. rewrite Hg. apply dict_get_set_eq.
  - intros Hnone.
    assert (Hin : dict_in "notes" (graphemes_defaulted es) = false).
    { unfold dict_in, graphemes_defaulted.
      destruct (dict_get "graphemes" es) as [[]|];
        rewrite ?dict_get_set_ne by discriminate; rewrite Hnone; reflexivity. }
    rewrite Hin. apply dict_get_set_eq.
Qed.

Lemma normalized_has_defaults d : well_shaped d -> has_defaults d (normalized d).
Proof.
  intros (kts & akts & its & -> & Halpha & Hitems & Hobjs).
  destruct (normalized_entries kts akts its Halpha Hitems) as (okts & Hn & Hoa & Hoi).
  destruct (with_confusables_obj akts) as (akts' & Hwc & Hconf' & Hnew).
  exists kts, akts, its, okts, akts', (map normalized_item its).
  rewrite Hwc in Hoa. repeat (split; [assumption || reflexivity|]).
  apply Forall2_fmap_r, Forall_Forall2_diag.
  eapply Forall_impl; [exact Hobjs|]. intros item [es ->]. apply normalized_item_defaults.
Qed.

(** *** The claims about the normaliser *)

(** C9. Normalisation defaults.  On a validated document, loaded into any
    store, the normaliser returns a document in which every item that
    lacked [graphemes] has [graphemes = []], every item whose [graphemes]
    was a string has it wrapped into a one-element list, every item that
    lacked [notes] has [notes = ""], and the alphabet has a [confusables]
    field, [[]] when it was absent. *)
Theorem normalize_defaults (d : json) (h0 : heap) (r : pyval) (h : heap) :
  validate d = inr tt ->
  load d h0 = (r, h) ->
  exists r' h' out,
    _normalize_curriculum r h = Some (r', h')
    /\ represents h' r' out
    /\ has_defaults d out.
Proof.
  intros Hvalid%validate_well_shaped Hload.
  destruct (normalize_loaded d h0 r h Hvalid Hload) as (h' & Hrun & Hrep & _).
  exists (VRef (length h)), h', (normalized d).
  split; [exact Hrun|]. split; [exact Hrep|]. apply normalized_has_defaults, Hvalid.
Qed.

(** C8. Normalisation is idempotent.  On a validated document, loaded into
    any store, normalising the result of the normaliser succeeds and
    returns a document equal to the one the first run returned; the first
    result is not changed by the second run. *)
Theorem normalize_idempotent (d : json) (h0 : heap) (r : pyval) (h : heap) :
  validate d = inr tt ->
  load d h0 = (r, h) ->
  exists r1 h1 r2 h2 once,
    _normalize_curriculum r h = Some (r1, h1)
    /\ _normalize_curriculum r1 h1 = Some (r2, h2)
    /\ represents h1 r1 once
    /\ represents h2 r2 once
    /\ represents h2 r1 once.
Proof.
  intros Hvalid%validate_well_shaped Hload.
  destruct (normalize_loaded d h0 r h Hvalid Hload) as (h1 & Hrun1 & Hrep1 & _).
  pose proof (normalized_idem d Hvalid) as Hidem.
  destruct Hvalid as (kts & akts & its & -> & Halpha & Hitems & Hobjs).
  destruct (normalized_entries kts akts its Halpha Hitems) as (okts & Hn & Hoa & Hoi).
  destruct (with_confusables_obj akts) as (akts' & Hwc & Hconf' & _).
  rewrite Hwc in Hoa. rewrite Hn in Hrep1, Hidem.
  destruct (normalize_stable h1 (VRef (length h)) okts akts' (map normalized_item its))
    as (tail & Hrun2 & Hrep2); [assumption.. | |assumption|].
  { apply Forall_fmap. eapply Forall_impl; [exact Hobjs|].
    intros item. apply normalized_item_is_obj. }
  rewrite Hidem in Hrep2.
  exists (VRef (length h)), h1, (VRef (length h1)), (h1 ++ tail), (JObj okts).
  split; [exact Hrun1|]. split; [exact Hrun2|]. split; [exact Hrep1|].
  split; [exact Hrep2|]. apply represents_app, Hrep1.
Qed.

Lemma normalize_idempotent_witness :
  exists r1 h1 r2 h2 once,
    _normalize_curriculum (load curriculum_without_confusables []).1
      (load curriculum_without_confusables []).2 = Some (r1, h1)
    /\ _normalize_curriculum r1 h1 = Some (r2, h2)
    /\ represents h1 r1 once
    /\ represents h2 r2 once
    /\ represents h2 r1 once.
Proof.
  apply (normalize_idempotent curriculum_without_confusables []); reflexivity.
Defined.

Lemma normalize_defaults_witness :
  exists r' h' out,
    _normalize_curriculum (load curriculum_without_confusables []).1
      (load curriculum_without_confusables []).2 = Some (r', h')
    /\ represents h' r' out
    /\ has_defaults curriculum_without_confusables out.
Proof.
  apply (normalize_defaults curriculum_without_confusables []); reflexivity.
Defined.

(** What becomes of the input: after the run the input document is
    [input_after d], which differs from [d] exactly when the alphabet had
    no [confusables] key. *)
Lemma normalize_input_after (d : json) (h0 : heap) (r : pyval) (h : heap) :
  validate d = inr tt ->
  load d h0 = (r, h) ->
  represents h r d
  /\ exists r' h', _normalize_curriculum r h = Some (r', h')
                   /\ represents h' r (input_after d).
Proof.
  intros Hvalid%validate_well_shaped Hload.
  split; [eapply load_represents, Hload|].
  destruct (normalize_loaded d h0 r h Hvalid Hload) as (h' & Hrun & _ & Hin).
  eauto.
Qed.

Lemma input_after_changed kts akts :
  dict_get "alphabet" kts = Some (JObj akts) ->
  dict_in "confusables" akts = false ->
  input_after (JObj kts) <> JObj kts.
Proof.
  intros Halpha Hconf Heq. cbn [input_after] in Heq. injection Heq as Heq.
  apply (f_equal (dict_get "alphabet")) in Heq.
  unfold with_alphabet_confusables in Heq. rewrite Halpha in Heq.
  rewrite dict_get_set_eq in Heq. cbn [with_confusables] in Heq.
  rewrite Hconf in Heq. injection Heq as Heq.
  apply (f_equal (dict_in "confusables")) in Heq.
  rewrite dict_in_set_eq, Hconf in Heq. discriminate.
Qed.

(** C2 fails on [curriculum_without_confusables].  The document is valid
    and, once loaded, the input value stands for it; after the normaliser
    has run, the same input value stands for a document whose alphabet has
    gained [confusables = []], and no longer for the document it was. *)
Theorem normalize_mutates_input :
  validate curriculum_without_confusables = inr tt
  /\ exists r h r' h' after,
       load curriculum_without_confusables [] = (r, h)
       /\ represents h r curriculum_without_confusables
       /\ _normalize_curriculum r h = Some (r', h')
       /\ represents h' r after
       /\ after = input_after curriculum_without_confusables
       /\ (exists aes, dict_get "alphabet"
                         match after with JObj es => es | _ => [] end = Some (JObj aes)
                       /\ dict_get "confusables" aes = Some (JArr []))
       /\ ~ represents h' r curriculum_without_confusables.
Proof.
  split; [reflexivity|].
  destruct (load curriculum_without_confusables []) as [r h] eqn:Hload.
  destruct (normalize_input_after curriculum_without_confusables [] r h eq_refl Hload)
    as (Hbefore & r' & h' & Hrun & Hafter).
  exists r, h, r', h', (input_after curriculum_without_confusables).
  split; [reflexivity|]. split; [exact Hbefore|]. split; [exact Hrun|].
  split; [exact Hafter|]. split; [reflexivity|]. split.
  - eexists. split; reflexivity.
  - intros Hsame. pose proof (represents_functional _ _ _ _ Hafter Hsame) as Heq.
    revert Heq. eapply input_after_changed; reflexivity.
Qed.

End NormalizerFacts.

(* ===================================================================== *)
(** * Further properties                                                  *)
(* ===================================================================== *)

(** ** Identity derivation *)

Module IdsMore.
Import Hashlib Ids IdsSpec IdsFacts.

(** *** Bytes and numbers *)

Lemma int_to_bytes_little_bytes n x : is_bytes (int_to_bytes_little n x).
Proof.
  revert x. induction n as [|n IH]; intros x; simpl; constructor.
  - change 0xFF with (Z.ones 8). rewrite Z.land_ones by lia.
    pose proof (Z.mod_pos_bound x (2 ^ 8)). lia.
  - apply IH.
Qed.

Lemma int_to_bytes_little_length n x : length (int_to_bytes_little n x) = n.
Proof. revert x. induction n as [|n IH]; intros x; simpl; [reflexivity | now rewrite IH]. Qed.

Lemma is_bytes_nonneg data : is_bytes data -> Forall (fun b => 0 <= b) data.
Proof. intros H. eapply Forall_impl; [exact H|]. intros b Hb. simpl in Hb. lia. Qed.

Lemma fold_bytes_bound data acc :
  0 <= acc -> is_bytes data ->
  0 <= fold_left (fun acc b => acc * 256 + b) data acc
     < (acc + 1) * 256 ^ Z.of_nat (length data).
Proof.
  revert acc. induction data as [|b data IH]; intros acc Hacc Hdata.
  - simpl. lia.
  - inversion Hdata as [|? ? Hb Hrest]; subst. cbn [fold_left length].
    specialize (IH (acc * 256 + b) ltac:(lia) Hrest).
    rewrite Nat2Z.inj_succ, Z.pow_succ_r by lia.
    assert (0 < 256 ^ Z.of_nat (length data)) by (apply Z.pow_pos_nonneg; lia).
    nia.
Qed.

Lemma int_from_bytes_big_bound data :
  is_bytes data -> 0 <= int_from_bytes_big data < 256 ^ Z.of_nat (length data).
Proof.
  intros H. pose proof (fold_bytes_bound data 0 ltac:(lia) H) as Hb.
  unfold int_from_bytes_big. lia.
Qed.

Lemma fold_bytes_inj data1 : forall data2 acc1 acc2,
  length data1 = length data2 -> is_bytes data1 -> is_bytes data2 ->
  0 <= acc1 -> 0 <= acc2 ->
  fold_left (fun acc b => acc * 256 + b) data1 acc1
  = fold_left (fun acc b => acc * 256 + b) data2 acc2 ->
  acc1 = acc2 /\ data1 = data2.
Proof.
  induction data1 as [|b1 data1 IH]; intros [|b2 data2] acc1 acc2 Hlen H1 H2 Ha1 Ha2;
    simpl in Hlen; try discriminate.
  - simpl. tauto.
  - inversion H1 as [|? ? Hb1 Hr1]; inversion H2 as [|? ? Hb2 Hr2]; subst.
    cbn [fold_left]. intros Heq.
    destruct (IH data2 (acc1 * 256 + b1) (acc2 * 256 + b2)) as [Hacc ->];
      [lia | assumption | assumption | lia | lia | exact Heq |].
    assert (acc1 = acc2) by lia. subst. split; [reflexivity|]. f_equal. lia.
Qed.

(** [int.from_bytes(_, "big")] is one-to-one on byte strings of one length. *)
Lemma int_from_bytes_big_inj data1 data2 :
  length data1 = length data2 -> is_bytes data1 -> is_bytes data2 ->
  int_from_bytes_big data1 = int_from_bytes_big data2 -> data1 = data2.
Proof.
  intros Hlen H1 H2 Heq.
  apply (fold_bytes_inj data1 data2 0 0 Hlen H1 H2 ltac:(lia) ltac:(lia) Heq).
Qed.

(** *** The digest has thirty-two bytes *)

Lemma sha256_round_length st kw : length st = 8%nat -> length (sha256_round st kw) = 8%nat.
Proof.
  intros H. do 9 (destruct st as [|? st]; try discriminate H). reflexivity.
Qed.

Lemma sha256_compress_length st block :
  length st = 8%nat -> length (sha256_compress st block) = 8%nat.
Proof.
  intros H. unfold sha256_compress.
  rewrite length_map, length_combine.
  assert (Hfold : forall kws st0, length st0 = 8%nat ->
            length (fold_left sha256_round kws st0) = 8%nat).
  { induction kws as [|kw kws IH]; intros st0 H0; simpl; [exact H0|].
    apply IH, sha256_round_length, H0. }
  rewrite Hfold by exact H. lia.
Qed.

Lemma sha256_state_length blocks : forall st,
  length st = 8%nat -> length (fold_left sha256_compress blocks st) = 8%nat.
Proof.
  induction blocks as [|b blocks IH]; intros st H; simpl; [exact H|].
  apply IH, sha256_compress_length, H.
Qed.

Lemma flat_map_bytes_big (ws : list Z) :
  is_bytes (flat_map (int_to_bytes_big 4) ws)
  /\ length (flat_map (int_to_bytes_big 4) ws) = (4 * length ws)%nat.
Proof.
  induction ws as [|w ws [IHb IHl]]; cbn [flat_map].
  - split; [constructor | reflexivity].
  - split.
    + apply Forall_app. split; [|exact IHb].
      apply Forall_rev, int_to_bytes_little_bytes.
    + rewrite length_app, IHl. unfold int_to_bytes_big.
      rewrite length_rev, int_to_bytes_little_length. cbn [length]. lia.
Qed.

Lemma sha256_digest msg : is_bytes (sha256 msg) /\ length (sha256 msg) = 32%nat.
Proof.
  unfold sha256. destruct (flat_map_bytes_big (fold_left sha256_compress
    (groups 64 (length (sha256_pad msg) / 64) (sha256_pad msg)) sha256_H0)) as [Hb Hl].
  split; [exact Hb|]. rewrite Hl, sha256_state_length; reflexivity.
Qed.

Lemma sha256_prefix msg :
  is_bytes (firstn 8 (sha256 msg)) /\ length (firstn 8 (sha256 msg)) = 8%nat.
Proof.
  destruct (sha256_digest msg) as [Hb Hl]. split.
  - apply Forall_take, Hb.
  - rewrite length_take, Hl. reflexivity.
Qed.

(** *** The token is the base-62 numeral of the number *)

Lemma char_value_chars_at d : 0 <= d < 62 -> char_value (chars_at d) = d.
Proof.
  intros Hd.
  assert (Hall : forallb (fun n => char_value (chars_at (Z.of_nat n)) =? Z.of_nat n)
                   (seq 0 62) = true) by (vm_compute; reflexivity).
  rewrite forallb_forall in Hall.
  specialize (Hall (Z.to_nat d)). rewrite Z2Nat.id in Hall by lia.
  apply Z.eqb_eq, Hall, in_seq. lia.
Qed.

Lemma encode_loop_app fuel : forall num result,
  encode_loop fuel num result = result ++ encode_loop fuel num [].
Proof.
  induction fuel as [|fuel IH]; intros num result; simpl.
  - now rewrite app_nil_r.
  - destruct (0 <? num); [|now rewrite app_nil_r].
    rewrite IH, (IH _ [_]), app_assoc. reflexivity.
Qed.

Lemma encode_loop_value fuel : forall num,
  0 <= num < 2 ^ Z.of_nat fuel -> digits_value (encode_loop fuel num []) = num.
Proof.
  induction fuel as [|fuel IH]; intros num Hnum.
  - change (2 ^ Z.of_nat 0) with 1 in Hnum. simpl. lia.
  - simpl. destruct (Z.ltb_spec 0 num) as [Hpos|]; [|simpl; lia].
    rewrite encode_loop_app. cbn [app digits_value fold_right].
    fold (digits_value (encode_loop fuel (num / base) [])).
    rewrite Nat2Z.inj_succ, Z.pow_succ_r in Hnum by lia.
    change base with 62 in *.
    rewrite IH.
    + rewrite char_value_chars_at by (apply Z.mod_pos_bound; lia).
      pose proof (Z.div_mod num 62). lia.
    + split; [apply Z.div_pos; lia|]. apply Z.div_lt_upper_bound; lia.
Qed.

Lemma decode_guid_rev digits :
  decode_guid (string_of_list_ascii (rev digits)) = digits_value digits.
Proof.
  unfold decode_guid, digits_value. rewrite list_ascii_of_string_of_list_ascii.
  rewrite <- (rev_involutive digits) at 2. rewrite fold_left_rev_right.
  reflexivity.
Qed.

Lemma bytes_to_guid_decode data :
  is_bytes data -> decode_guid (_bytes_to_guid data) = int_from_bytes_big data.
Proof.
  intros Hdata. pose proof (int_from_bytes_big_bound data Hdata) as [Hnum _].
  unfold _bytes_to_guid. destruct (Z.eqb_spec (int_from_bytes_big data) 0) as [->|Hne].
  - reflexivity.
  - rewrite decode_guid_rev. apply encode_loop_value.
    split; [exact Hnum|]. apply encode_fuel_enough. lia.
Qed.

(** X1. The token is the base-62 numeral of the number the bytes denote:
    reading [_bytes_to_guid data] back digit by digit, with the index of
    each character in [chars] as its digit, gives
    [int.from_bytes(data, "big")]. *)
Theorem bytes_to_guid_round_trip (data : list Z) :
  is_bytes data -> decode_guid (_bytes_to_guid data) = int_from_bytes_big data.
Proof. apply bytes_to_guid_decode. Qed.

Lemma bytes_to_guid_round_trip_witness :
  is_bytes [1; 0; 255] /\ decode_guid (_bytes_to_guid [1; 0; 255]) = 65791.
Proof.
  assert (H : is_bytes [1; 0; 255]) by (repeat constructor; lia).
  split; [exact H|]. apply (bytes_to_guid_round_trip [1; 0; 255] H).
Defined.

(** X2. The encoding adds no collision of its own: two note GUIDs are equal
    exactly when the first eight bytes of the SHA-256 digests of the two
    hashed strings are equal. *)
Theorem note_guid_collision (n1 s1 n2 s2 : string) :
  note_guid n1 s1 = note_guid n2 s2
  <-> firstn 8 (sha256 (encode_utf8 (guid_key n1 s1)))
      = firstn 8 (sha256 (encode_utf8 (guid_key n2 s2))).
Proof.
  change (note_guid n1 s1)
    with (_bytes_to_guid (firstn 8 (sha256 (encode_utf8 (guid_key n1 s1))))).
  change (note_guid n2 s2)
    with (_bytes_to_guid (firstn 8 (sha256 (encode_utf8 (guid_key n2 s2))))).
  destruct (sha256_prefix (encode_utf8 (guid_key n1 s1))) as [Hb1 Hl1].
  destruct (sha256_prefix (encode_utf8 (guid_key n2 s2))) as [Hb2 Hl2].
  split; [|intros ->; reflexivity].
  intros Heq. apply (f_equal decode_guid) in Heq.
  rewrite !bytes_to_guid_decode in Heq by assumption.
  apply int_from_bytes_big_inj; [congruence | assumption..].
Qed.

(** *** Length of a token *)

Lemma encode_loop_digits fuel : forall (k : nat) num result,
  num < 62 ^ Z.of_nat k ->
  (length (encode_loop fuel num result) <= length result + k)%nat.
Proof.
  induction fuel as [|fuel IH]; intros k num result Hnum; simpl; [lia|].
  destruct (Z.ltb_spec 0 num) as [Hpos|]; [|lia].
  destruct k as [|k]; [change (62 ^ Z.of_nat 0) with 1 in Hnum; lia|].
  rewrite Nat2Z.inj_succ, Z.pow_succ_r in Hnum by lia.
  specialize (IH k (num / base) (result ++ [chars_at (num mod base)])).
  rewrite length_app in IH. cbn [length] in IH.
  change base with 62 in *.
  assert (num / 62 < 62 ^ Z.of_nat k) by (apply Z.div_lt_upper_bound; lia).
  specialize (IH ltac:(assumption)). lia.
Qed.

Lemma string_of_list_ascii_length l : String.length (string_of_list_ascii l) = length l.
Proof. induction l as [|c l IH]; simpl; [reflexivity | now rewrite IH]. Qed.

(** X3. A note GUID has between one and eleven characters. *)
Theorem note_guid_length (model_namespace item_id : string) :
  (1 <= String.length (note_guid model_namespace item_id) <= 11)%nat.
Proof.
  change (note_guid model_namespace item_id)
    with (_bytes_to_guid (firstn 8 (sha256 (encode_utf8 (guid_key model_namespace item_id))))).
  destruct (sha256_prefix (encode_utf8 (guid_key model_namespace item_id))) as [Hb Hl].
  set (data := firstn 8 _) in *.
  split.
  - pose proof (bytes_to_guid_nonempty data (is_bytes_nonneg _ Hb)) as Hne.
    destruct (_bytes_to_guid data); [congruence | simpl; lia].
  - pose proof (int_from_bytes_big_bound data Hb) as Hnum. rewrite Hl in Hnum.
    unfold _bytes_to_guid. destruct (int_from_bytes_big data =? 0); [simpl; lia|].
    rewrite string_of_list_ascii_length, length_rev.
    pose proof (encode_loop_digits (encode_fuel (int_from_bytes_big data)) 11
                  (int_from_bytes_big data) []) as Hlen.
    simpl length in Hlen. apply Hlen.
    change (256 ^ Z.of_nat 8) with 18446744073709551616 in Hnum.
    change (62 ^ Z.of_nat 11) with 52036560683837093888. lia.
Qed.

(** *** The hashed key *)

Lemma append_cons c a s : String c a +:+ s = String c (a +:+ s).
Proof. reflexivity. Qed.

Lemma append_nil s : "" +:+ s = s.
Proof. reflexivity. Qed.

Lemma guid_key_split n1 : forall n2 s1 s2,
  no_colon n1 -> no_colon n2 ->
  n1 +:+ String ":" s1 = n2 +:+ String ":" s2 -> n1 = n2 /\ s1 = s2.
Proof.
  induction n1 as [|c1 n1 IH]; intros [|c2 n2] s1 s2 H1 H2 Heq;
    rewrite ?append_cons, ?append_nil in Heq.
  - injection Heq as ->. tauto.
  - injection Heq as <- _. inversion H2; subst. congruence.
  - injection Heq as -> _. inversion H1; subst. congruence.
  - injection Heq as -> Heq.
    inversion H1; inversion H2; subst.
    destruct (IH n2 s1 s2) as [-> ->]; [assumption.. |]. tauto.
Qed.

(** X4. The string [note_guid] hashes determines the namespace and the item
    id, as long as the namespace has no colon, which holds of the six
    [ModelNamespace] values; with a colon in the namespace two different
    pairs can give one string, hence one GUID. *)
Theorem guid_key_unambiguous :
  (forall n s, note_guid n s = _bytes_to_guid (firstn 8 (sha256 (encode_utf8 (guid_key n s)))))
  /\ (forall n1 s1 n2 s2,
        no_colon n1 -> no_colon n2 ->
        guid_key n1 s1 = guid_key n2 s2 -> n1 = n2 /\ s1 = s2)
  /\ Forall no_colon model_namespaces
  /\ note_guid "a:b" "c" = note_guid "a" "b:c".
Proof.
  split; [reflexivity|]. split; [|split; [|reflexivity]].
  - intros n1 s1 n2 s2 H1 H2 Heq. unfold guid_key in Heq.
    rewrite !append_cons, !append_nil in Heq.
    injection Heq as Heq. apply (guid_key_split n1 n2 s1 s2 H1 H2 Heq).
  - unfold model_namespaces. repeat constructor; discriminate.
Qed.

Lemma guid_key_unambiguous_witness :
  no_colon "sound" /\ no_colon "pattern"
  /\ (guid_key "sound" "x" = guid_key "pattern" "x" -> "sound" = "pattern" /\ "x" = "x").
Proof.
  assert (H1 : no_colon "sound") by (repeat constructor; discriminate).
  assert (H2 : no_colon "pattern") by (repeat constructor; discriminate).
  split; [exact H1|]. split; [exact H2|].
  apply (proj1 (proj2 guid_key_unambiguous) "sound" "x" "pattern" "x" H1 H2).
Defined.

(** *** Integer identifiers *)

(** X5. Every integer identifier fits a signed 64-bit field and is not
    negative: [_hash_to_id] and [deck_id_for_subdeck] return a value in
    [0, 2^63 - 1] for every string. *)
Theorem hash_to_id_fits_int64 (s : string) :
  0 <= _hash_to_id s < 2 ^ 63 /\ 0 <= deck_id_for_subdeck s < 2 ^ 63.
Proof.
  pose proof (hash_to_id_range s). pose proof (deck_id_for_subdeck_range s). lia.
Qed.

(** X6. The identifiers fixed at import time (the root deck and the six
    note types) and those of the seven production subdecks are fourteen
    positive, pairwise distinct numbers. *)
Theorem fixed_ids_distinct_positive :
  length fixed_ids = 14%nat /\ NoDup fixed_ids /\ Forall (fun i => 0 < i) fixed_ids.
Proof.
  split; [reflexivity|]. split.
  - apply (bool_decide_unpack _). vm_compute. exact I.
  - unfold fixed_ids, production_deck_names. cbn [app map]. repeat constructor.
Qed.

End IdsMore.

(** ** The curriculum validator *)

Module ValidatorMore.
Import Py Curriculum ValidatorSpec ValidatorFacts.
Local Open Scope outcome_scope.

(** *** Acceptance, function by function *)

Lemma andthen_ok_iff (m k : outcome) : andthen m k = ok <-> m = ok /\ k = ok.
Proof.
  destruct m as [e|[]]; simpl.
  - split; [discriminate | intros [? _]; discriminate].
  - tauto.
Qed.

Lemma nonempty_str_iff x : nonempty_str x = true <-> is_nonempty_str x.
Proof.
  unfold is_nonempty_str. split.
  - destruct x as [| | | |[|c s]| |]; try discriminate. intros _. eexists. split; [reflexivity|discriminate].
  - intros (s & -> & Hs). destruct s; [congruence | reflexivity].
Qed.

Lemma guard_ok (b : bool) message : (if b then ok else raise message) = ok <-> b = true.
Proof. destruct b; split; (reflexivity || discriminate). Qed.

(** A loop over valid elements, when validity does not depend on the
    index. *)
Lemma for_enumerate_ok (f : json -> nat -> outcome) (P : json -> Prop) xs :
  (forall x i, f x i = ok <-> P x) ->
  forall i, for_enumerate f xs i = ok <-> Forall P xs.
Proof.
  intros Hf. induction xs as [|x xs IH]; intros i; cbn [for_enumerate].
  - split; [constructor | reflexivity].
  - rewrite andthen_ok_iff, Hf, IH. split.
    + intros [? ?]. constructor; assumption.
    + intros H. inversion H; subst. tauto.
Qed.

Lemma validate_example_ok example index path :
  _validate_example example index path = ok <-> valid_example example.
Proof.
  unfold _validate_example, valid_example. split.
  - destruct example as [| | | | | |d]; try discriminate.
    destruct (dict_get "word" d) as [word|] eqn:Hw; [|discriminate].
    rewrite guard_ok, nonempty_str_iff. intros H. eauto.
  - intros (d & word & -> & -> & H). rewrite guard_ok, nonempty_str_iff. exact H.
Qed.

Lemma validate_side_ok d where_ field :
  validate_side d where_ field = ok <-> valid_side d field.
Proof.
  unfold validate_side, valid_side. split.
  - destruct (dict_get field d) as [[| | | | | |side]|]; try discriminate.
    rewrite guard_ok. intros H. eauto.
  - intros (side & -> & H). rewrite guard_ok. exact H.
Qed.

Lemma validate_item_ok item index path :
  _validate_item item index path = ok <-> valid_item item.
Proof.
  unfold _validate_item, valid_item. split.
  - destruct item as [| | | | | |d]; try discriminate.
    destruct (dict_get "id" d) as [[| | | |[|c id]| |]|] eqn:Hid; try discriminate.
    destruct (dict_get "type" d) as [[| | | |type| |]|] eqn:Htype; try discriminate.
    intros H. exists d, (JStr (String c id)), type.
    split; [reflexivity|]. split; [exact Hid|].
    split; [eexists; split; [reflexivity | discriminate]|]. split; [exact Htype|].
    unfold valid_types in H. cbn [existsb] in H.
    destruct (String.eqb_spec type "sound") as [->|Hs];
      [|destruct (String.eqb_spec type "pattern") as [->|Hp];
        [|destruct (String.eqb_spec type "minimal_pair_sound") as [->|Hm];
          [|discriminate]]]; cbn in H.
    + left. split; [tauto|].
      destruct (dict_get "examples" d) as [[| | | | |[|ex exs]|]|]; try discriminate.
      eexists. split; [reflexivity|]. split; [discriminate|].
      eapply for_enumerate_ok; [|exact H]. intros. apply validate_example_ok.
    + left. split; [tauto|].
      destruct (dict_get "examples" d) as [[| | | | |[|ex exs]|]|]; try discriminate.
      eexists. split; [reflexivity|]. split; [discriminate|].
      eapply for_enumerate_ok; [|exact H]. intros. apply validate_example_ok.
    + right. split; [reflexivity|].
      apply andthen_ok_iff in H as [Hl Hr].
      split; eapply validate_side_ok; eassumption.
  - intros (d & id & type & -> & -> & (s & -> & Hs) & -> & Hkind).
    destruct s as [|c s]; [congruence|].
    destruct Hkind as [[Hty (examples & -> & Hne & Hexs)] | (-> & Hl & Hr)].
    + assert (Hloop : for_enumerate
          (fun example i =>
             _validate_example example i (indexed path index +:+ ".examples"))
          examples 0 = ok).
      { eapply for_enumerate_ok; [|exact Hexs]. intros. apply validate_example_ok. }
      destruct examples as [|ex exs]; [congruence|].
      destruct Hty as [-> | ->]; exact Hloop.
    + cbn. apply andthen_ok_iff. split; apply validate_side_ok; assumption.
Qed.

Lemma require_fields_in where_ fields d :
  require_fields where_ fields d = ok <-> Forall (fun f => dict_in f d = true) fields.
Proof. apply require_fields_ok. Qed.

Lemma dict_in_get {V} k (d : list (string * V)) :
  dict_in k d = true <-> exists v, dict_get k d = Some v.
Proof.
  unfold dict_in. destruct (dict_get k d); split; eauto; try discriminate.
  intros [? ?]. discriminate.
Qed.

Lemma isinstance_int_iff x :
  isinstance_int x = true <-> (exists n, x = JInt n) \/ (exists b, x = JBool b).
Proof.
  destruct x; simpl; split; eauto; try discriminate;
    intros [[? ?] | [? ?]]; discriminate.
Qed.

Lemma validate_letter_ok letter index path :
  _validate_letter letter index path = ok <-> valid_letter letter.
Proof.
  unfold _validate_letter, valid_letter. split.
  - destruct letter as [| | | | | |d]; try discriminate.
    rewrite andthen_ok_iff, require_fields_in. intros [Hfields H].
    inversion Hfields as [|? ? Hid Hf1]; subst. inversion Hf1 as [|? ? Hup Hf2]; subst.
    inversion Hf2 as [|? ? Hlo Hf3]; subst. inversion Hf3 as [|? ? Hord _]; subst.
    apply dict_in_get in Hid as [id Hid]. apply dict_in_get in Hord as [order Hord].
    rewrite Hid, Hord in H.
    apply andthen_ok_iff in H as [H1 H2].
    apply guard_ok, nonempty_str_iff in H1. apply guard_ok, isinstance_int_iff in H2.
    exists d, id, order. tauto.
  - intros (d & id & order & -> & Hid & Hne & Hup & Hlo & Hord & Hint).
    rewrite andthen_ok_iff, require_fields_in, Hid, Hord. split.
    + repeat constructor; try assumption; apply dict_in_get; eauto.
    + apply andthen_ok_iff.
      split; apply guard_ok; [apply nonempty_str_iff | apply isinstance_int_iff]; assumption.
Qed.

Lemma validate_confusable_ok confusable index path :
  _validate_confusable confusable index path = ok <-> valid_confusable confusable.
Proof.
  unfold _validate_confusable, valid_confusable. split.
  - destruct confusable as [| | | | | |d]; try discriminate.
    rewrite andthen_ok_iff, require_fields_in. intros [Hfields H].
    inversion Hfields as [|? ? Hid Hf1]; subst. inversion Hf1 as [|? ? Hl Hf2]; subst.
    inversion Hf2 as [|? ? Hr _]; subst.
    apply dict_in_get in Hid as [id Hid]. rewrite Hid in H.
    apply guard_ok, nonempty_str_iff in H.
    exists d, id. tauto.
  - intros (d & id & -> & Hid & Hne & Hl & Hr).
    rewrite andthen_ok_iff, require_fields_in, Hid. split.
    + repeat constructor; try assumption. apply dict_in_get. eauto.
    + apply guard_ok, nonempty_str_iff, Hne.
Qed.

Lemma validate_alphabet_ok alphabet path :
  _validate_alphabet alphabet path = ok <-> valid_alphabet alphabet.
Proof.
  unfold _validate_alphabet, valid_alphabet. split.
  - destruct alphabet as [| | | | | |d]; try discriminate.
    destruct (dict_get "letters" d) as [[| | | | |letters|]|] eqn:Hl; try discriminate.
    rewrite andthen_ok_iff. intros [Hletters Hconf].
    exists d, letters. split; [reflexivity|]. split; [exact Hl|]. split.
    + eapply for_enumerate_ok; [|exact Hletters]. intros. apply validate_letter_ok.
    + destruct (dict_get "confusables" d) as [[| | | | |confusables|]|];
        try discriminate; [right | left; reflexivity].
      eexists. split; [reflexivity|].
      eapply for_enumerate_ok; [|exact Hconf]. intros. apply validate_confusable_ok.
  - intros (d & letters & -> & -> & Hletters & Hconf).
    apply andthen_ok_iff. split.
    + eapply for_enumerate_ok; [|exact Hletters]. intros. apply validate_letter_ok.
    + destruct Hconf as [-> | (confusables & -> & Hc)]; [reflexivity|].
      eapply for_enumerate_ok; [|exact Hc]. intros. apply validate_confusable_ok.
Qed.

Lemma valid_item_id item : valid_item item -> exists id, item_id item = Some id /\ id <> "".
Proof.
  intros (d & id & type & -> & Hid & (s & -> & Hs) & _). exists s.
  unfold item_id. rewrite Hid. tauto.
Qed.

(** The loop of [_validate_items], from a set [seen_ids] of ids: it
    succeeds exactly on valid items whose ids are pairwise distinct and
    not in [seen_ids]. *)
Lemma validate_items_loop_ok path items : forall i (seen_ids : gset string),
  validate_items_loop items i path seen_ids = ok
  <-> Forall valid_item items
      /\ NoDup (map item_id items)
      /\ forall id, Some id ∈ map item_id items -> id ∉ seen_ids.
Proof.
  induction items as [|item items IH]; intros i seen_ids; cbn [validate_items_loop map].
  - split; [|reflexivity]. intros _. split; [constructor|]. split; [constructor|].
    intros id Hin. inversion Hin.
  - rewrite andthen_ok_iff, validate_item_ok. split.
    + intros [Hitem Hrest]. destruct (valid_item_id _ Hitem) as (id & Hid & _).
      rewrite Hid in Hrest |- *.
      destruct (bool_decide (id ∈ seen_ids)) eqn:Hseen; [discriminate|].
      apply bool_decide_eq_false in Hseen.
      apply IH in Hrest as (Hitems & Hnodup & Hfresh).
      split; [constructor; assumption|]. split.
      * constructor; [|exact Hnodup]. intros Hin. apply (Hfresh id Hin).
        apply elem_of_union. left. apply elem_of_singleton. reflexivity.
      * intros id' [Heq | Hin]%elem_of_cons.
        -- injection Heq as ->. exact Hseen.
        -- intros Hs. apply (Hfresh id' Hin). apply elem_of_union. right. exact Hs.
    + intros (Hitems & Hnodup & Hfresh). inversion Hitems as [|? ? Hitem Hrest]; subst.
      split; [exact Hitem|]. destruct (valid_item_id _ Hitem) as (id & Hid & _).
      rewrite Hid in Hnodup, Hfresh |- *. inversion Hnodup as [|? ? Hnotin Hnodup']; subst.
      rewrite bool_decide_eq_false_2 by (apply Hfresh; left).
      apply IH. split; [exact Hrest|]. split; [exact Hnodup'|].
      intros id' Hin [Heq%elem_of_singleton | Hs]%elem_of_union.
      * subst id'. contradiction.
      * apply (Hfresh id'); [right; exact Hin | exact Hs].
Qed.

(** *** Where an error points *)

Lemma starts_with_app p a : starts_with p (p +:+ a).
Proof. exists a. reflexivity. Qed.

Lemma starts_with_app_l p q a : starts_with p q -> starts_with p (q +:+ a).
Proof. intros [r ->]. exists (r +:+ a). apply append_assoc. Qed.

Lemma starts_with_indexed_id path index id :
  starts_with (indexed path index) (indexed_id path index id).
Proof. unfold indexed_id. apply starts_with_app. Qed.

Lemma starts_with_indexed path index : starts_with path (indexed path index).
Proof. unfold indexed. apply starts_with_app. Qed.

Lemma starts_with_trans p q r : starts_with p q -> starts_with q r -> starts_with p r.
Proof. intros [a ->] [b ->]. exists (a +:+ b). apply append_assoc. Qed.

Create HintDb located.
#[local] Hint Resolve starts_with_app starts_with_app_l starts_with_indexed_id
  starts_with_indexed : located.

Ltac located := simpl error_location; unfold raise; eauto 6 with located.

Lemma require_fields_error where_ fields d e :
  require_fields where_ fields d = inl e -> starts_with where_ (error_location e).
Proof.
  induction fields as [|f fields IH]; simpl; [discriminate|].
  destruct (dict_in f d); [exact IH|]. intros [= <-]. located.
Qed.

Lemma for_enumerate_error (f : json -> nat -> outcome) (p : string) xs :
  (forall x i e, f x i = inl e -> starts_with p (error_location e)) ->
  forall i e, for_enumerate f xs i = inl e -> starts_with p (error_location e).
Proof.
  intros Hf. induction xs as [|x xs IH]; intros i e; cbn [for_enumerate]; [discriminate|].
  destruct (f x i) as [e'|[]] eqn:Hx; simpl.
  - intros [= <-]. eapply Hf, Hx.
  - apply IH.
Qed.

Lemma validate_example_error example index path e :
  _validate_example example index path = inl e ->
  starts_with path (error_location e).
Proof.
  unfold _validate_example.
  destruct example as [| | | | | |d];
    try (intros [= <-]; located).
  destruct (dict_get "word" d) as [word|]; [|intros [= <-]; located].
  destruct (nonempty_str word); [discriminate|]. intros [= <-]. located.
Qed.

Lemma validate_side_error d where_ field e :
  validate_side d where_ field = inl e -> starts_with where_ (error_location e).
Proof.
  unfold validate_side.
  destruct (dict_get field d) as [[| | | | | |side]|]; try (intros [= <-]; located).
  destruct (dict_in "word" side); [discriminate|]. intros [= <-]. located.
Qed.

Lemma validate_item_error item index path e :
  _validate_item item index path = inl e ->
  starts_with (indexed path index) (error_location e).
Proof.
  unfold _validate_item.
  destruct item as [| | | | | |d]; try (intros [= <-]; located).
  destruct (dict_get "id" d) as [[| | | |[|c id]| |]|]; try (intros [= <-]; located).
  destruct (dict_get "type" d) as [[| | | |type| |]|]; try (intros [= <-]; located).
  destruct (negb (existsb (String.eqb type) valid_types)); [intros [= <-]; located|].
  destruct (String.eqb type "sound" || String.eqb type "pattern").
  - destruct (dict_get "examples" d) as [[| | | | |[|ex exs]|]|];
      try (intros [= <-]; located).
    intros H. eapply starts_with_trans; [|eapply for_enumerate_error; [|exact H]].
    + apply starts_with_app.
    + intros x i e'. apply validate_example_error.
  - destruct (String.eqb type "minimal_pair_sound"); [|discriminate].
    destruct (validate_side d (indexed_id path index (String c id)) "left") as [e'|[]] eqn:Hl;
      simpl.
    + intros [= <-]. eapply starts_with_trans; [|eapply validate_side_error, Hl]. located.
    + intros Hr. eapply starts_with_trans; [|eapply validate_side_error, Hr]. located.
Qed.

Lemma validate_items_loop_error path items : forall i seen_ids e,
  validate_items_loop items i path seen_ids = inl e ->
  exists k, (k < length items)%nat
            /\ starts_with (indexed path (i + k)) (error_location e).
Proof.
  induction items as [|item items IH]; intros i seen_ids e; cbn [validate_items_loop];
    [discriminate|].
  destruct (_validate_item item i path) as [e'|[]] eqn:Hitem; simpl.
  - intros [= <-]. exists 0%nat. rewrite Nat.add_0_r. split; [simpl; lia|].
    eapply validate_item_error, Hitem.
  - destruct (item_id item) as [id|]; [|discriminate].
    destruct (bool_decide (id ∈ seen_ids)).
    + intros [= <-]. exists 0%nat. rewrite Nat.add_0_r. split; [simpl; lia|]. located.
    + intros H. apply IH in H as (k & Hk & Hloc). exists (S k).
      split; [simpl; lia|]. replace (i + S k)%nat with (S i + k)%nat by lia. exact Hloc.
Qed.

Lemma validate_ok (data : json) :
  validate data = inr tt
  <-> exists c meta alphabet items,
        data = JObj c
        /\ dict_get "meta" c = Some (JObj meta)
        /\ dict_in "dialect" meta = true /\ dict_in "version" meta = true
        /\ dict_get "alphabet" c = Some alphabet /\ valid_alphabet alphabet
        /\ dict_get "items" c = Some (JArr items)
        /\ Forall valid_item items /\ NoDup (map item_id items).
Proof.
  unfold validate. split.
  - destruct data as [| | | | | |c]; try discriminate.
    destruct (dict_get "meta" c) as [meta|] eqn:Emeta; [|discriminate].
    destruct (dict_get "alphabet" c) as [alphabet|] eqn:Ealpha; [|discriminate].
    destruct (dict_get "items" c) as [items|] eqn:Eitems; [|discriminate].
    intros [Hmeta [Halpha Hitems]%andthen_ok_iff]%andthen_ok_iff.
    destruct meta as [| | | | | |meta]; try discriminate.
    apply validate_meta_ok in Hmeta as [Hd Hv].
    apply validate_alphabet_ok in Halpha.
    destruct items as [| | | | |l|]; try discriminate.
    apply validate_items_loop_ok in Hitems as (Hl & Hnodup & _).
    exists c, meta, alphabet, l. tauto.
  - intros (c & meta & alphabet & items & -> & -> & Hd & Hv & -> & Halpha & -> & Hl & Hn).
    apply andthen_ok_iff. split; [apply validate_meta_ok; tauto|].
    apply andthen_ok_iff. split; [apply validate_alphabet_ok, Halpha|].
    apply validate_items_loop_ok.
    split; [exact Hl|]. split; [exact Hn|]. intros id _. apply not_elem_of_empty.
Qed.

(** *** The properties *)

(** X7. [_validate_item] accepts exactly the valid items, whatever the index
    and the path: an object with a non-empty string [id] and a [type] among
    [sound], [pattern], [minimal_pair_sound]; for the first two, a
    non-empty array [examples] of objects whose [word] is a non-empty
    string; for the third, objects [left] and [right] that have a [word]
    key. *)
Theorem validate_item_accepts (item : json) (index : nat) (path : string) :
  _validate_item item index path = inr tt <-> valid_item item.
Proof. apply validate_item_ok. Qed.

(** X8. [_validate_items] accepts exactly the arrays of valid items whose
    ids are pairwise distinct. *)
Theorem validate_items_accepts (items : json) (path : string) :
  _validate_items items path = inr tt
  <-> exists l, items = JArr l /\ Forall valid_item l /\ NoDup (map item_id l).
Proof.
  unfold _validate_items. split.
  - destruct items as [| | | | |l|]; try discriminate.
    intros (Hitems & Hnodup & _)%validate_items_loop_ok. eauto.
  - intros (l & -> & Hitems & Hnodup). apply validate_items_loop_ok.
    split; [exact Hitems|]. split; [exact Hnodup|]. intros id _. apply not_elem_of_empty.
Qed.

(** X9. The checks of [load_curriculum] accept exactly the documents that
    are an object with a [meta] object holding the keys [dialect] and
    [version], a valid [alphabet], and an [items] array of valid items
    with pairwise distinct ids. *)
Theorem validate_accepts (data : json) :
  validate data = inr tt
  <-> exists c meta alphabet items,
        data = JObj c
        /\ dict_get "meta" c = Some (JObj meta)
        /\ dict_in "dialect" meta = true /\ dict_in "version" meta = true
        /\ dict_get "alphabet" c = Some alphabet /\ valid_alphabet alphabet
        /\ dict_get "items" c = Some (JArr items)
        /\ Forall valid_item items /\ NoDup (map item_id items).
Proof. apply validate_ok. Qed.



(** *** Selecting items by type *)

Lemma select_by_type_objs item_type items :
  Forall (fun item => exists d, item = JObj d) items ->
  select_by_type item_type items = Some (List.filter (has_type item_type) items).
Proof.
  induction 1 as [|item items [d ->] _ IH]; cbn [select_by_type List.filter has_type].
  - reflexivity.
  - rewrite IH. destruct (type_is item_type d); reflexivity.
Qed.

Lemma select_by_type_raises item_type items :
  ~ Forall (fun item => exists d, item = JObj d) items ->
  select_by_type item_type items = None.
Proof.
  induction items as [|item items IH]; intros Hnot.
  - exfalso. apply Hnot. constructor.
  - destruct item as [| | | | | |d]; try reflexivity.
    cbn [select_by_type]. rewrite IH; [reflexivity|].
    intros H. apply Hnot. constructor; [eauto | exact H].
Qed.

(** X11. [get_items_by_type] on a curriculum object: without an [items] key
    the result is the empty list; with an [items] array of objects it is
    the sub-list, in document order, of the items whose [type] is the
    string asked for; and it raises as soon as an element of the array is
    not an object. *)
Theorem get_items_by_type_spec (c : list (string * json)) (item_type : string) :
  (dict_get "items" c = None -> get_items_by_type (JObj c) item_type = Some [])
  /\ (forall items,
        dict_get "items" c = Some (JArr items) ->
        Forall (fun item => exists d, item = JObj d) items ->
        get_items_by_type (JObj c) item_type
        = Some (List.filter (has_type item_type) items))
  /\ (forall items,
        dict_get "items" c = Some (JArr items) ->
        ~ Forall (fun item => exists d, item = JObj d) items ->
        get_items_by_type (JObj c) item_type = None).
Proof.
  cbn [get_items_by_type]. split; [intros ->; reflexivity|]. split.
  - intros items -> H. apply select_by_type_objs, H.
  - intros items -> H. apply select_by_type_raises, H.
Qed.

Lemma get_items_by_type_spec_witness :
  get_items_by_type
    (JObj [("items", JArr [sound_item "a"; JObj [("id", JStr "b")]; sound_item "c"])])
    "sound"
  = Some [sound_item "a"; sound_item "c"].
Proof.
  refine (eq_trans
            (proj1 (proj2 (get_items_by_type_spec
               [("items", JArr [sound_item "a"; JObj [("id", JStr "b")]; sound_item "c"])]
               "sound")) _ eq_refl _)
            eq_refl).
  repeat constructor; eexists; reflexivity.
Defined.

Lemma valid_item_one_type item :
  valid_item item ->
  (exists d, item = JObj d)
  /\ ((has_type "sound" item = true /\ has_type "pattern" item = false
       /\ has_type "minimal_pair_sound" item = false)
      \/ (has_type "sound" item = false /\ has_type "pattern" item = true
          /\ has_type "minimal_pair_sound" item = false)
      \/ (has_type "sound" item = false /\ has_type "pattern" item = false
          /\ has_type "minimal_pair_sound" item = true)).
Proof.
  intros (d & id & type & -> & _ & _ & Htype & Hkind). split; [eauto|].
  unfold has_type, type_is. rewrite Htype.
  destruct Hkind as [[[-> | ->] _] | [-> _]]; cbn; tauto.
Qed.

Lemma three_way_count (p1 p2 p3 : json -> bool) items :
  Forall (fun x => (p1 x = true /\ p2 x = false /\ p3 x = false)
                   \/ (p1 x = false /\ p2 x = true /\ p3 x = false)
                   \/ (p1 x = false /\ p2 x = false /\ p3 x = true)) items ->
  (length (List.filter p1 items) + length (List.filter p2 items)
   + length (List.filter p3 items) = length items)%nat.
Proof.
  induction 1 as [|x items Hx _ IH]; [reflexivity|].
  cbn [List.filter].
  destruct Hx as [(-> & -> & ->) | [(-> & -> & ->) | (-> & -> & ->)]];
    cbn [length]; lia.
Qed.

(** X12. On a curriculum that passed validation, [get_items_by_type] never
    raises, and the three item types sort the items into three lists that
    leave no item out and share none: their lengths add up to the number
    of items. *)
Theorem get_items_by_type_partition (data : json) :
  validate data = inr tt ->
  exists items sounds patterns pairs,
    (exists c, data = JObj c /\ dict_get "items" c = Some (JArr items))
    /\ get_items_by_type data "sound" = Some sounds
    /\ get_items_by_type data "pattern" = Some patterns
    /\ get_items_by_type data "minimal_pair_sound" = Some pairs
    /\ (length sounds + length patterns + length pairs = length items)%nat
    /\ forall item, item ∈ items ->
         (item ∈ sounds \/ item ∈ patterns \/ item ∈ pairs).
Proof.
  unfold validate. destruct data as [| | | | | |c]; try discriminate.
  destruct (dict_get "meta" c) as [meta|]; [|discriminate].
  destruct (dict_get "alphabet" c) as [alphabet|]; [|discriminate].
  destruct (dict_get "items" c) as [items|] eqn:Hitems; [|discriminate].
  intros [_ [_ Hv]%andthen_ok_iff]%andthen_ok_iff.
  destruct items as [| | | | |l|]; try discriminate.
  apply validate_items_loop_ok in Hv as (Hl & _ & _).
  assert (Hobjs : Forall (fun item => exists d, item = JObj d) l).
  { eapply Forall_impl; [exact Hl|]. intros item Hitem. apply valid_item_one_type, Hitem. }
  assert (Hone := Hl). eapply Forall_impl in Hone;
    [|intros item Hitem; exact (proj2 (valid_item_one_type item Hitem))].
  exists l, (List.filter (has_type "sound") l), (List.filter (has_type "pattern") l),
    (List.filter (has_type "minimal_pair_sound") l).
  split; [eauto|]. cbn [get_items_by_type]. rewrite Hitems.
  rewrite !select_by_type_objs by exact Hobjs.
  split; [reflexivity|]. split; [reflexivity|]. split; [reflexivity|].
  split; [apply three_way_count, Hone|].
  intros item Hin. rewrite Forall_forall in Hone. specialize (Hone item Hin).
  rewrite !list_elem_of_In, !filter_In. rewrite list_elem_of_In in Hin.
  destruct Hone as [(-> & _) | [(_ & -> & _) | (_ & _ & ->)]]; tauto.
Qed.

Lemma get_items_by_type_partition_witness :
  exists items sounds patterns pairs,
    (exists c, curriculum_without_confusables = JObj c
               /\ dict_get "items" c = Some (JArr items))
    /\ get_items_by_type curriculum_without_confusables "sound" = Some sounds
    /\ get_items_by_type curriculum_without_confusables "pattern" = Some patterns
    /\ get_items_by_type curriculum_without_confusables "minimal_pair_sound" = Some pairs
    /\ (length sounds + length patterns + length pairs = length items)%nat
    /\ forall item, item ∈ items ->
         (item ∈ sounds \/ item ∈ patterns \/ item ∈ pairs).
Proof. apply (get_items_by_type_partition curriculum_without_confusables). reflexivity. Defined.

End ValidatorMore.

(** ** The curriculum normaliser *)

Module NormalizerMore.
Import Py Curriculum ValidatorSpec StoreSpec NormalizerSpec.
Import StoreFacts NormalizerFacts ValidatorMore.

(** *** What an item keeps *)

Lemma notes_default_get es k :
  k <> "notes" ->
  dict_get k (if dict_in "notes" es then es else dict_set "notes" (JStr "") es)
  = dict_get k es.
Proof.
  intros Hk. destruct (dict_in "notes" es); [reflexivity|].
  apply dict_get_set_ne. congruence.
Qed.

Lemma graphemes_defaulted_other es k :
  k <> "graphemes" -> dict_get k (graphemes_defaulted es) = dict_get k es.
Proof.
  intros Hk. unfold graphemes_defaulted.
  destruct (dict_get "graphemes" es) as [[]|]; try reflexivity;
    apply dict_get_set_ne; congruence.
Qed.

Lemma normalized_item_kept es : item_kept (JObj es) (normalized_item (JObj es)).
Proof.
  eexists es, _. split; [reflexivity|]. split; [apply normalized_item_obj|].
  split; [|split].
  - intros k Hk. rewrite !not_elem_of_cons in Hk. destruct Hk as (Hg & Hn & _).
    rewrite notes_default_get by exact Hn. apply graphemes_defaulted_other, Hg.
  - intros v Hv.
    assert (Hnotes : dict_get "notes" (graphemes_defaulted es) = Some v).
    { rewrite graphemes_defaulted_other by discriminate. exact Hv. }
    unfold dict_in. rewrite Hnotes. exact Hnotes.
  - intros v Hv Hnostr. rewrite notes_default_get by discriminate.
    rewrite (graphemes_defaulted_fixed es v Hv Hnostr). exact Hv.
Qed.

Lemma item_kept_get item out es oes k :
  item_kept item out -> item = JObj es -> out = JObj oes ->
  k <> "graphemes" -> k <> "notes" -> dict_get k oes = dict_get k es.
Proof.
  intros (es' & oes' & -> & -> & Hsame & _) [= <-] [= <-] Hg Hn.
  apply Hsame. rewrite !not_elem_of_cons. split; [exact Hg|]. split; [exact Hn|].
  apply not_elem_of_nil.
Qed.

Lemma item_kept_id item out : item_kept item out -> item_id out = item_id item.
Proof.
  intros H. pose proof H as (es & oes & -> & -> & _). cbn [item_id].
  rewrite (item_kept_get _ _ es oes "id" H) by (reflexivity || discriminate).
  reflexivity.
Qed.

Lemma item_kept_type item_type item out :
  item_kept item out -> has_type item_type out = has_type item_type item.
Proof.
  intros H. pose proof H as (es & oes & -> & -> & _). cbn [has_type]. unfold type_is.
  rewrite (item_kept_get _ _ es oes "type" H) by (reflexivity || discriminate).
  reflexivity.
Qed.

Lemma item_kept_valid item out : item_kept item out -> valid_item item -> valid_item out.
Proof.
  intros H (d & id & type & -> & Hid & Hne & Htype & Hkind).
  pose proof H as (es & oes & [= <-] & -> & _).
  assert (Hget : forall k, k <> "graphemes" -> k <> "notes" ->
                           dict_get k oes = dict_get k d).
  { intros k. apply (item_kept_get _ _ d oes k H); reflexivity. }
  exists oes, id, type. split; [reflexivity|].
  split; [rewrite Hget by discriminate; exact Hid|]. split; [exact Hne|].
  split; [rewrite Hget by discriminate; exact Htype|].
  destruct Hkind as [[Ht (examples & Hex & Hrest)] | (Ht & Hleft & Hright)]; [left | right].
  - split; [exact Ht|]. exists examples. rewrite Hget by discriminate. tauto.
  - unfold valid_side in *. rewrite !Hget by discriminate. tauto.
Qed.

(** *** What the document keeps *)

Lemma dict_set_keys {V} k (v : V) d :
  dict_in k d = true -> map fst (dict_set k v d) = map fst d.
Proof.
  unfold dict_in. induction d as [|[k' v'] d IH]; cbn [dict_get dict_set map fst].
  - discriminate.
  - destruct (String.eqb k k'); [reflexivity|]. intros H. cbn [map fst]. rewrite IH by exact H.
    reflexivity.
Qed.

Lemma with_confusables_kept akts :
  exists oakts,
    with_confusables (JObj akts) = JObj oakts
    /\ entries_kept akts oakts /\ same_outside ["confusables"] akts oakts.
Proof.
  cbn [with_confusables]. destruct (dict_in "confusables" akts) eqn:Hconf.
  - exists akts. split; [reflexivity|]. split; [intros k v H; exact H | intros k _; reflexivity].
  - eexists. split; [reflexivity|]. split.
    + intros k v Hk. rewrite dict_get_set_ne; [exact Hk|].
      intros <-. unfold dict_in in Hconf. rewrite Hk in Hconf. discriminate.
    + intros k Hk. rewrite not_elem_of_cons in Hk. destruct Hk as [Hk _].
      apply dict_get_set_ne. congruence.
Qed.

Lemma normalized_kept d : well_shaped d -> kept d (normalized d).
Proof.
  intros (kts & akts & its & -> & Halpha & Hitems & Hobjs).
  destruct (normalized_entries kts akts its Halpha Hitems) as (okts & Hn & Hoa & Hoi).
  destruct (with_confusables_kept akts) as (oakts & Hwc & Hkept & Hsame).
  exists kts, akts, its, okts, oakts, (map normalized_item its).
  rewrite Hwc in Hoa. repeat (split; [assumption || reflexivity|]).
  cbn [normalized] in Hn. injection Hn as <-. rewrite Hitems.
  unfold with_alphabet_confusables. rewrite Halpha. split; [|split; [|split; [|split]]].
  - rewrite !dict_set_keys; [reflexivity | unfold dict_in; rewrite Halpha; reflexivity |].
    unfold dict_in. rewrite dict_get_set_ne by discriminate. rewrite Hitems. reflexivity.
  - intros k Hk. rewrite !not_elem_of_cons in Hk. destruct Hk as (Hi & Ha & _).
    rewrite !dict_get_set_ne by congruence. reflexivity.
  - exact Hkept.
  - exact Hsame.
  - apply Forall2_fmap_r, Forall_Forall2_diag.
    eapply Forall_impl; [exact Hobjs|]. intros item [es ->]. apply normalized_item_kept.
Qed.

(** *** The normalised document is valid *)

Lemma Forall2_kept_valid its oits :
  Forall2 item_kept its oits -> Forall valid_item its -> Forall valid_item oits.
Proof.
  induction 1 as [|item out its oits Hk _ IH]; intros Hv; [constructor|].
  inversion Hv; subst. constructor; [eapply item_kept_valid; eassumption | apply IH; assumption].
Qed.

Lemma Forall2_kept_ids its oits :
  Forall2 item_kept its oits -> map item_id oits = map item_id its.
Proof.
  induction 1 as [|item out its oits Hk _ IH]; [reflexivity|].
  cbn [map]. rewrite IH, (item_kept_id _ _ Hk). reflexivity.
Qed.

Lemma Forall2_kept_filter item_type its oits :
  Forall2 item_kept its oits ->
  Forall2 item_kept (List.filter (has_type item_type) its)
    (List.filter (has_type item_type) oits).
Proof.
  induction 1 as [|item out its oits Hk _ IH]; [constructor|].
  cbn [List.filter]. rewrite (item_kept_type item_type _ _ Hk).
  destruct (has_type item_type item); [constructor; assumption | exact IH].
Qed.

Lemma filter_normalized item_type its :
  Forall is_obj its ->
  List.filter (has_type item_type) (map normalized_item its)
  = map normalized_item (List.filter (has_type item_type) its).
Proof.
  induction 1 as [|item its [es ->] _ IH]; [reflexivity|].
  cbn [map List.filter].
  rewrite (item_kept_type item_type _ _ (normalized_item_kept es)).
  destruct (has_type item_type (JObj es)); cbn [map]; rewrite IH; reflexivity.
Qed.

Lemma with_confusables_valid alphabet :
  valid_alphabet alphabet -> valid_alphabet (with_confusables alphabet).
Proof.
  intros (d & letters & -> & Hletters & Hvl & Hconf).
  cbn [with_confusables]. destruct (dict_in "confusables" d) eqn:Hin.
  - exists d, letters. tauto.
  - eexists _, letters. split; [reflexivity|].
    split; [rewrite dict_get_set_ne by discriminate; exact Hletters|].
    split; [exact Hvl|]. right. exists []. split; [apply dict_get_set_eq | constructor].
Qed.

Lemma normalized_valid d : validate d = inr tt -> validate (normalized d) = inr tt.
Proof.
  intros Hvalid. pose proof (normalized_kept d (validate_well_shaped d Hvalid)) as Hkept.
  apply validate_ok in Hvalid
    as (c & meta & alphabet & items & -> & Hmeta & Hd & Hv & Ha & Hvalid & Hi & Hl & Hn).
  pose proof Hvalid as (akts & letters & -> & _).
  destruct (normalized_entries c akts items Ha Hi) as (okts & Hnorm & Hoa & Hoi).
  rewrite Hnorm in Hkept |- *.
  destruct Hkept as (kts & akts' & its & okts' & oakts & oits & [= <-] & Ha' & Hi' & [= <-]
                     & _ & Hoi' & _ & Hsame & _ & _ & Hitems).
  rewrite Hi in Hi'. injection Hi' as <-. rewrite Hoi in Hoi'. injection Hoi' as <-.
  apply validate_ok. exists okts, meta, (with_confusables (JObj akts)), (map normalized_item items).
  split; [reflexivity|]. split.
  { rewrite Hsame; [exact Hmeta|]. rewrite !not_elem_of_cons.
    split; [discriminate|]. split; [discriminate|]. apply not_elem_of_nil. }
  split; [exact Hd|]. split; [exact Hv|]. split; [exact Hoa|].
  split; [apply with_confusables_valid, Hvalid|]. split; [exact Hoi|].
  split; [eapply Forall2_kept_valid; eassumption|].
  rewrite (Forall2_kept_ids _ _ Hitems). exact Hn.
Qed.

(** *** The properties *)

(** X13. What [load_curriculum] returns is itself a valid curriculum: on a
    validated document, loaded into any store, the document the normaliser
    returns passes every check of the validator. *)
Theorem normalize_keeps_valid (d : json) (h0 : heap) (r : pyval) (h : heap) :
  validate d = inr tt ->
  load d h0 = (r, h) ->
  exists r' h' out,
    _normalize_curriculum r h = Some (r', h')
    /\ represents h' r' out
    /\ validate out = inr tt.
Proof.
  intros Hvalid Hload.
  destruct (normalize_loaded d h0 r h (validate_well_shaped d Hvalid) Hload)
    as (h' & Hrun & Hrep & _).
  exists (VRef (length h)), h', (normalized d).
  split; [exact Hrun|]. split; [exact Hrep|]. apply normalized_valid, Hvalid.
Qed.

Lemma normalize_keeps_valid_witness :
  exists r' h' out,
    _normalize_curriculum (load curriculum_without_confusables []).1
      (load curriculum_without_confusables []).2 = Some (r', h')
    /\ represents h' r' out
    /\ validate out = inr tt.
Proof.
  apply (normalize_keeps_valid curriculum_without_confusables []); reflexivity.
Defined.

(** X14. The normaliser only adds defaults.  On a validated document,
    loaded into any store, the document it returns has the same top-level
    keys in the same order and the same sections other than [items] and
    [alphabet]; the alphabet keeps every entry it had and differs at most
    in [confusables]; there are as many items, in the same order, and each
    keeps every field other than [graphemes] and [notes], the [notes] it
    had, and the [graphemes] it had unless they were a string. *)
Theorem normalize_keeps_fields (d : json) (h0 : heap) (r : pyval) (h : heap) :
  validate d = inr tt ->
  load d h0 = (r, h) ->
  exists r' h' out,
    _normalize_curriculum r h = Some (r', h')
    /\ represents h' r' out
    /\ kept d out.
Proof.
  intros Hvalid%validate_well_shaped Hload.
  destruct (normalize_loaded d h0 r h Hvalid Hload) as (h' & Hrun & Hrep & _).
  exists (VRef (length h)), h', (normalized d).
  split; [exact Hrun|]. split; [exact Hrep|]. apply normalized_kept, Hvalid.
Qed.

Lemma normalize_keeps_fields_witness :
  exists r' h' out,
    _normalize_curriculum (load curriculum_without_confusables []).1
      (load curriculum_without_confusables []).2 = Some (r', h')
    /\ represents h' r' out
    /\ kept curriculum_without_confusables out.
Proof.
  apply (normalize_keeps_fields curriculum_without_confusables []); reflexivity.
Defined.

(** X15. Selecting by type commutes with normalising.  On a validated
    document, loaded into any store, [get_items_by_type] applied to the
    document the normaliser returns selects, for every type, the items at
    the places where it selects them in the input: the two selections
    have the same ids in the same order, item for item normalised. *)
Theorem get_items_by_type_normalized (d : json) (h0 : heap) (r : pyval) (h : heap)
    (item_type : string) :
  validate d = inr tt ->
  load d h0 = (r, h) ->
  exists r' h' out selected selected',
    _normalize_curriculum r h = Some (r', h')
    /\ represents h' r' out
    /\ get_items_by_type d item_type = Some selected
    /\ get_items_by_type out item_type = Some selected'
    /\ selected' = map normalized_item selected
    /\ map item_id selected' = map item_id selected.
Proof.
  intros Hvalid Hload.
  pose proof (validate_well_shaped d Hvalid) as Hshape.
  destruct (normalize_loaded d h0 r h Hshape Hload) as (h' & Hrun & Hrep & _).
  destruct Hshape as (kts & akts & its & -> & Halpha & Hitems & Hobjs).
  destruct (normalized_entries kts akts its Halpha Hitems) as (okts & Hn & _ & Hoi).
  assert (Hkept : Forall2 item_kept its (map normalized_item its)).
  { apply Forall2_fmap_r, Forall_Forall2_diag.
    eapply Forall_impl; [exact Hobjs|]. intros item [es ->]. apply normalized_item_kept. }
  pose proof (filter_normalized item_type its Hobjs) as Hfilter.
  exists (VRef (length h)), h', (JObj okts), (List.filter (has_type item_type) its),
    (List.filter (has_type item_type) (map normalized_item its)).
  rewrite Hn in Hrep. split; [exact Hrun|]. split; [exact Hrep|].
  cbn [get_items_by_type]. rewrite Hitems, Hoi.
  split; [apply select_by_type_objs; exact Hobjs|].
  split.
  { apply select_by_type_objs, Forall_fmap.
    eapply Forall_impl; [exact Hobjs|]. intros item [es ->]. eexists. apply normalized_item_obj. }
  split; [exact Hfilter|].
  apply Forall2_kept_ids, Forall2_kept_filter, Hkept.
Qed.

Lemma get_items_by_type_normalized_witness :
  exists r' h' out selected selected',
    _normalize_curriculum (load curriculum_without_confusables []).1
      (load curriculum_without_confusables []).2 = Some (r', h')
    /\ represents h' r' out
    /\ get_items_by_type curriculum_without_confusables "sound" = Some selected
    /\ get_items_by_type out "sound" = Some selected'
    /\ selected' = map normalized_item selected
    /\ map item_id selected' = map item_id selected.
Proof.
  apply (get_items_by_type_normalized curriculum_without_confusables []); reflexivity.
Defined.

End NormalizerMore.

(** ** The alphabet-order generator *)

Module AlphabetOrderMore.
Import Py AlphabetOrder AlphabetOrderSpec AlphabetOrderFacts.

(** *** Decimal numerals *)

Lemma str_int_inj a b : str_int a = str_int b -> a = b.
Proof.
  unfold str_int. intros H. apply DecimalZ.to_int_inj.
  assert (Hisi : forall n,
             NilZero.int_of_string (NilZero.string_of_int (Z.to_int n)) = Some (Z.to_int n)).
  { intros n. apply NilZero.isi; destruct n as [|q|q]; try discriminate;
      cbn [Z.to_int]; intros [= Hnil];
      exact (DecimalPos.Unsigned.to_uint_nonnil q Hnil). }
  pose proof (Hisi a) as Ha. rewrite H, Hisi in Ha. congruence.
Qed.

Lemma append_inv_head (prefix a b : string) : prefix +:+ a = prefix +:+ b -> a = b.
Proof.
  induction prefix as [|c prefix IH]; cbn [String.append]; [tauto|].
  intros [= H]. apply IH, H.
Qed.

(** *** Sorting *)

Lemma insert_by_perm {A} (key : A -> Z) x l : insert_by key x l ≡ₚ x :: l.
Proof.
  induction l as [|y l IH]; cbn [insert_by]; [reflexivity|].
  destruct (key x <=? key y); [reflexivity|].
  rewrite IH. apply Permutation_swap.
Qed.

Lemma sorted_perm {A} (key : A -> Z) xs : sorted key xs ≡ₚ xs.
Proof.
  induction xs as [|x xs IH]; cbn [sorted]; [reflexivity|].
  rewrite insert_by_perm, IH. reflexivity.
Qed.

Lemma insert_by_sorted {A} (key : A -> Z) x l :
  Sorted.StronglySorted (fun a b => key a <= key b) l ->
  Sorted.StronglySorted (fun a b => key a <= key b) (insert_by key x l).
Proof.
  induction 1 as [|y l Hl IH Hy]; cbn [insert_by].
  - constructor; constructor.
  - destruct (Z.leb_spec (key x) (key y)) as [Hle | Hgt].
    + constructor; [constructor; assumption|].
      constructor; [exact Hle|].
      eapply Forall_impl; [exact Hy|]. intros z Hz. cbn beta in *. lia.
    + constructor; [exact IH|].
      rewrite insert_by_perm. constructor; [lia | exact Hy].
Qed.

Lemma sorted_sorted {A} (key : A -> Z) xs :
  Sorted.StronglySorted (fun a b => key a <= key b) (sorted key xs).
Proof.
  induction xs as [|x xs IH]; cbn [sorted]; [constructor|].
  apply insert_by_sorted, IH.
Qed.

Lemma sorted_lookup_le {A} (key : A -> Z) l : forall j k a b,
  Sorted.StronglySorted (fun a b => key a <= key b) l ->
  (j <= k)%nat -> l !! j = Some a -> l !! k = Some b -> key a <= key b.
Proof.
  intros j k a b Hs. revert j k.
  induction Hs as [|y l Hl IH Hy]; intros j k Hjk Hj Hk.
  - rewrite lookup_nil in Hj. discriminate.
  - destruct j as [|j], k as [|k]; cbn in Hj, Hk.
    + injection Hj as <-. injection Hk as <-. lia.
    + injection Hj as <-. rewrite Forall_forall in Hy.
      apply Hy. eapply list_elem_of_lookup_2, Hk.
    + lia.
    + apply (IH j k); [lia | assumption..].
Qed.

(** *** Indexing *)

Lemma index_nonneg {A} (xs : list A) i a :
  0 <= i -> index xs i = Some a -> xs !! Z.to_nat i = Some a.
Proof.
  unfold index. intros Hi. destruct (Z.ltb_spec i 0); [lia|].
  destruct ((0 <=? i) && (i <? Z.of_nat (length xs))); [tauto | discriminate].
Qed.

Lemma index_in_range {A} (xs : list A) i :
  - Z.of_nat (length xs) <= i < Z.of_nat (length xs) -> is_Some (index xs i).
Proof.
  unfold index. intros Hi.
  set (j := if i <? 0 then i + Z.of_nat (length xs) else i).
  assert (Hj : 0 <= j < Z.of_nat (length xs)).
  { subst j. destruct (Z.ltb_spec i 0); lia. }
  destruct (Z.leb_spec 0 j); [|lia]. destruct (Z.ltb_spec j (Z.of_nat (length xs))); [|lia].
  cbn [andb]. apply lookup_lt_is_Some. lia.
Qed.

Lemma index_below {A} (xs : list A) i : i < - Z.of_nat (length xs) -> index xs i = None.
Proof.
  unfold index. intros Hi. destruct (Z.ltb_spec i 0); [|lia].
  destruct (Z.leb_spec 0 (i + Z.of_nat (length xs))); [lia | reflexivity].
Qed.

Lemma range_length start stop : length (range start stop) = Z.to_nat (stop - start).
Proof. unfold range. rewrite length_map, length_seq. reflexivity. Qed.

Lemma range_bounds start stop : Forall (fun i => start <= i < stop) (range start stop).
Proof.
  apply Forall_lookup_2. intros k i Hk.
  pose proof (lookup_lt_Some _ _ _ Hk) as Hlt. rewrite range_length in Hlt.
  apply range_lookup in Hk. lia.
Qed.

Lemma range_first start stop : start < stop -> exists rest, range start stop = start :: rest.
Proof.
  intros Hlt. unfold range.
  destruct (Z.to_nat (stop - start)) as [|n] eqn:Hn; [lia|].
  cbn [seq map]. rewrite Z.add_0_r. eauto.
Qed.

(** *** The loop *)

Lemma loop_finished sorted_letters window_size is_ :
  Forall (fun i => is_Some (index sorted_letters i)) is_ ->
  exists entries,
    loop sorted_letters window_size is_ = (entries, true)
    /\ length entries = length is_.
Proof.
  induction 1 as [|i rest [answer_letter Hi] _ (entries & IH & Hlen)]; cbn [loop].
  - exists []. split; reflexivity.
  - rewrite Hi, IH. eexists. split; [reflexivity|]. cbn [length]. rewrite Hlen. reflexivity.
Qed.

Lemma slice_window {A} (xs : list A) window_size k :
  0 <= window_size ->
  (Z.to_nat window_size + k < length xs)%nat ->
  slice xs (window_size + Z.of_nat k - window_size) (window_size + Z.of_nat k)
  = firstn (Z.to_nat window_size) (skipn k xs).
Proof.
  intros Hw Hk. unfold slice, slice_bound.
  replace (window_size + Z.of_nat k - window_size) with (Z.of_nat k) by lia.
  destruct (Z.ltb_spec (Z.of_nat k) 0); [lia|].
  destruct (Z.ltb_spec (window_size + Z.of_nat k) 0); [lia|].
  replace (Z.to_nat (Z.min (Z.of_nat (length xs)) (Z.max 0 (Z.of_nat k)))) with k by lia.
  replace (Z.to_nat (Z.min (Z.of_nat (length xs)) (Z.max 0 (window_size + Z.of_nat k)))
           - k)%nat with (Z.to_nat window_size) by lia.
  reflexivity.
Qed.

(** What the generator yields at place [k] when the window size is not
    negative. *)
Lemma generate_lookup letters window_size k e :
  0 <= window_size ->
  (generate_alphabet_order_items letters window_size).1 !! k = Some e ->
  exists answer_letter,
    by_order letters !! (Z.to_nat window_size + k)%nat = Some answer_letter
    /\ e = entry_at (by_order letters) window_size (window_size + Z.of_nat k) answer_letter.
Proof.
  unfold generate_alphabet_order_items. fold (by_order letters). intros Hw H.
  apply loop_lookup in H as (i & answer_letter & Hi & Hidx & ->).
  apply range_lookup in Hi as ->.
  exists answer_letter. split; [|reflexivity].
  apply index_nonneg in Hidx; [|lia].
  replace (Z.to_nat window_size + k)%nat with (Z.to_nat (window_size + Z.of_nat k)) by lia.
  exact Hidx.
Qed.

Lemma by_order_ordered letters x :
  all_ordered letters -> x ∈ by_order letters -> is_Some (order x).
Proof.
  unfold all_ordered, by_order. rewrite Forall_forall. intros Hall Hx.
  apply Hall. rewrite (sorted_perm (fun x => default 0 (order x)) letters) in Hx. exact Hx.
Qed.

(** *** The properties *)



(** X17. What a card shows.  For a window size that is not negative, the
    entry yielded at place [k] has for answer the [upper] of the letter
    at place [window_size + k] of the letters sorted by [order], and for
    prompt the [upper]s of the [window_size] letters just before it,
    joined by two spaces and followed by two spaces and a blank. *)
Theorem generate_window (letters : list Letter) (window_size : Z)
    (k : nat) (e : AlphabetOrderEntry) :
  0 <= window_size ->
  (generate_alphabet_order_items letters window_size).1 !! k = Some e ->
  exists window answer_letter,
    window = firstn (Z.to_nat window_size) (skipn k (by_order letters))
    /\ length window = Z.to_nat window_size
    /\ by_order letters !! (Z.to_nat window_size + k)%nat = Some answer_letter
    /\ prompt e = join "  " (uppers window) +:+ "  __"
    /\ answer e = default "" (upper answer_letter).
Proof.
  intros Hw H. apply generate_lookup in H as (answer_letter & Hk & ->); [|exact Hw].
  pose proof (lookup_lt_Some _ _ _ Hk) as Hlt.
  eexists _, answer_letter. split; [reflexivity|].
  split; [rewrite length_take, length_drop; lia|]. split; [exact Hk|].
  cbn [entry_at prompt answer]. rewrite slice_window by assumption.
  split; reflexivity.
Qed.

Lemma generate_window_witness :
  exists e window answer_letter,
    (generate_alphabet_order_items letters_A_Z 4).1 !! 1%nat = Some e
    /\ window = firstn (Z.to_nat 4) (skipn 1 (by_order letters_A_Z))
    /\ length window = Z.to_nat 4
    /\ by_order letters_A_Z !! (Z.to_nat 4 + 1)%nat = Some answer_letter
    /\ prompt e = join "  " (uppers window) +:+ "  __"
    /\ answer e = default "" (upper answer_letter).
Proof.
  eexists. 
  destruct (generate_window letters_A_Z 4 1 _ ltac:(lia) eq_refl) as (window & a & H).
  exists window, a. split; [reflexivity | exact H].
Defined.

(** X18. Cards come in alphabet order.  When every letter declares its
    [order] and the window size is not negative, the positions of the
    entries never decrease from one entry to the next ones. *)
Theorem generate_positions_ordered (letters : list Letter) (window_size : Z)
    (j k : nat) (e1 e2 : AlphabetOrderEntry) :
  all_ordered letters ->
  0 <= window_size ->
  (j <= k)%nat ->
  (generate_alphabet_order_items letters window_size).1 !! j = Some e1 ->
  (generate_alphabet_order_items letters window_size).1 !! k = Some e2 ->
  position e1 <= position e2.
Proof.
  intros Hall Hw Hjk H1 H2.
  apply generate_lookup in H1 as (a1 & Hj & ->); [|exact Hw].
  apply generate_lookup in H2 as (a2 & Hk & ->); [|exact Hw].
  destruct (by_order_ordered letters a1 Hall) as [o1 Ho1];
    [eapply list_elem_of_lookup_2, Hj|].
  destruct (by_order_ordered letters a2 Hall) as [o2 Ho2];
    [eapply list_elem_of_lookup_2, Hk|].
  assert (Hjk' : (Z.to_nat window_size + j <= Z.to_nat window_size + k)%nat) by lia.
  pose proof (sorted_lookup_le (fun x => default 0 (order x)) (by_order letters)
                _ _ a1 a2 (sorted_sorted _ letters) Hjk' Hj Hk) as Hle.
  cbn [entry_at position]. cbn beta in Hle. rewrite Ho1, Ho2 in Hle |- *. exact Hle.
Qed.

Lemma generate_positions_ordered_witness :
  exists e1 e2,
    (generate_alphabet_order_items letters_A_Z 4).1 !! 0%nat = Some e1
    /\ (generate_alphabet_order_items letters_A_Z 4).1 !! 5%nat = Some e2
    /\ position e1 <= position e2.
Proof.
  eexists _, _. split; [reflexivity|]. split; [reflexivity|].
  apply (generate_positions_ordered letters_A_Z 4 0 5).
  - repeat constructor; eexists; reflexivity.
  - lia.
  - lia.
  - reflexivity.
  - reflexivity.
Defined.

(** X19. Distinct orders give distinct ids.  When every letter declares
    its [order], no two letters declare the same, and the window size is
    not negative, no two entries have the same [id]. *)
Theorem generate_ids_distinct (letters : list Letter) (window_size : Z) :
  all_ordered letters ->
  NoDup (map order letters) ->
  0 <= window_size ->
  NoDup (map id (generate_alphabet_order_items letters window_size).1).
Proof.
  intros Hall Hnodup Hw. apply NoDup_alt. intros j k x Hj Hk.
  change (map id ?l) with (id <$> l) in Hj, Hk.
  rewrite list_lookup_fmap in Hj, Hk.
  destruct ((generate_alphabet_order_items letters window_size).1 !! j) as [e1|] eqn:H1;
    [|discriminate].
  destruct ((generate_alphabet_order_items letters window_size).1 !! k) as [e2|] eqn:H2;
    [|discriminate].
  cbn in Hj, Hk. injection Hj as Hj. injection Hk as Hk. rewrite <- Hk in Hj. clear Hk x.
  apply generate_lookup in H1 as (a1 & Ha1 & ->); [|exact Hw].
  apply generate_lookup in H2 as (a2 & Ha2 & ->); [|exact Hw].
  destruct (by_order_ordered letters a1 Hall) as [o1 Ho1];
    [eapply list_elem_of_lookup_2, Ha1|].
  destruct (by_order_ordered letters a2 Hall) as [o2 Ho2];
    [eapply list_elem_of_lookup_2, Ha2|].
  cbn [entry_at id] in Hj. rewrite Ho1, Ho2 in Hj. cbn [default] in Hj.
  assert (Ho : o1 = o2).
  { eapply str_int_inj, append_inv_head, Hj. }
  subst o2.
  assert (Hsorted : NoDup (map order (by_order letters))).
  { unfold by_order. rewrite sorted_perm. exact Hnodup. }
  rewrite NoDup_alt in Hsorted.
  assert (Z.to_nat window_size + j = Z.to_nat window_size + k)%nat as Heq; [|lia].
  apply (Hsorted _ _ (Some o1)); change (map order ?l) with (order <$> l);
    rewrite list_lookup_fmap.
  - rewrite Ha1. cbn. congruence.
  - rewrite Ha2. cbn. congruence.
Qed.

Lemma generate_ids_distinct_witness :
  NoDup (map id (generate_alphabet_order_items letters_A_Z 4).1).
Proof.
  apply (generate_ids_distinct letters_A_Z 4).
  - repeat constructor; eexists; reflexivity.
  - apply (bool_decide_unpack _). vm_compute. reflexivity.
  - lia.
Defined.

End AlphabetOrderMore.
